(** * IntervalsGenerator: merge engine, gap detector, timestamp checks,
  interpolation and rate detection

A shallow embedding of the pandas-based core of the repository:
- [Frame]: the part of pandas' Series/DataFrame behaviour the code relies on;
- [exceptions], [float64]: raised errors, and binary64 numbers;
- [utils]: [check_consecutive_nans_optimized] (src/intervals/utils.py);
- [integrity]: [IntegrityValidator.validate] and [validate_timestamps]
  (src/intervals/validators/integrity.py);
- [merger]: [DataMerger.merge_files] and its head/tail trims
  (src/intervals/merger.py);
- [interpolation]: [interpolate_time_gaps], [detect_sampling_rate] and
  [resample_to_frequency] (src/intervals/interpolation.py);
- [errors]: the validation errors and their text
  (src/intervals/exceptions.py);
- [io]: [find_header_row] and [read_csvs_parallel] (src/intervals/utils.py);
- [interfaces], [validator]: the loader specification and the checks behind
  [IntegrityValidator.validate_full] and [validate_files]
  (src/intervals/interfaces.py, src/intervals/validators/integrity.py);
- [quick_merge]: [merge_dataframes] of the stand-alone script
  (src/quick_merge.py). *)

From stdpp Require Import base gmap sets list strings pretty.
From Stdlib Require Import ZArith Ascii PrimFloat FloatOps SpecFloat.
From Stdlib Require Uint63 QArith.

(** ** Tables

A cell is missing ([NaN]), a number, or a string (an object-dtype value).
A Series is the list of its cells in row order (the index is the default
RangeIndex, which is what [reset_index(drop=True)] produces); a DataFrame
is the list of its named columns in column order.  The carrier [V] of the
numbers is a parameter: the merge engine and the gap detector never look
inside a number. *)
Module Frame.

Inductive cell (V : Type) : Type :=
| NaN : cell V
| Num (v : V) : cell V
| Str (s : string) : cell V.
Arguments NaN {V}.
Arguments Num {V} v.
Arguments Str {V} s.

Abbreviation Series V := (list (cell V)) (only parsing).
Abbreviation DataFrame V := (list (string * list (cell V))) (only parsing).

Section ops.
Context {V : Type}.

(** [Series.isna()] on one cell. *)
Definition isna (c : cell V) : bool :=
  match c with NaN => true | _ => false end.

(** [df.columns] *)
Definition columns (df : DataFrame V) : list string := df.*1.

(** [df[c]]: the first column labelled [c]. *)
Fixpoint get_col (df : DataFrame V) (c : string) : option (Series V) :=
  match df with
  | [] => None
  | (c', s) :: df' => if decide (c' = c) then Some s else get_col df' c
  end.

(** [len(df)] *)
Definition nrows (df : DataFrame V) : nat := max_list (length <$> df.*2).

(** [df.empty]: some axis has length 0. *)
Definition empty (df : DataFrame V) : bool :=
  bool_decide (length df = 0) || bool_decide (nrows df = 0).

(** Reindexing a column to [n] rows: rows beyond its end are missing. *)
Definition pad (n : nat) (s : Series V) : Series V :=
  s ++ replicate (n - length s) NaN.

(** [pd.concat(dfs, axis=1)] of frames with default RangeIndex: the
    result's index is the union of the indexes (outer join), the columns
    are the frames' columns in order, each reindexed to the union. *)
Definition concat_axis1 (dfs : list (DataFrame V)) : DataFrame V :=
  let n := max_list (nrows <$> dfs) in
  prod_map id (pad n) <$> mjoin dfs.

(** [Series.shift(-k)] *)
Definition shift_up (k : nat) (s : Series V) : Series V :=
  drop k s ++ replicate (min k (length s)) NaN.

End ops.
End Frame.
Import Frame.

(** ** src/intervals/utils.py *)
Module utils.

(** [Config.DEFAULT_GAP_THRESHOLD] *)
Definition DEFAULT_GAP_THRESHOLD : Z := 10.

Section gaps.
Context {V : Type}.

(** [series.isna() | (series == "")] on one cell. *)
Definition is_null (c : cell V) : bool :=
  match c with
  | NaN => true
  | Num _ => false
  | Str s => bool_decide (s = "")
  end.

(** [is_null.ne(is_null.shift())]: an entry differs from its predecessor;
    the first entry is compared with the missing value [shift] puts in
    front, and so always differs. *)
Fixpoint changes_from (prev : option bool) (mask : list bool) : list bool :=
  match mask with
  | [] => []
  | b :: mask' => negb (bool_decide (prev = Some b)) :: changes_from (Some b) mask'
  end.

(** [changes.cumsum()] *)
Fixpoint cumsum_from (acc : nat) (l : list bool) : list nat :=
  match l with
  | [] => []
  | b :: l' =>
      let acc' := acc + (if b then 1 else 0) in
      acc' :: cumsum_from acc' l'
  end.

(** [groups[is_null]]: boolean-mask selection. *)
Fixpoint select {A : Type} (l : list A) (mask : list bool) : list A :=
  match l, mask with
  | x :: l', b :: mask' => if b then x :: select l' mask' else select l' mask'
  | _, _ => []
  end.

Definition count_of (x : nat) (l : list nat) : nat :=
  length (filter (λ y, y = x) l).

(** [value_counts()]: each distinct value with its number of occurrences. *)
Definition value_counts (l : list nat) : list (nat * nat) :=
  (λ x, (x, count_of x l)) <$> remove_dups l.

(** [value_counts().max()] *)
Definition value_counts_max (l : list nat) : nat :=
  max_list (value_counts l).*2.

Definition check_consecutive_nans_optimized
    (series : Series V) (threshold : option Z) : Z :=
  let threshold := default DEFAULT_GAP_THRESHOLD threshold in
  let is_null := is_null <$> series in
  if negb (existsb id is_null) then 0
  else
    let null_count := Z.of_nat (length (filter (λ b, b = true) is_null)) in
    if (null_count <? threshold)%Z then null_count
    else
      let changes := changes_from None is_null in
      let groups := cumsum_from 0 changes in
      let null_groups := select groups is_null in
      if bool_decide (null_groups = []) then 0
      else Z.of_nat (value_counts_max null_groups).

(** In the specification's words: the number of nulls, and the longest run of
    consecutive nulls, of a column. *)
Definition null_total (series : Series V) : nat :=
  length (filter (λ c, is_null c = true) series).

Fixpoint longest_run_from (cur : nat) (mask : list bool) : nat :=
  match mask with
  | [] => cur
  | true :: mask' => longest_run_from (S cur) mask'
  | false :: mask' => cur `max` longest_run_from 0 mask'
  end.

Definition longest_null_run (series : Series V) : nat :=
  longest_run_from 0 (is_null <$> series).

End gaps.
End utils.


(** ** Exceptions (src/intervals/exceptions.py) and results of fallible calls *)
Module exceptions.

Inductive exn : Type :=
| TimestampError (error_type column : string) (file_path : option string)
    (details : string)
| ValueError (message : string)
| TypeError
| OverflowError.

Inductive result (A : Type) : Type :=
| Ok (a : A)
| Raise (e : exn).
Arguments Ok {A} a.
Arguments Raise {A} e.

End exceptions.
Import exceptions.

(** ** Numbers: binary64 values, as pandas stores a float64 column *)
Module float64.

(** A column read as a float64 array: the missing value is the float NaN. *)
Definition dropna (xs : list float) : list float :=
  filter (λ x, is_nan x = false) xs.

(** [Series.diff()]: the first entry is missing, entry [i] is
    [xs[i] - xs[i-1]]. *)
Definition diff (xs : list float) : list float :=
  match xs with
  | [] => []
  | _ :: rest => nan :: zip_with PrimFloat.sub rest xs
  end.

Fixpoint insert_sorted (x : float) (l : list float) : list float :=
  match l with
  | [] => [x]
  | y :: l' => if (x <=? y)%float then x :: l else y :: insert_sorted x l'
  end.

Definition sort (l : list float) : list float := foldr insert_sorted [] l.

(** [Series.median()]: missing values are skipped; the middle value of the
    sorted rest, or the mean of the two middle values; NaN when nothing is
    left. *)
Definition median (xs : list float) : float :=
  let s := sort (dropna xs) in
  let n := length s in
  if bool_decide (n = 0) then nan
  else if Nat.odd n then default nan (s !! (n / 2))
  else (default nan (s !! (n / 2 - 1)) + default nan (s !! (n / 2))) / 2.

(** [int(x)] / [astype(int)]: truncation towards zero; no value for NaN and
    the infinities. *)
Definition trunc (x : float) : option Z :=
  match Prim2SF x with
  | S754_zero _ => Some 0%Z
  | S754_finite s m e =>
      let v := if (0 <=? e)%Z then (Z.pos m * 2 ^ e)%Z
               else (Z.pos m / 2 ^ (- e))%Z in
      Some (if s then (- v)%Z else v)
  | _ => None
  end.

(** Python's [round(x)] on a float: the nearest integer, ties to even. *)
Definition round (x : float) : option Z :=
  match Prim2SF x with
  | S754_zero _ => Some 0%Z
  | S754_finite s m e =>
      let v :=
        if (0 <=? e)%Z then (Z.pos m * 2 ^ e)%Z
        else
          let d := (2 ^ (- e))%Z in
          let q := (Z.pos m / d)%Z in
          let r := (Z.pos m mod d)%Z in
          if (2 * r <? d)%Z then q
          else if (d <? 2 * r)%Z then (q + 1)%Z
          else if Z.even q then q else (q + 1)%Z in
      Some (if s then (- v)%Z else v)
  | _ => None
  end.

(** An [int] as a float64 (exact below 2^53). *)
Definition of_Z (z : Z) : float :=
  if (z <? 0)%Z then (- of_uint63 (Uint63.of_Z (- z)))%float
  else of_uint63 (Uint63.of_Z z).

End float64.

(** ** src/intervals/validators/integrity.py *)
Module integrity.

Record IntegrityValidator : Type := {
  gap_threshold : Z;
  fail_fast : bool;
  strict_mode : bool
}.

(** [IntegrityValidator.__init__]: a missing threshold is the configured
    default. *)
Definition new_validator (gap_threshold : option Z) (fail_fast strict_mode : bool)
    : IntegrityValidator :=
  {| gap_threshold := default utils.DEFAULT_GAP_THRESHOLD gap_threshold;
     fail_fast := fail_fast;
     strict_mode := strict_mode |}.

(** f"Kolumna '{col}': {max_gap} pustych wierszy z rzędu" *)
Definition gap_issue (col : string) (max_gap : Z) : string :=
  "Kolumna '" +:+ col +:+ "': " +:+ pretty max_gap +:+ " pustych wierszy z rzędu".

Section validate.
Context {V : Type}.

(** [IntegrityValidator.validate] (the legacy interface): one pass over
    [df.columns], reading each column as [df[col]]. *)
Definition validate (self : IntegrityValidator) (df : DataFrame V) : list string :=
  foldl (λ issues col,
           match get_col df col with
           | Some series =>
               let max_gap :=
                 utils.check_consecutive_nans_optimized series (Some (gap_threshold self)) in
               if (gap_threshold self <=? max_gap)%Z
               then issues ++ [gap_issue col max_gap]
               else issues
           | None => issues
           end)
        [] (columns df).

End validate.

(** *** [validate_timestamps] *)
Section timestamps.

(** [pd.to_numeric] on a string: the number it denotes, if any (pandas'
    parser; with [errors="coerce"] the rest becomes NaN). *)
Context (parse_number : string → option float).

Definition to_numeric_coerce (c : cell float) : float :=
  match c with
  | NaN => nan
  | Num v => v
  | Str s => default nan (parse_number s)
  end.

(** The hash-table equality behind [Series.duplicated()]: equal floats, or
    both NaN. *)
Definition same_value (a b : float) : bool :=
  (a =? b)%float || (is_nan a && is_nan b).

(** [Series.duplicated()]: the value occurred in an earlier row. *)
Fixpoint duplicated_from (earlier : list float) (xs : list float) : list bool :=
  match xs with
  | [] => []
  | x :: xs' => existsb (same_value x) earlier :: duplicated_from (x :: earlier) xs'
  end.

Definition count_true (mask : list bool) : nat :=
  length (filter (λ b, b = true) mask).

Definition negative_warning (time_column : string) (negative_count : nat) : string :=
  "Kolumna '" +:+ time_column +:+ "': " +:+ pretty negative_count
    +:+ " wartości ujemnych".

Definition decreasing_warning (time_column : string)
    (decreasing_count first_decrease_idx : nat) : string :=
  "Kolumna '" +:+ time_column +:+ "': wartości maleją " +:+ pretty decreasing_count
    +:+ "x (pierwsze w wierszu " +:+ pretty first_decrease_idx +:+ ")".

Definition duplicate_warning (time_column : string) (duplicate_count : nat) : string :=
  "Kolumna '" +:+ time_column +:+ "': " +:+ pretty duplicate_count
    +:+ " zduplikowanych wartości".

(** The three checks, in the order of the source; each either appends to
    [warnings] or, where the source has a [raise], raises. *)
Definition validate_timestamps (self : IntegrityValidator) (df : DataFrame float)
    (time_column : string) (file_path : option string)
    (check_monotonic check_duplicates check_negative : bool)
    : result (list string) :=
  match get_col df time_column with
  | None => Ok []
  | Some series =>
      let time_series := to_numeric_coerce <$> series in
      (* Check for negative values *)
      let negative_count := count_true ((λ x, x <? 0)%float <$> time_series) in
      let negative : result (list string) :=
        if check_negative && bool_decide (0 < negative_count) then
          if fail_fast self then
            Raise (TimestampError "negative" time_column file_path
                     (pretty negative_count +:+ " wartości ujemnych"))
          else Ok [negative_warning time_column negative_count]
        else Ok [] in
      match negative with
      | Raise e => Raise e
      | Ok warnings =>
          (* Check for monotonic (non-decreasing) *)
          let diff := float64.diff time_series in
          let decreasing := (λ x, x <? 0)%float <$> diff in
          let decreasing_count := count_true decreasing in
          let monotonic : result (list string) :=
            if check_monotonic && bool_decide (0 < decreasing_count) then
              let first_decrease_idx :=
                default 0 (fst <$> list_find (λ b, b = true) decreasing) in
              if fail_fast self then
                Raise (TimestampError "non_monotonic" time_column file_path
                         ("Wartość maleje w wierszu " +:+ pretty first_decrease_idx))
              else Ok (warnings ++ [decreasing_warning time_column decreasing_count
                                      first_decrease_idx])
            else Ok warnings in
          match monotonic with
          | Raise e => Raise e
          | Ok warnings =>
              (* Check for duplicates *)
              let duplicate_count := count_true (duplicated_from [] time_series) in
              if check_duplicates && bool_decide (0 < duplicate_count) then
                Ok (warnings ++ [duplicate_warning time_column duplicate_count])
              else Ok warnings
          end
      end
  end.

End timestamps.
End integrity.

(** ** src/intervals/merger.py *)
Module merger.

(** Time-related column names (compared case-insensitively). *)
Definition TIME_KEYWORDS : list string :=
  ["secs"; "seconds"; "time"; "timestamp"; "timer.s"].

(** [str.lower()].  Strings are byte strings (UTF-8), and only the ASCII
    letters are mapped: no non-ASCII character lower-cases to a string of the
    letters that occur in [TIME_KEYWORDS], so membership in [TIME_KEYWORDS]
    after lowering is the same as with Python's Unicode [lower]. *)
Definition ascii_lower (a : ascii) : ascii :=
  let n := nat_of_ascii a in
  if bool_decide (65 ≤ n ≤ 90) then ascii_of_nat (n + 32) else a.

Fixpoint lower (s : string) : string :=
  match s with
  | EmptyString => EmptyString
  | String a s' => String (ascii_lower a) (lower s')
  end.

Definition is_time_column (c : string) : bool :=
  bool_decide (lower c ∈ TIME_KEYWORDS).

(** The regular expression [^\s*$]: the string consists of white space only.
    [bytes] is the UTF-8 encoding; the white space of Python's [\s] on [str]
    is the ASCII set (TAB..CR, FS..US, SPACE) and the Unicode spaces U+0085,
    U+00A0, U+1680, U+2000..U+200A, U+2028, U+2029, U+202F, U+205F, U+3000. *)
Fixpoint all_space (bytes : list nat) : bool :=
  match bytes with
  | [] => true
  | 194 :: b :: rest =>
      (bool_decide (b = 133) || bool_decide (b = 160)) && all_space rest
  | 225 :: 154 :: 128 :: rest => all_space rest
  | 226 :: 128 :: b :: rest =>
      (bool_decide (128 ≤ b ≤ 138) || bool_decide (b = 168) || bool_decide (b = 169)
       || bool_decide (b = 175)) && all_space rest
  | 226 :: 129 :: 159 :: rest => all_space rest
  | 227 :: 128 :: 128 :: rest => all_space rest
  | b :: rest =>
      (bool_decide (9 ≤ b ≤ 13) || bool_decide (28 ≤ b ≤ 32)) && all_space rest
  end.

Fixpoint bytes_of (s : string) : list nat :=
  match s with
  | EmptyString => []
  | String a s' => nat_of_ascii a :: bytes_of s'
  end.

Definition is_blank (s : string) : bool := all_space (bytes_of s).

(** The user interface, as far as the merge engine uses it: what it prints
    (each message by its format and arguments) and what it asks. *)
Inductive message : Type :=
| MergingAll
| Separator
| IgnoringColumns (clean_path : string) (duplicates : list string)
| NoNewColumns (clean_path : string)
| PreparedData (clean_path : string)
| AddedColumns (cols : list string)
| MergeError (clean_path : string)
| BatchConcat (n_frames : nat)
| MergedAll (n_columns : nat)
| HeadValidation
| TailValidation
| NoCompleteRow
| FirstRowComplete
| IncompleteHead (first_valid_pos : nat)
| LeftUnchanged
| TimeColumns (time_cols : list string)
| DataColumns (first_valid_pos n_data_cols : nat)
| ShiftedData
| AllRowsComplete
| AutoTrim (to_remove : nat)
| TrimDetails (total_rows last_valid_pos : nat)
| TrimmedTail (to_remove new_length : nat).

Inductive ui_event : Type :=
| print_message (m : message)
| print_success (m : message)
| print_warning (m : message)
| print_error (m : message)
| print_separator.

(** [ask_yes_no]: the answer to "remove the first [first_valid_pos] lines,
    keeping the time counter?". *)
Record UserInterface : Type := {
  ask_yes_no : nat → bool
}.

Section merge.
Context {V : Type}.

(** The state of the batch loop of [merge_files]. *)
Record batch : Type := {
  all_dfs : list (DataFrame V);
  seen_columns : gset string;
  printed : list ui_event
}.

(** [df.drop(columns=labels)] *)
Definition drop_columns (labels : list string) (df : DataFrame V) : DataFrame V :=
  filter (λ p, p.1 ∉ labels) df.

(** One iteration of [for clean_path in clean_files].  [fs] is
    [self.fs.read_csv]: [None] when reading raises (the [except] branch). *)
Definition merge_step (fs : string → option (DataFrame V))
    (st : batch) (clean_path : string) : batch :=
  match fs clean_path with
  | None =>
      {| all_dfs := all_dfs st;
         seen_columns := seen_columns st;
         printed := printed st ++ [print_error (MergeError clean_path)] |}
  | Some df_new =>
      let new_reset := df_new in
      let duplicates :=
        filter (λ col, col ∈ seen_columns st) (columns new_reset) in
      let new_reset :=
        if bool_decide (duplicates ≠ []) then drop_columns duplicates new_reset
        else new_reset in
      let out1 :=
        if bool_decide (duplicates ≠ [])
        then [print_message (IgnoringColumns clean_path duplicates)] else [] in
      if empty new_reset || bool_decide (length (columns new_reset) = 0) then
        {| all_dfs := all_dfs st;
           seen_columns := seen_columns st;
           printed := printed st ++ out1 ++ [print_warning (NoNewColumns clean_path)] |}
      else
        {| all_dfs := all_dfs st ++ [new_reset];
           seen_columns := seen_columns st ∪ list_to_set (columns new_reset);
           printed := printed st ++ out1 ++
                      [print_success (PreparedData clean_path);
                       print_message (AddedColumns (columns new_reset))] |}
  end.

(** Lines 50-94 of merger.py: the batch loop and the single concat. *)
Definition merge_batch (fs : string → option (DataFrame V))
    (base_df : DataFrame V) (clean_files : list string) : batch :=
  foldl (merge_step fs)
    {| all_dfs := [base_df];
       seen_columns := list_to_set (columns base_df);
       printed := [print_message MergingAll; print_separator] |}
    clean_files.

Definition batch_concat (fs : string → option (DataFrame V))
    (base_df : DataFrame V) (clean_files : list string)
    : DataFrame V * list ui_event :=
  let st := merge_batch fs base_df clean_files in
  let df_merged := concat_axis1 (all_dfs st) in
  (df_merged,
   printed st ++ [print_message (BatchConcat (length (all_dfs st)));
                  print_success (MergedAll (length (columns df_merged)))]).

(** A cell of [df_check] is missing: NaN, or (object columns) a string that
    matches [^\s*$]. *)
Definition missing (c : cell V) : bool :=
  match c with
  | NaN => true
  | Num _ => false
  | Str s => is_blank s
  end.

(** [complete_mask]: the row has no missing value in any column. *)
Definition row_complete (df : DataFrame V) (i : nat) : bool :=
  forallb (λ p, match p.2 !! i with
                | Some c => negb (missing c)
                | None => false
                end) df.

(** [np.where(complete_mask)[0]] *)
Definition complete_indices (df : DataFrame V) : list nat :=
  filter (λ i, row_complete df i = true) (seq 0 (nrows df)).

Definition _validate_and_trim_head (ui : UserInterface) (df : DataFrame V)
    : DataFrame V * list ui_event :=
  match complete_indices df with
  | [] => (df, [print_message HeadValidation; print_warning NoCompleteRow])
  | first_valid_pos :: _ =>
      if bool_decide (first_valid_pos = 0) then
        (df, [print_message HeadValidation; print_success FirstRowComplete])
      else if negb (ask_yes_no ui first_valid_pos) then
        (df, [print_message HeadValidation;
              print_warning (IncompleteHead first_valid_pos);
              print_message LeftUnchanged])
      else
        let time_cols := filter (λ c, is_time_column c = true) (columns df) in
        let data_cols := filter (λ c, c ∉ time_cols) (columns df) in
        let df_new :=
          (λ p, if decide (p.1 ∈ data_cols)
                then (p.1, shift_up first_valid_pos p.2) else p) <$> df in
        (df_new, [print_message HeadValidation;
                  print_warning (IncompleteHead first_valid_pos);
                  print_message (TimeColumns time_cols);
                  print_message (DataColumns first_valid_pos (length data_cols));
                  print_success ShiftedData])
  end.

Definition _validate_and_trim_tail (df : DataFrame V)
    : DataFrame V * list ui_event :=
  let total_rows := nrows df in
  match last (complete_indices df) with
  | None => (df, [print_message TailValidation; print_warning NoCompleteRow])
  | Some last_valid_pos =>
      let rows_to_keep := last_valid_pos + 1 in
      let to_remove := total_rows - rows_to_keep in
      if bool_decide (to_remove = 0) then
        (df, [print_message TailValidation; print_success AllRowsComplete])
      else
        let df_trimmed := prod_map id (take rows_to_keep) <$> df in
        (df_trimmed, [print_message TailValidation;
                      print_warning (AutoTrim to_remove);
                      print_message (TrimDetails total_rows last_valid_pos);
                      print_success (TrimmedTail to_remove (nrows df_trimmed))])
  end.

Definition merge_files (ui : UserInterface) (fs : string → option (DataFrame V))
    (base_df : DataFrame V) (clean_files : list string)
    (validate_head validate_tail : bool) : DataFrame V * list ui_event :=
  let '(df_merged, out) := batch_concat fs base_df clean_files in
  let '(df_merged, out) :=
    if validate_head
    then let '(df, o) := _validate_and_trim_head ui df_merged in (df, out ++ o)
    else (df_merged, out) in
  if validate_tail
  then let '(df, o) := _validate_and_trim_tail df_merged in (df, out ++ o)
  else (df_merged, out).

End merge.
End merger.

(** ** src/intervals/interpolation.py *)
Module interpolation.

(** The cells of a numeric operation's operand: a string makes pandas raise
    [TypeError] (object dtype). *)
Definition numeric_values (series : Series float) : result (list float) :=
  foldr (λ c acc,
           match acc, c with
           | Raise e, _ => Raise e
           | Ok xs, NaN => Ok (nan :: xs)
           | Ok xs, Num v => Ok (v :: xs)
           | Ok _, Str _ => Raise TypeError
           end) (Ok []) series.

Definition detect_sampling_rate (df : DataFrame float) (time_col : string)
    : result float :=
  match get_col df time_col with
  | None => Ok 1%float
  | Some series =>
      if bool_decide (nrows df < 2) then Ok 1%float
      else
        match numeric_values series with
        | Raise e => Raise e
        | Ok xs =>
            let time_diff := float64.dropna (float64.diff xs) in
            if bool_decide (length time_diff = 0) then Ok 1%float
            else
              let median_diff := float64.median time_diff in
              if (median_diff <=? 0)%float then Ok 1%float
              else Ok (1 / median_diff)%float
        end
  end.

Inductive agg_method : Type := mean | first | last | agg_median.

(** The aggregations of [groupby(...).agg], on the cells of one group.
    Missing values are skipped; a group without values gives a missing
    value.  ([mean] sums from left to right.) *)
Definition present (cells : Series float) : Series float :=
  filter (λ c, isna c = false) cells.

Definition cell_of_float (x : float) : cell float :=
  if is_nan x then NaN else Num x.

Definition aggregate (how : agg_method) (cells : Series float) : result (cell float) :=
  match how with
  | first => Ok (default NaN (head (present cells)))
  | last => Ok (default NaN (List.last (Some <$> present cells) None))
  | mean =>
      match numeric_values (present cells) with
      | Raise e => Raise e
      | Ok [] => Ok NaN
      | Ok xs =>
          Ok (cell_of_float (foldl PrimFloat.add 0%float xs
                             / float64.of_Z (Z.of_nat (length xs))))
      end
  | agg_median =>
      match numeric_values (present cells) with
      | Raise e => Raise e
      | Ok xs => Ok (cell_of_float (float64.median xs))
      end
  end.

(** [select_dtypes(include=[np.number])]: no string in the column. *)
Definition is_numeric {V : Type} (series : Series V) : bool :=
  forallb (λ c, match c with Str _ => false | _ => true end) series.

Section resample.

(** Python's [int(s)] on a string, as [astype(int)] applies it to the
    strings of an object column. *)
Context (int_of_string : string → option Z).

(** [s * n] on a string: [n] copies of [s] (none for [n <= 0]). *)
Definition repeat_string (s : string) (n : Z) : string :=
  foldr String.append "" (replicate (Z.to_nat n) s).

(** One entry of [(df[time_col] * target_freq).astype(int)]: a number is
    multiplied and truncated, a string is repeated and parsed; there is no
    integer for a missing or infinite value, nor for a string that is not an
    integer literal. *)
Definition second_of (target_freq : Z) (c : cell float) : option Z :=
  match c with
  | NaN => None
  | Num t => float64.trunc (t * float64.of_Z target_freq)
  | Str s => int_of_string (repeat_string s target_freq)
  end.

Definition seconds (target_freq : Z) (series : Series float) : result (list Z) :=
  foldr (λ c acc,
           match acc, second_of target_freq c with
           | Raise e, _ => Raise e
           | Ok ks, Some k => Ok (k :: ks)
           | Ok _, None => Raise (ValueError "cannot convert to integer")
           end) (Ok []) series.

Fixpoint insert_key (k : Z) (l : list Z) : list Z :=
  match l with
  | [] => [k]
  | k' :: l' =>
      if (k <? k')%Z then k :: l
      else if (k =? k')%Z then l
      else k' :: insert_key k l'
  end.

(** The group keys of [groupby]: distinct, ascending. *)
Definition group_keys (keys : list Z) : list Z := foldr insert_key [] keys.

(** The cells of [series] in the rows whose key is [k]. *)
Fixpoint group_cells (keys : list Z) (series : Series float) (k : Z) : Series float :=
  match keys, series with
  | k' :: keys', c :: series' =>
      if (k' =? k)%Z then c :: group_cells keys' series' k
      else group_cells keys' series' k
  | _, _ => []
  end.

(** One aggregated column: a cell per group. *)
Definition agg_column (how : agg_method) (keys groups : list Z) (series : Series float)
    : result (Series float) :=
  foldr (λ k acc,
           match acc, aggregate how (group_cells keys series k) with
           | Raise e, _ => Raise e
           | Ok cells, Ok c => Ok (c :: cells)
           | Ok _, Raise e => Raise e
           end) (Ok []) groups.

Definition agg_columns (agg_dict : list (string * agg_method)) (keys groups : list Z)
    (df : DataFrame float) : result (DataFrame float) :=
  foldr (λ '(col, how) acc,
           match acc, get_col df col with
           | Raise e, _ => Raise e
           | Ok out, Some series =>
               match agg_column how keys groups series with
               | Ok cells => Ok ((col, cells) :: out)
               | Raise e => Raise e
               end
           | Ok out, None => Ok out
           end) (Ok []) agg_dict.

Definition resample_to_frequency (df : DataFrame float) (time_col : string)
    (target_freq : Z) (current_freq : option Z) (how : agg_method)
    : result (DataFrame float) :=
  match get_col df time_col with
  | None =>
      Raise (ValueError ("Time column '" +:+ time_col +:+ "' not found in DataFrame"))
  | Some series =>
      (* Detect current frequency if not provided *)
      let detected : result Z :=
        match current_freq with
        | Some f => Ok f
        | None =>
            match numeric_values series with
            | Raise e => Raise e
            | Ok times =>
                let time_diff := float64.median (float64.diff times) in
                if (0 <? time_diff)%float then
                  match float64.round (1 / time_diff) with
                  | Some f => Ok f
                  | None => Raise OverflowError
                  end
                else Ok 1%Z
            end
        end in
      match detected with
      | Raise e => Raise e
      | Ok current_freq =>
          if bool_decide (current_freq = target_freq) then Ok df
          else
            (* Create integer second column for grouping *)
            match seconds target_freq series with
            | Raise e => Raise e
            | Ok keys =>
                let others :=
                  filter (λ p, p.1 ≠ time_col ∧ p.1 ≠ "_second") df in
                let numeric_cols :=
                  (filter (λ p, is_numeric p.2 = true) others).*1 in
                let non_numeric_cols :=
                  (filter (λ p, is_numeric p.2 = false) others).*1 in
                let agg_dict :=
                  ((λ c, (c, how)) <$> numeric_cols)
                  ++ ((λ c, (c, first)) <$> non_numeric_cols) in
                if bool_decide (agg_dict = []) then
                  Raise (ValueError "No objects to concatenate")
                else
                  let groups := group_keys keys in
                  match agg_columns agg_dict keys groups df with
                  | Raise e => Raise e
                  | Ok cols =>
                      Ok ((time_col, (λ k, Num (float64.of_Z k)) <$> groups) :: cols)
                  end
            end
      end
  end.

End resample.

(** *** Gap interpolation

    The values of the interpolated columns are rationals: finite numbers,
    with the arithmetic of linear interpolation exact.  Which cells are
    missing, the subject of the statements below, does not depend on the
    rounding of the filled values. *)
Section gaps.
#[local] Abbreviation Q := QArith_base.Q.

Inductive InterpolationMethod : Type := none | linear | ffill | bfill | pad.

(** [series.isna().sum()] *)
Definition nan_count (series : Series Q) : nat :=
  length (filter (λ c, isna c = true) series).

(** The groups of [mask.groupby((mask != mask.shift()).cumsum())], in order:
    the maximal runs of equal values, each with its value and length. *)
Fixpoint runs (mask : list bool) : list (bool * nat) :=
  match mask with
  | [] => []
  | b :: mask' =>
      match runs mask' with
      | (b', n) :: rs =>
          if bool_decide (b = b') then (b, S n) :: rs else (b, 1) :: (b', n) :: rs
      | [] => [(b, 1)]
      end
  end.

Definition _get_consecutive_lengths (mask : list bool) : list nat :=
  if negb (existsb id mask) then []
  else (filter (λ r, r.1 = true) (runs mask)).*2.

(** Distance to, and value of, the next value of a column that is not
    missing (1 for the head of the list). *)
Fixpoint next_present (rest : Series Q) : option (nat * cell Q) :=
  match rest with
  | [] => None
  | NaN :: rest' => prod_map S id <$> next_present rest'
  | c :: _ => Some (1, c)
  end.

Definition within (limit : option nat) (n : nat) : bool :=
  match limit with
  | None => true
  | Some l => bool_decide (n ≤ l)
  end.

(** A point at [since] of [since + ahead] steps from [a] to [b]. *)
Definition lerp (a b : Q) (since ahead : nat) : Q :=
  Qreduction.Qred
    (QArith_base.Qplus a
       (QArith_base.Qdiv
          (QArith_base.Qmult (QArith_base.Qminus b a)
             (QArith_base.inject_Z (Z.of_nat since)))
          (QArith_base.inject_Z (Z.of_nat (since + ahead))))).

(** [Series.interpolate(method='linear', limit=limit)] on a numeric column
    (the direction is forward): the rows are taken as equally spaced; a
    missing value before the first number is left; after the last number the
    last number is repeated; at most [limit] values are filled after a
    number.  [prev] is the last number seen, [since] the missing values since
    then. *)
Fixpoint interpolate_from (limit : option nat) (prev : option Q) (since : nat)
    (series : Series Q) : Series Q :=
  match series with
  | [] => []
  | Num v :: rest => Num v :: interpolate_from limit (Some v) 0 rest
  | Str s :: rest => Str s :: interpolate_from limit prev since rest
  | NaN :: rest =>
      (match prev with
       | Some a =>
           if within limit (S since) then
             match next_present rest with
             | Some (ahead, Num b) => Num (lerp a b (S since) ahead)
             | _ => Num a
             end
           else NaN
       | None => NaN
       end) :: interpolate_from limit prev (S since) rest
  end.

Definition has_str (series : Series Q) : bool :=
  existsb (λ c, match c with Str _ => true | _ => false end) series.

(** Linear interpolation of an object column that holds strings fails. *)
Definition interpolate_linear (limit : option nat) (series : Series Q)
    : result (Series Q) :=
  if has_str series then Raise TypeError
  else Ok (interpolate_from limit None 0 series).

(** [Series.ffill(limit=limit)]: a missing value takes the last value that
    is not missing, when at most [limit] rows back. *)
Fixpoint ffill_from (limit : option nat) (prev : option (cell Q)) (since : nat)
    (series : Series Q) : Series Q :=
  match series with
  | [] => []
  | NaN :: rest =>
      (match prev with
       | Some c => if within limit (S since) then c else NaN
       | None => NaN
       end) :: ffill_from limit prev (S since) rest
  | c :: rest => c :: ffill_from limit (Some c) 0 rest
  end.

(** [Series.bfill(limit=limit)]: a missing value takes the next value that
    is not missing, when at most [limit] rows ahead. *)
Fixpoint bfill_from (limit : option nat) (series : Series Q) : Series Q :=
  match series with
  | [] => []
  | NaN :: rest =>
      (match next_present rest with
       | Some (ahead, c) => if within limit ahead then c else NaN
       | None => NaN
       end) :: bfill_from limit rest
  | c :: rest => c :: bfill_from limit rest
  end.

(** The three fills of the source, by method; another method fills nothing. *)
Definition fill (method : InterpolationMethod) (limit : option nat) (series : Series Q)
    : result (Series Q) :=
  match method with
  | linear => interpolate_linear limit series
  | ffill | pad => Ok (ffill_from limit None 0 series)
  | bfill => Ok (bfill_from limit series)
  | none => Ok series
  end.

(** [result.loc[start_idx:end_idx] = values] for the [n] rows from
    [start_idx]. *)
Definition set_rows (start_idx n : nat) (values result : Series Q) : Series Q :=
  take start_idx result ++ values ++ drop (start_idx + n) result.

(** The loop of [_interpolate_small_gaps] over the groups; [start_idx] is
    the row where the next group starts. *)
Fixpoint small_gaps_loop (max_gap : Z) (method : InterpolationMethod)
    (groups : list (bool * nat)) (start_idx : nat) (result : Series Q)
    : exceptions.result (Series Q) :=
  match groups with
  | [] => Ok result
  | (is_gap, gap_length) :: groups' =>
      if is_gap && (Z.of_nat gap_length <=? max_gap)%Z then
        match fill method None (take gap_length (drop start_idx result)) with
        | Ok values =>
            small_gaps_loop max_gap method groups' (start_idx + gap_length)
              (set_rows start_idx gap_length values result)
        | Raise e => Raise e
        end
      else small_gaps_loop max_gap method groups' (start_idx + gap_length) result
  end.

Definition _interpolate_small_gaps (series : Series Q) (max_gap : Z)
    (method : InterpolationMethod) : result (Series Q) :=
  let nan_mask := isna <$> series in
  if negb (existsb id nan_mask) then Ok series
  else small_gaps_loop max_gap method (runs nan_mask) 0 series.

(** The body of the loop of [interpolate_time_gaps] for one column that has
    missing values.  (In the first branch [max_gap] is at least 1, the
    length of some gap, so it is a valid [limit].) *)
Definition interpolate_column (series : Series Q) (method : InterpolationMethod)
    (max_gap : Z) : result (Series Q) :=
  let nan_mask := isna <$> series in
  let gap_lengths := _get_consecutive_lengths nan_mask in
  if bool_decide (gap_lengths = [])
     || (Z.of_nat (max_list gap_lengths) <=? max_gap)%Z then
    fill method (Some (Z.to_nat max_gap)) series
  else _interpolate_small_gaps series max_gap method.

(** [df[col] = series] for an existing label. *)
Definition set_col (df : DataFrame Q) (col : string) (series : Series Q) : DataFrame Q :=
  (λ p, if decide (p.1 = col) then (col, series) else p) <$> df.

(** The body of [for col in columns] in [interpolate_time_gaps]; the state
    is the table so far and [total_filled]. *)
Definition interpolate_step (method : InterpolationMethod) (max_gap : Z)
    (acc : result (DataFrame Q * Z)) (col : string) : result (DataFrame Q * Z) :=
  match acc with
  | Raise e => Raise e
  | Ok (df_copy, total_filled) =>
      match get_col df_copy col with
      | None => acc
      | Some series =>
          let nan_before := nan_count series in
          if bool_decide (nan_before = 0) then acc
          else
            match interpolate_column series method max_gap with
            | Raise e => Raise e
            | Ok series' =>
                let nan_after := nan_count series' in
                Ok (set_col df_copy col series',
                    (total_filled + (Z.of_nat nan_before - Z.of_nat nan_after))%Z)
            end
      end
  end.

Definition interpolate_time_gaps (df : DataFrame Q) (time_col : string)
    (method : InterpolationMethod) (max_gap : Z) (columns : option (list string))
    : result (DataFrame Q * Z) :=
  match method with
  | none => Ok (df, 0%Z)
  | _ =>
      let columns :=
        match columns with
        | Some cols => cols
        | None =>
            filter (λ c, c ≠ time_col)
                   (filter (λ p, is_numeric p.2 = true) df).*1
        end in
      foldl (interpolate_step method max_gap) (Ok (df, 0%Z)) columns
  end.

End gaps.

End interpolation.

(** ** src/intervals/exceptions.py: the validation errors and their text *)
Module errors.

(** [sep.join(parts)] *)
Fixpoint join (sep : string) (parts : list string) : string :=
  match parts with
  | [] => ""
  | p :: rest =>
      match rest with
      | [] => p
      | _ => p +:+ sep +:+ join sep rest
      end
  end.

(** [if s:] on an optional string: [None] and the empty string count as
    absent. *)
Definition truthy (s : option string) : option string :=
  match s with
  | Some s => if bool_decide (s = "") then None else Some s
  | None => None
  end.

(** [IntervalsValidationError.__init__]: the text of the exception, which is
    what [str(e)] gives. *)
Definition full_message (message : string) (file_path column details : option string)
    : string :=
  join " | "
    ([message]
     ++ from_option (λ s, ["File: " +:+ s]) [] (truthy file_path)
     ++ from_option (λ s, ["Column: " +:+ s]) [] (truthy column)
     ++ from_option (λ s, ["Details: " +:+ s]) [] (truthy details)).

(** The subclasses of [IntervalsValidationError] other than [TimestampError]
    (which [exceptions.exn] has), with the arguments the validator passes
    to their constructors ([DataGapError] is never given a [row_start]). *)
Inductive IntervalsValidationError : Type :=
| MissingColumnError (columns : list string) (file_path : option string)
    (available_columns : list string)
| InvalidDataTypeError (column expected_type : string) (invalid_values : list string)
    (invalid_count : nat) (file_path : option string)
| SamplingFrequencyError (expected_freq : Z) (detected_freq : float)
    (file_path : option string) (tolerance : float)
| DataGapError (column : string) (gap_size threshold : Z) (file_path : option string)
| FileFormatError (reason : string) (file_path : option string)
    (details : option string).

(** What a call raises: a validation error, or one of [exceptions.exn]. *)
Inductive raised : Type :=
| Validation (e : IntervalsValidationError)
| Other (e : exn).

Inductive outcome (A : Type) : Type :=
| Returns (a : A)
| Raises (e : raised).
Arguments Returns {A} a.
Arguments Raises {A} e.

Section text.

(** Python's formatting of a float with a fixed number of decimals
    ([f"{x:.1f}"]), and [repr] of a list of strings. *)
Context (format_fixed : nat → float → string) (repr_list : list string → string).

(** [TimestampError.__init__] *)
Definition timestamp_message (error_type column : string) : string :=
  if decide (error_type = "non_monotonic") then
    "Kolumna czasu '" +:+ column +:+ "' nie jest monotoniczna (wartości maleją)"
  else if decide (error_type = "duplicates") then
    "Kolumna czasu '" +:+ column +:+ "' zawiera duplikaty"
  else if decide (error_type = "gaps") then
    "Kolumna czasu '" +:+ column +:+ "' zawiera luki czasowe"
  else if decide (error_type = "negative") then
    "Kolumna czasu '" +:+ column +:+ "' zawiera wartości ujemne"
  else "Błąd w kolumnie czasu '" +:+ column +:+ "'".

(** [str(e)] for a [TimestampError]. *)
Definition str_timestamp_error (error_type column : string) (file_path : option string)
    (details : string) : string :=
  full_message (timestamp_message error_type column) file_path
    (Some column) (Some details).

(** [FileFormatError.__init__] *)
Definition reason_message (reason : string) : string :=
  if decide (reason = "empty_file") then "Plik jest pusty"
  else if decide (reason = "no_header") then "Nie znaleziono nagłówka"
  else if decide (reason = "encoding_error") then "Błąd kodowania pliku"
  else if decide (reason = "parse_error") then "Błąd parsowania CSV"
  else "Nieprawidłowy format pliku".

(** [str(e)] for the validation errors, following each [__init__]. *)
Definition str (e : IntervalsValidationError) : string :=
  match e with
  | MissingColumnError columns file_path available_columns =>
      let message := "Brak wymaganych kolumn: " +:+ join ", " columns in
      let details :=
        if bool_decide (available_columns = []) then None
        else
          Some ("Dostępne kolumny: " +:+ join ", " (take 10 available_columns)
                +:+ (if bool_decide (10 < length available_columns)
                     then " ... (+" +:+ pretty (length available_columns - 10)
                          +:+ " więcej)"
                     else "")) in
      full_message message file_path None details
  | InvalidDataTypeError column expected_type invalid_values invalid_count file_path =>
      let message :=
        "Kolumna '" +:+ column +:+ "' zawiera nieprawidłowe wartości (oczekiwano: "
        +:+ expected_type +:+ ")" in
      let details :=
        if bool_decide (invalid_values ≠ []) then
          Some ("Przykłady: " +:+ repr_list (take 5 invalid_values)
                +:+ (if bool_decide (5 < invalid_count)
                     then " ... (+" +:+ pretty (invalid_count - 5) +:+ " więcej)"
                     else ""))
        else if bool_decide (0 < invalid_count) then
          Some ("Liczba nieprawidłowych wartości: " +:+ pretty invalid_count)
        else None in
      full_message message file_path (Some column) details
  | SamplingFrequencyError expected_freq detected_freq file_path tolerance =>
      full_message
        ("Nieoczekiwana częstotliwość próbkowania: wykryto "
         +:+ format_fixed 1 detected_freq +:+ " Hz, oczekiwano "
         +:+ pretty expected_freq +:+ " Hz")
        file_path None
        (Some ("Tolerancja: ±" +:+ format_fixed 0 (tolerance * 100) +:+ "%"))
  | DataGapError column gap_size threshold file_path =>
      full_message
        ("Zbyt duża luka w danych: " +:+ pretty gap_size +:+ " pustych wierszy (próg: "
         +:+ pretty threshold +:+ ")")
        file_path (Some column) None
  | FileFormatError reason file_path details =>
      full_message (reason_message reason) file_path None details
  end.

End text.
End errors.

(** ** src/intervals/utils.py: the helpers that read files *)
Module io.
Import errors.

(** [Config.HEADER_SCAN_MAX_LINES] *)
Definition HEADER_SCAN_MAX_LINES : Z := 60.

(** [needle in hay] on strings. *)
Fixpoint contains (hay needle : string) : bool :=
  String.prefix needle hay
  || match hay with
     | EmptyString => false
     | String _ hay' => contains hay' needle
     end.

Section header.

(** [str.lower()] *)
Context (lower : string → string).

(** [all(k.lower() in line_lower for k in keywords)] *)
Definition has_keywords (keywords : list string) (line : string) : bool :=
  forallb (λ k, contains (lower line) (lower k)) keywords.

(** The loop over [enumerate(f)], from line [i] on. *)
Fixpoint scan (keywords : list string) (max_lines : Z) (i : nat) (lines : list string)
    : option nat :=
  match lines with
  | [] => None
  | line :: rest =>
      if (max_lines <=? Z.of_nat i)%Z then None
      else if has_keywords keywords line then Some i
      else scan keywords max_lines (S i) rest
  end.

(** [find_header_row]; [open_ path] is the lines of the file, or the text of
    the [OSError] that reading it raises. *)
Definition find_header_row (open_ : string → list string + string) (path : string)
    (keywords : list string) (max_lines : option Z) : outcome (option nat) :=
  let max_lines := default HEADER_SCAN_MAX_LINES max_lines in
  match open_ path with
  | inl lines => Returns (scan keywords max_lines 0 lines)
  | inr e => Raises (Validation (FileFormatError "read_error" (Some path) (Some e)))
  end.

End header.

(** A [dict] with string keys, in insertion order. *)
Definition dict_set {A : Type} (d : list (string * A)) (k : string) (v : A)
    : list (string * A) :=
  if bool_decide (k ∈ d.*1)
  then (λ p, if decide (p.1 = k) then (k, v) else p) <$> d
  else d ++ [(k, v)].

Definition dict_get {A : Type} (d : list (string * A)) (k : string) : option A :=
  match list_find (λ p, p.1 = k) d with
  | Some (_, p) => Some p.2
  | None => None
  end.

(** [read_csvs_parallel]: the reads finish in some order, which
    [as_completed] gives for the paths submitted; the result holds the reads
    that succeeded ([read_func] gives [None] where reading raises), keyed by
    path.  (The number of workers bears on the order only.) *)
Definition read_csvs_parallel {A : Type} (as_completed : list string → list string)
    (paths : list string) (read_func : string → option A) : list (string * A) :=
  if bool_decide (paths = []) then []
  else
    foldl (λ results path,
             match read_func path with
             | Some df => dict_set results path df
             | None => results
             end)
          [] (as_completed paths).

End io.

(** ** src/intervals/interfaces.py: what a loader requires of its columns *)
Module interfaces.

Record LoaderColumnSpec : Type := {
  name : string;
  source_name : string;
  output_name : string;
  dtype : string;
  required : bool;
  fallback : option float
}.

(** Of [LoaderSpec], the two lists of column specifications (the validator
    reads no other field). *)
Record LoaderSpec : Type := {
  required_columns : list LoaderColumnSpec;
  optional_columns : list LoaderColumnSpec
}.

Definition all_columns (spec : LoaderSpec) : list LoaderColumnSpec :=
  required_columns spec ++ optional_columns spec.

End interfaces.

(** ** src/intervals/validators/integrity.py: the checks behind
    [validate_full] *)
Module validator.
Import utils integrity errors interfaces io.

(** What the validator prints, each message by its format and arguments. *)
Inductive notice : Type :=
| TypeWarning (warning : string)
| FrequencyWarning (detected_freq : float) (expected_freq : Z)
| ValidationHeader (gap_threshold : Z)
| ReadingParallel (n_paths : nat)
| FileIssues (source_name path : string)
| Issue (issue : string)
| ReadError (path : string)
| LargeGapsFound
| ValidationOK (gap_threshold : Z).

Inductive ui_call : Type :=
| ui_message (n : notice)
| ui_success (n : notice)
| ui_warning (n : notice)
| ui_error (n : notice)
| ui_separator.

(** A computation that prints and may raise: from the lines printed so far
    to its outcome and the lines printed after it. *)
Definition M (A : Type) : Type := list ui_call → outcome A * list ui_call.

Definition ret {A : Type} (a : A) : M A := λ log, (Returns a, log).

Definition bind {A B : Type} (m : M A) (f : A → M B) : M B :=
  λ log,
    match m log with
    | (Returns a, log') => f a log'
    | (Raises e, log') => (Raises e, log')
    end.

Definition raise {A : Type} (e : raised) : M A := λ log, (Raises e, log).

Definition print (c : ui_call) : M unit := λ log, (Returns tt, log ++ [c]).

(** A call that does not print. *)
Definition lift {A : Type} (r : outcome A) : M A := λ log, (r, log).

(** [try: m except ...: handler]; [handler e] is [None] for an exception the
    [except] clause does not match. *)
Definition try_except {A : Type} (m : M A) (handler : raised → option (M A)) : M A :=
  λ log,
    match m log with
    | (Raises e, log') =>
        match handler e with
        | Some h => h log'
        | None => (Raises e, log')
        end
    | r => r
    end.

(** [for x in l: s = body(s, x)] *)
Definition for_each {A S : Type} (l : list A) (body : S → A → M S) (init : S) : M S :=
  foldl (λ m x, bind m (λ s, body s x)) (ret init) l.

Notation "'let!' x ':=' m 'in' k" := (bind m (λ x, k))
  (at level 10, x pattern, m at level 100, k at level 200, only parsing).

(** [validate_columns]: nothing is returned; a missing required column
    raises. *)
Definition validate_columns {V : Type} (self : IntegrityValidator) (df : DataFrame V)
    (required_columns : list string) (file_path : option string) : outcome unit :=
  let missing := filter (λ col, col ∉ columns df) required_columns in
  if bool_decide (missing ≠ []) then
    Raises (Validation (MissingColumnError missing file_path (columns df)))
  else Returns tt.

(** The body of [for col in cols_to_check] in [validate_data_gaps]; the
    state is [warnings], or the exception raised. *)
Definition gap_step {V : Type} (self : IntegrityValidator) (df : DataFrame V)
    (file_path : option string) (acc : outcome (list string)) (col : string)
    : outcome (list string) :=
  match acc with
  | Raises e => Raises e
  | Returns warnings =>
      match get_col df col with
      | None => Returns warnings
      | Some series =>
          let max_gap :=
            check_consecutive_nans_optimized series (Some (gap_threshold self)) in
          if (gap_threshold self <=? max_gap)%Z then
            if fail_fast self then
              Raises (Validation (DataGapError col max_gap (gap_threshold self)
                                    file_path))
            else Returns (warnings ++ [gap_issue col max_gap])
          else Returns warnings
      end
  end.

(** [validate_data_gaps] *)
Definition validate_data_gaps {V : Type} (self : IntegrityValidator) (df : DataFrame V)
    (columns : option (list string)) (file_path : option string)
    : outcome (list string) :=
  let cols_to_check :=
    match columns with
    | Some (c :: cols) => c :: cols
    | _ => Frame.columns df
    end in
  foldl (gap_step self df file_path) (Returns []) cols_to_check.

Section numeric.

(** [pd.to_numeric] on a string, and Python's formatting of a float with a
    fixed number of decimals. *)
Context (parse_number : string → option float).
Context (format_fixed : nat → float → string).

(** [Series.notna()] on a cell of a table of floats. *)
Definition notna (c : cell float) : bool :=
  match c with
  | NaN => false
  | Num v => negb (is_nan v)
  | Str _ => true
  end.

(** [numeric_values.isna() & df[col].notna()]: the cell holds something that
    is not a number. *)
Definition invalid (c : cell float) : bool :=
  is_nan (to_numeric_coerce parse_number c) && notna c.

(** [[str(v) for v in invalid_samples]]: the invalid cells are strings. *)
Definition invalid_samples (series : Series float) : list string :=
  take 5 (omap (λ c, match c with Str s => Some s | _ => None end)
               (filter (λ c, invalid c = true) series)).

(** [invalid_count / len(df) * 100] *)
Definition invalid_pct (invalid_count n_rows : nat) : float :=
  (float64.of_Z (Z.of_nat invalid_count) / float64.of_Z (Z.of_nat n_rows) * 100)%float.

Definition type_warning (col : string) (invalid_count : nat) (pct : float) : string :=
  "Kolumna '" +:+ col +:+ "': " +:+ pretty invalid_count
    +:+ " wartości nienumerycznych (" +:+ format_fixed 1 pct
    +:+ "%) - zostaną zamienione na NaN".

(** The body of [for col in numeric_columns] in [validate_numeric_columns];
    the state is [warnings]. *)
Definition numeric_step (self : IntegrityValidator) (df : DataFrame float)
    (file_path : option string) (warnings : list string) (col : string)
    : M (list string) :=
  match get_col df col with
  | None => ret warnings
  | Some series =>
      let invalid_count := count_true (invalid <$> series) in
      if bool_decide (0 < invalid_count) then
        let pct := invalid_pct invalid_count (nrows df) in
        if (50 <? pct)%float then
          (* More than 50% invalid = error *)
          raise (Validation (InvalidDataTypeError col "numeric"
                               (invalid_samples series) invalid_count file_path))
        else
          (* Less than 50% = warning *)
          let warning := type_warning col invalid_count pct in
          let! _ := print (ui_warning (TypeWarning warning)) in
          ret (warnings ++ [warning])
      else ret warnings
  end.

(** [validate_numeric_columns] *)
Definition validate_numeric_columns (self : IntegrityValidator) (df : DataFrame float)
    (numeric_columns : list string) (file_path : option string) : M (list string) :=
  for_each numeric_columns (numeric_step self df file_path) [].

(** [validate_sampling_frequency] *)
Definition validate_sampling_frequency (self : IntegrityValidator) (df : DataFrame float)
    (time_column : string) (expected_freq : Z) (tolerance : float)
    (file_path : option string) : M (option float) :=
  match get_col df time_column with
  | None => ret None
  | Some series =>
      if bool_decide (nrows df < 2) then ret None
      else
        let time_series := to_numeric_coerce parse_number <$> series in
        let time_diff := float64.dropna (float64.diff time_series) in
        if bool_decide (length time_diff = 0) then ret None
        else
          let median_diff := float64.median time_diff in
          if (median_diff <=? 0)%float then ret None
          else
            let detected_freq := (1 / median_diff)%float in
            (* Check if within tolerance *)
            let lower_bound := (float64.of_Z expected_freq * (1 - tolerance))%float in
            let upper_bound := (float64.of_Z expected_freq * (1 + tolerance))%float in
            if negb ((lower_bound <=? detected_freq)%float
                     && (detected_freq <=? upper_bound)%float) then
              if fail_fast self then
                raise (Validation (SamplingFrequencyError expected_freq detected_freq
                                     file_path tolerance))
              else
                let! _ := print (ui_warning (FrequencyWarning detected_freq expected_freq)) in
                ret (Some detected_freq)
            else ret (Some detected_freq)
  end.

(** [repr] of a list of strings, for the text of an [InvalidDataTypeError]. *)
Context (repr_list : list string → string).

(** The time column [validate_full] checks when none is given: the first
    candidate that is a column. *)
Definition detect_time_column (df : DataFrame float) : option string :=
  head (filter (λ candidate, candidate ∈ columns df)
          ["secs"; "Timestamp (seconds passed)"; "time"; "second"]).

(** [validate_full], step 2: the checks against the loader's
    specification.  Each step gives the [errors] and the [warnings] so
    far. *)
Definition check_spec (self : IntegrityValidator) (df : DataFrame float)
    (file_str : option string) (spec : LoaderSpec) : M (list string * list string) :=
  let required_cols := source_name <$> required_columns spec in
  let! errors :=
    try_except
      (let! _ := lift (validate_columns self df required_cols file_str) in
       ret [])
      (λ e, match e with
            | Validation (MissingColumnError _ _ _ as e') =>
                Some (if fail_fast self then raise e
                      else ret [str format_fixed repr_list e'])
            | _ => None
            end) in
  (* Check optional columns (warning only) *)
  let optional_cols := source_name <$> optional_columns spec in
  let missing_optional := filter (λ c, c ∉ columns df) optional_cols in
  let warnings :=
    if bool_decide (missing_optional ≠ []) then
      ["Brak opcjonalnych kolumn: " +:+ join ", " missing_optional]
    else [] in
  (* Validate numeric columns *)
  let numeric_cols :=
    source_name <$>
      filter (λ c, dtype c = "int64" ∨ dtype c = "float64") (all_columns spec) in
  let numeric_cols := filter (λ c, c ∈ columns df) numeric_cols in
  try_except
    (let! type_warnings := validate_numeric_columns self df numeric_cols file_str in
     ret (errors, warnings ++ type_warnings))
    (λ e, match e with
          | Validation (InvalidDataTypeError _ _ _ _ _ as e') =>
              Some (if fail_fast self then raise e
                    else ret (errors ++ [str format_fixed repr_list e'], warnings))
          | _ => None
          end).

(** Step 3: the timestamps, of the column given or detected. *)
Definition check_timestamps (self : IntegrityValidator) (df : DataFrame float)
    (file_str time_column : option string) (errors warnings : list string)
    : M (list string * list string) :=
  let time_col :=
    match truthy time_column with
    | Some c => Some c
    | None => detect_time_column df
    end in
  match truthy time_col with
  | None => ret (errors, warnings)
  | Some time_col =>
      match validate_timestamps parse_number self df time_col file_str
              true true true with
      | Ok ts_warnings => ret (errors, warnings ++ ts_warnings)
      | Raise (TimestampError error_type column path details as e) =>
          if fail_fast self then raise (Other e)
          else ret (errors ++ [str_timestamp_error error_type column path details],
                    warnings)
      | Raise e => raise (Other e)
      end
  end.

(** Step 4: the data gaps. *)
Definition check_gaps (self : IntegrityValidator) (df : DataFrame float)
    (file_str : option string) (errors warnings : list string)
    : M (list string * list string) :=
  try_except
    (let! gap_warnings := lift (validate_data_gaps self df None file_str) in
     ret (errors, warnings ++ gap_warnings))
    (λ e, match e with
          | Validation (DataGapError _ _ _ _ as e') =>
              Some (if fail_fast self then raise e
                    else ret (errors ++ [str format_fixed repr_list e'], warnings))
          | _ => None
          end).

(** The end of [validate_full]: the verdict, and the warnings promoted in
    strict mode. *)
Definition verdict (self : IntegrityValidator) (errors warnings : list string)
    : bool * list string * list string :=
  let is_valid := bool_decide (errors = []) in
  if strict_mode self && bool_decide (warnings ≠ []) then
    (false, errors ++ warnings, warnings)
  else (is_valid, errors, warnings).

(** [validate_full] *)
Definition validate_full (self : IntegrityValidator) (df : DataFrame float)
    (file_path : option string) (loader_spec : option LoaderSpec)
    (time_column : option string) : M (bool * list string * list string) :=
  let file_str := truthy file_path in
  (* 1. Check for empty DataFrame *)
  if bool_decide (nrows df = 0) then
    if fail_fast self then
      raise (Validation (FileFormatError "empty_file" file_str None))
    else ret (false, ["Plik jest pusty"], [])
  else
    (* 2. Validate required columns (if spec provided) *)
    let! (errors, warnings) :=
      match loader_spec with
      | Some spec => check_spec self df file_str spec
      | None => ret ([], [])
      end in
    (* 3. Validate timestamps *)
    let! (errors, warnings) := check_timestamps self df file_str time_column
                                 errors warnings in
    (* 4. Validate data gaps *)
    let! (errors, warnings) := check_gaps self df file_str errors warnings in
    ret (verdict self errors warnings).

End numeric.

(** [validate_files]; [read_func path] is [None] where reading raises.
    The state of either loop is [issues_found] and the lines printed. *)
Definition report_issues (source_name path : string) (issues : list string)
    (st : bool * list ui_call) : bool * list ui_call :=
  if bool_decide (issues ≠ []) then
    (true, st.2 ++ [ui_message (FileIssues source_name path)]
                ++ ((λ issue, ui_warning (Issue issue)) <$> issues))
  else st.

Definition validate_files {V : Type} (as_completed : list string → list string)
    (self : IntegrityValidator) (files : list (string * string))
    (read_func : string → option (DataFrame V)) (parallel : bool)
    : bool * list ui_call :=
  let log := [ui_message (ValidationHeader (gap_threshold self)); ui_separator] in
  let '(issues_found, log) :=
    if parallel && bool_decide (1 < length files) then
      let paths := files.*1 in
      let path_to_source := foldl (λ d f, dict_set d f.1 f.2) [] files in
      let log := log ++ [ui_message (ReadingParallel (length paths))] in
      let dfs := read_csvs_parallel as_completed paths read_func in
      foldl (λ st '(path, df),
               let source_name := default "" (dict_get path_to_source path) in
               report_issues source_name path (validate self df) st)
            (false, log) dfs
    else
      foldl (λ st '(file_path, source_name),
               match read_func file_path with
               | None => (st.1, st.2 ++ [ui_error (ReadError file_path)])
               | Some df => report_issues source_name file_path (validate self df) st
               end)
            (false, log) files in
  if issues_found then (false, log ++ [ui_warning LargeGapsFound])
  else (true, log ++ [ui_success (ValidationOK (gap_threshold self))]).

End validator.

(** ** src/quick_merge.py: the stand-alone script *)
Module quick_merge.
Import merger.

(** The script's own [find_header_row]: a file that cannot be read has no
    header. *)
Definition find_header_row (lower : string → string)
    (open_ : string → list string + string) (path : string)
    (keywords : list string) (max_lines : option Z) : option nat :=
  let max_lines := default 60%Z max_lines in
  match open_ path with
  | inl lines => io.scan lower keywords max_lines 0 lines
  | inr _ => None
  end.

(** What [merge_dataframes] prints. *)
Inductive line : Type :=
| Merging (n_frames : nat)
| Trimmed (n_rows : nat)
| NoCompleteRows.

Section merge.
Context {V : Type}.

(** One iteration of [for df in other_dfs]; the state is [all_dfs] and
    [seen_columns]. *)
Definition merge_step (st : list (DataFrame V) * gset string) (df : DataFrame V)
    : list (DataFrame V) * gset string :=
  if empty df then st
  else
    let df_reset := df in
    let duplicates := filter (λ col, col ∈ st.2) (columns df_reset) in
    let df_reset :=
      if bool_decide (duplicates ≠ []) then drop_columns duplicates df_reset
      else df_reset in
    if empty df_reset || bool_decide (length (columns df_reset) = 0) then st
    else (st.1 ++ [df_reset], st.2 ∪ list_to_set (columns df_reset)).

(** [df_merged.notna().all(axis=1)] at row [i]. *)
Definition all_notna (df : DataFrame V) (i : nat) : bool :=
  forallb (λ p, match p.2 !! i with
                | Some c => negb (isna c)
                | None => false
                end) df.

Definition merge_dataframes (base_df : DataFrame V) (other_dfs : list (DataFrame V))
    : DataFrame V * list line :=
  if empty base_df then ([], [])
  else
    let st := foldl merge_step ([base_df], list_to_set (columns base_df)) other_dfs in
    let all_dfs := st.1 in
    let df_merged := concat_axis1 all_dfs in
    let valid_positions :=
      filter (λ i, all_notna df_merged i = true) (seq 0 (nrows df_merged)) in
    match last valid_positions with
    | Some last_valid_pos =>
        let df_merged := prod_map id (take (last_valid_pos + 1)) <$> df_merged in
        (df_merged, [Merging (length all_dfs); Trimmed (nrows df_merged)])
    | None => (df_merged, [Merging (length all_dfs); NoCompleteRows])
    end.

End merge.
End quick_merge.

(** * Vocabulary of the statements

    Notions the theorems are stated with: what one step of a loop
    contributes, the column-wise form of the trims, runs of missing values,
    and the concrete tables of the examples. *)
Import utils integrity merger.

Section gap_vocabulary.
Context {V : Type}.

(** What one column contributes to the issue list of [validate]. *)
Definition column_issues (self : IntegrityValidator) (col : string)
    (series : Series V) : list string :=
  let max_gap := check_consecutive_nans_optimized series (Some (gap_threshold self)) in
  if (gap_threshold self <=? max_gap)%Z then [gap_issue col max_gap] else [].

End gap_vocabulary.

Section merge_vocabulary.
Context {V : Type}.

(** The columns of a source that are not seen yet. *)
Definition new_columns (seen : gset string) (df : DataFrame V) : DataFrame V :=
  filter (λ p, p.1 ∉ seen) df.

(** What a clean file adds to the batch: nothing when reading fails or when
    no new column (or no row) is left, otherwise its new columns. *)
Definition contribution (fs : string → option (DataFrame V)) (seen : gset string)
    (clean_path : string) : list (DataFrame V) :=
  match fs clean_path with
  | Some df_new =>
      let d := new_columns seen df_new in
      if empty d || bool_decide (length (columns d) = 0) then [] else [d]
  | None => []
  end.

(** The frames kept by the batch loop after the base: each holds only
    columns whose label was not seen (so none of the base's), and is the new
    columns of some clean file that was read. *)
Definition kept_frame (fs : string → option (DataFrame V)) (base : DataFrame V)
    (files : list string) (d : DataFrame V) : Prop :=
  (∀ c, c ∈ columns d → c ∉ columns base) ∧
  ∃ clean_path df_new seen,
    clean_path ∈ files ∧ fs clean_path = Some df_new ∧ d = new_columns seen df_new.

(** The effect of the confirmed head trim on one column: a time column is
    kept, any other column is shifted up by [k] rows. *)
Definition head_shifted (k : nat) (p : string * Series V) : string * Series V :=
  (p.1, if is_time_column p.1 then p.2 else shift_up k p.2).

(** Both trims act column by column, by a function that depends on the table
    only through its complete rows (and its row count). *)
Definition head_col (ui : UserInterface) (ci : list nat) (p : string * Series V)
    : string * Series V :=
  match ci with
  | [] => p
  | k :: _ =>
      if bool_decide (k = 0) then p
      else if negb (ask_yes_no ui k) then p
      else head_shifted k p
  end.

Definition tail_col (total_rows : nat) (ci : list nat) (p : string * Series V)
    : string * Series V :=
  match last ci with
  | None => p
  | Some l =>
      if bool_decide (total_rows - (l + 1) = 0) then p
      else prod_map id (take (l + 1)) p
  end.

(** The two trims of [merge_files], as it applies them to the merged table. *)
Definition trims (ui : UserInterface) (validate_head validate_tail : bool)
    (df : DataFrame V) : DataFrame V :=
  let d := if validate_head then (_validate_and_trim_head ui df).1 else df in
  if validate_tail then (_validate_and_trim_tail d).1 else d.

(** Two tables that differ by the order of two blocks of columns with
    disjoint labels. *)
Definition swapped (d1 d2 : DataFrame V) : Prop :=
  ∃ X A B, d1 = X ++ A ++ B ∧ d2 = X ++ B ++ A ∧
           ∀ c, c ∈ columns A → c ∉ columns B.

(** Every column of the table has as many cells as the table has rows. *)
Definition rectangular (df : DataFrame V) : Prop :=
  ∀ c s, (c, s) ∈ df → length s = nrows df.

(** A clean file that cannot be read, or whose columns are all in the base
    already. *)
Definition adds_nothing (fs : string → option (DataFrame V)) (base : DataFrame V)
    (clean_path : string) : Prop :=
  fs clean_path = None ∨
  ∃ d, fs clean_path = Some d ∧ ∀ c, c ∈ columns d → c ∈ columns base.

(** No cell of the table is a string of white space only. *)
Definition no_blank (df : DataFrame V) : Prop :=
  ∀ c s x, (c, s) ∈ df → Str x ∈ s → is_blank x = false.

End merge_vocabulary.

Section interpolation_vocabulary.
Import interpolation.

(** The longest run of missing values of a column, and the missing values
    at its start and at its end. *)
Definition longest_nan_run (series : Series QArith_base.Q) : nat :=
  longest_run_from 0 (isna <$> series).

Fixpoint leading_nans (series : Series QArith_base.Q) : nat :=
  match series with
  | NaN :: rest => S (leading_nans rest)
  | _ => 0
  end.

Fixpoint trailing_nans (series : Series QArith_base.Q) : nat :=
  match series with
  | [] => 0
  | c :: rest =>
      if isna c && forallb isna rest then S (length rest) else trailing_nans rest
  end.

Fixpoint leading_true (mask : list bool) : nat :=
  match mask with
  | true :: mask' => S (leading_true mask')
  | _ => 0
  end.

(** The lengths of the runs of [true]. *)
Definition true_lengths (rs : list (bool * nat)) : list nat :=
  (filter (λ r, r.1 = true) rs).*2.

(** The runs, written out. *)
Definition expand (rs : list (bool * nat)) : list bool :=
  mjoin ((λ r, replicate r.2 r.1) <$> rs).

(** One column through the loop body of [interpolate_time_gaps]: skipped
    when nothing is missing. *)
Definition column_step (method : InterpolationMethod) (max_gap : Z)
    (series : Series QArith_base.Q) : result (Series QArith_base.Q) :=
  if bool_decide (nan_count series = 0) then Ok series
  else interpolate_column series method max_gap.

(** Cell by cell, a value that is present is kept (only missing values may
    be replaced); the columns have the same length. *)
Definition keeps_values (series series' : Series QArith_base.Q) : Prop :=
  Forall2 (λ x y, isna x = false → y = x) series series'.

(** The missing values of a table. *)
Definition total_nans (df : DataFrame QArith_base.Q) : nat :=
  sum_list (nan_count <$> df.*2).

(** What the loop of [interpolate_time_gaps] does to a column, after one
    label and after a list of labels: the label stays, present values stay,
    and a column that is not visited stays as it is. *)
Definition step_effect (col : string) (p p' : string * Series QArith_base.Q) : Prop :=
  p'.1 = p.1 ∧ keeps_values p.2 p'.2 ∧ (p.1 ≠ col → p' = p).

Definition fold_effect (cols : list string) (p p' : string * Series QArith_base.Q)
    : Prop :=
  p'.1 = p.1 ∧ keeps_values p.2 p'.2 ∧ (p.1 ∉ cols → p' = p).

End interpolation_vocabulary.

Section validation_vocabulary.
Import interfaces validator.
Context (parse_number : string → option float).
(** More than half of the rows of the table hold something that is not a
    number in this column, by the validator's own arithmetic. *)
Definition mostly_invalid (series : Series float) (n_rows : nat) : bool :=
  let invalid_count := count_true (invalid parse_number <$> series) in
  bool_decide (0 < invalid_count) && (50 <? invalid_pct invalid_count n_rows)%float.

(** What a loader's specification asks of a table: the required columns are
    there, and no numeric column of the specification is mostly invalid. *)
Definition meets (spec : LoaderSpec) (df : DataFrame float) : Prop :=
  (∀ c, c ∈ required_columns spec → source_name c ∈ columns df) ∧
  (∀ c series, c ∈ all_columns spec →
     dtype c = "int64" ∨ dtype c = "float64" →
     get_col df (source_name c) = Some series →
     mostly_invalid series (nrows df) = false).
End validation_vocabulary.

Section numeric_vocabulary.
Import validator.
Context (parse_number : string → option float).
Context (format_fixed : nat → float → string).

(** The warning of [validate_numeric_columns] for a column that has entries
    that are not numbers (and is not mostly invalid). *)
Definition type_issue (df : DataFrame float) (col : string) : list string :=
  match get_col df col with
  | Some series =>
      let invalid_count := count_true (invalid parse_number <$> series) in
      if bool_decide (0 < invalid_count)
      then [type_warning format_fixed col invalid_count
              (invalid_pct invalid_count (nrows df))]
      else []
  | None => []
  end.

End numeric_vocabulary.

(** ** Concrete tables *)

(** A 3-row base, a shorter and a longer clean file, and two clean files that
    both bring a column [smo2]. *)
Definition base_ex : DataFrame Z :=
  [("secs", [Num 0; Num 1; Num 2]%Z); ("watts", [Num 100; Num 150; Num 175]%Z)].

Definition fs_ex (clean_path : string) : option (DataFrame Z) :=
  if decide (clean_path = "short.csv") then
    Some [("watts", [Num 999; Num 999]%Z); ("smo2", [Num 65; Num 64]%Z)]
  else if decide (clean_path = "long.csv") then
    Some [("THb", [Num 12; Num 13; Num 14; Num 15]%Z)]
  else if decide (clean_path = "a.csv") then
    Some [("smo2", [Num 1; Num 1; Num 1]%Z)]
  else if decide (clean_path = "b.csv") then
    Some [("smo2", [Num 2; Num 2; Num 2]%Z)]
  else None.

Definition ui_yes : UserInterface := {| ask_yes_no := λ _, true |}.

#[local] Set Warnings "-inexact-float".

(** The time columns [0, 1, 2, 3, 4, 5] and [0.0, 0.1, ..., 0.9, 1.0]. *)
Definition secs_1hz : DataFrame float :=
  [("secs", [Num 0; Num 1; Num 2; Num 3; Num 4; Num 5]%float)].

Definition secs_10hz : DataFrame float :=
  [("secs", [Num 0.0; Num 0.1; Num 0.2; Num 0.3; Num 0.4; Num 0.5;
             Num 0.6; Num 0.7; Num 0.8; Num 0.9; Num 1.0]%float)].

#[local] Set Warnings "+inexact-float".

Definition q (z : Z) : cell QArith_base.Q := Num (QArith_base.inject_Z z).

(** The example of the docstring of [interpolate_time_gaps]: a gap of 2
    between 100 and 160. *)
Definition watts_gap : DataFrame QArith_base.Q :=
  [("secs", [q 0; q 1; q 2; q 3; q 4]);
   ("watts", [q 100; NaN; NaN; q 160; q 170])].

(** A column that starts with a missing value. *)
Definition watts_late : DataFrame QArith_base.Q :=
  [("secs", [q 0; q 1; q 2]); ("watts", [NaN; q 150; q 160])].

(** A specification that requires [SmO2] as a float and accepts [THb], and a
    table whose [SmO2] has one entry that is not a number and a run of four
    missing values. *)
Definition spec_ex : interfaces.LoaderSpec :=
  {| interfaces.required_columns :=
       [{| interfaces.name := "SmO2"; interfaces.source_name := "SmO2";
           interfaces.output_name := "smo2"; interfaces.dtype := "float64";
           interfaces.required := true; interfaces.fallback := None |}];
     interfaces.optional_columns :=
       [{| interfaces.name := "THb"; interfaces.source_name := "THb";
           interfaces.output_name := "THb"; interfaces.dtype := "float64";
           interfaces.required := false; interfaces.fallback := None |}] |}.

Definition smo2_ex : DataFrame float :=
  [("secs", [Num 0; Num 1; Num 2; Num 3; Num 4; Num 5]%float);
   ("SmO2", [Num 65; Str "n/a"; NaN; NaN; NaN; NaN]%float)].


(** * Theorems *)

(** ** The gap-length algorithm (utils.py) *)
Section utils_theory.
Context {V : Type}.
Implicit Types (mask : list bool) (series : Series V).

Lemma count_of_app x (l1 l2 : list nat) :
  count_of x (l1 ++ l2) = count_of x l1 + count_of x l2.
Proof. unfold count_of. by rewrite filter_app, length_app. Qed.

Lemma count_of_not_elem x (l : list nat) : x ∉ l → count_of x l = 0.
Proof.
  unfold count_of. induction l as [|y l IH]; [done|].
  intros [Hne Hl]%not_elem_of_cons. rewrite filter_cons.
  destruct (decide (y = x)); [congruence | auto].
Qed.

Lemma count_of_le_max x (l : list nat) : count_of x l ≤ value_counts_max l.
Proof.
  destruct (decide (x ∈ l)) as [Hin|Hnin].
  - apply max_list_elem_of_le. unfold value_counts.
    rewrite <- list_fmap_compose. apply list_elem_of_fmap.
    exists x. split; [done|]. by apply elem_of_remove_dups.
  - rewrite count_of_not_elem by done. lia.
Qed.

Lemma value_counts_max_attained (l : list nat) :
  l ≠ [] → ∃ x, x ∈ l ∧ count_of x l = value_counts_max l.
Proof.
  intros Hl. unfold value_counts_max, value_counts.
  rewrite <- list_fmap_compose.
  assert (Hne : (snd ∘ (λ x, (x, count_of x l))) <$> remove_dups l ≠ []).
  { destruct l as [|y l]; [done|].
    intros Heq%fmap_nil_inv.
    assert (y ∈ remove_dups (y :: l)) as Hy by (apply elem_of_remove_dups; left).
    rewrite Heq in Hy. by apply not_elem_of_nil in Hy. }
  apply max_list_elem_of in Hne.
  apply list_elem_of_fmap in Hne as (x & Hx & Hin).
  exists x. split; [by apply elem_of_remove_dups | by rewrite Hx].
Qed.

(** [value_counts_max] is the largest multiplicity: it bounds every count
    and is one of them. *)
Lemma value_counts_max_unique (l : list nat) (m : nat) :
  (∀ x, count_of x l ≤ m) →
  (l = [] ∧ m = 0 ∨ ∃ x, count_of x l = m) →
  value_counts_max l = m.
Proof.
  intros Hub Hex. apply Nat.le_antisymm.
  - destruct (decide (l = [])) as [->|Hne]; [vm_compute; lia|].
    destruct (value_counts_max_attained l Hne) as (x & _ & <-). apply Hub.
  - destruct Hex as [[-> ->]|[x <-]]; [lia | apply count_of_le_max].
Qed.

Lemma value_counts_max_snoc (pre : list nat) (a : nat) :
  value_counts_max (pre ++ [a]) = value_counts_max pre `max` S (count_of a pre).
Proof.
  apply value_counts_max_unique.
  - intros x. rewrite count_of_app. unfold count_of at 2. simpl.
    pose proof (count_of_le_max x pre). pose proof (count_of_le_max a pre).
    rewrite filter_cons, filter_nil.
    destruct (decide (a = x)) as [->|]; simpl; lia.
  - right. destruct (Nat.max_spec (value_counts_max pre) (S (count_of a pre)))
      as [[Hlt ->]|[Hle ->]].
    + exists a. rewrite count_of_app. unfold count_of at 2.
      rewrite filter_cons, filter_nil. rewrite decide_True by done. simpl. lia.
    + destruct (decide (pre = [])) as [->|Hne].
      { unfold count_of in Hle. simpl in Hle. vm_compute in Hle. lia. }
      destruct (value_counts_max_attained pre Hne) as (x & Hx & Hc).
      exists x. rewrite count_of_app, Hc. unfold count_of at 1.
      rewrite filter_cons, filter_nil.
      destruct (decide (a = x)) as [->|]; simpl; lia.
Qed.

Lemma longest_run_from_ge cur mask : cur ≤ longest_run_from cur mask.
Proof.
  revert cur. induction mask as [|[] mask IH]; intros cur; simpl; [lia| |lia].
  specialize (IH (S cur)). lia.
Qed.

(** The run-length encoding by change points computes the longest run: the
    group ids selected at null positions, appended to ids [pre] that are all
    at most [acc], have as largest multiplicity the longest run of the mask
    (the run in progress counted from the occurrences of [acc] in [pre]). *)
Lemma rle_longest_run mask : ∀ (pre : list nat) (prev : option bool) (acc : nat),
  (∀ x, x ∈ pre → x ≤ acc) →
  value_counts_max (pre ++ select (cumsum_from acc (changes_from prev mask)) mask)
  = value_counts_max pre `max`
    longest_run_from (if bool_decide (prev = Some true) then count_of acc pre else 0) mask.
Proof.
  induction mask as [|b mask IH]; intros pre prev acc Hpre.
  - simpl. rewrite app_nil_r. case_bool_decide; [|lia].
    pose proof (count_of_le_max acc pre). lia.
  - destruct b; simpl.
    + (* a null position *)
      case_bool_decide as Hprev; simpl.
      * (* the run continues: same id *)
        rewrite Nat.add_0_r, cons_middle, app_assoc, IH.
        2:{ intros x [Hx| ->%list_elem_of_singleton]%elem_of_app; auto. }
        rewrite bool_decide_true by done.
        rewrite value_counts_max_snoc, count_of_app.
        unfold count_of at 3. rewrite filter_cons, filter_nil, decide_True by done.
        simpl. rewrite Nat.add_1_r.
        pose proof (longest_run_from_ge (S (count_of acc pre)) mask). lia.
      * (* a run starts: fresh id [acc + 1] *)
        rewrite cons_middle, app_assoc, IH.
        2:{ intros x [Hx| ->%list_elem_of_singleton]%elem_of_app; [|lia].
            specialize (Hpre x Hx). lia. }
        rewrite bool_decide_true by done.
        rewrite value_counts_max_snoc, count_of_app.
        assert (count_of (acc + 1) pre = 0) as ->.
        { apply count_of_not_elem. intros Hin. specialize (Hpre _ Hin). lia. }
        unfold count_of at 1. rewrite filter_cons, filter_nil, decide_True by done.
        simpl. pose proof (longest_run_from_ge 1 mask). lia.
    + (* a non-null position: nothing is selected *)
      rewrite IH.
      2:{ intros x Hx. specialize (Hpre x Hx). lia. }
      rewrite (bool_decide_false (Some false = Some true)) by done.
      case_bool_decide as Hprev; [|lia].
      pose proof (count_of_le_max acc pre). lia.
Qed.

Lemma existsb_id_filter mask :
  existsb id mask = false ↔ length (filter (λ b, b = true) mask) = 0.
Proof.
  induction mask as [|[] mask IH]; [done| |].
  - rewrite filter_cons, decide_True by done. simpl. split; [done | lia].
  - rewrite filter_cons, decide_False by done. exact IH.
Qed.

Lemma null_total_mask series :
  length (filter (λ b, b = true) (is_null <$> series)) = null_total series.
Proof.
  unfold null_total. induction series as [|c s IH]; [done|].
  cbn. destruct (is_null c).
  - rewrite !decide_True by done. cbn. by f_equal.
  - rewrite !decide_False by done. done.
Qed.

(** The value of [check_consecutive_nans_optimized], by the null total and
    the longest run of nulls. *)
Lemma check_consecutive_nans_optimized_value series (threshold : option Z) :
  check_consecutive_nans_optimized series threshold =
    let t := default DEFAULT_GAP_THRESHOLD threshold in
    if decide (null_total series = 0) then 0%Z
    else if decide (Z.of_nat (null_total series) < t)%Z
         then Z.of_nat (null_total series)
         else Z.of_nat (longest_null_run series).
Proof.
  unfold check_consecutive_nans_optimized. cbv zeta.
  rewrite null_total_mask.
  destruct (existsb id (is_null <$> series)) eqn:Hany; simpl.
  - assert (null_total series ≠ 0) as Hne.
    { rewrite <- null_total_mask. intros H0%existsb_id_filter. congruence. }
    rewrite decide_False by done.
    destruct (Z.ltb_spec (Z.of_nat (null_total series))
                (default DEFAULT_GAP_THRESHOLD threshold)) as [Hlt|Hge].
    + by rewrite decide_True.
    + rewrite decide_False by lia.
      pose proof (rle_longest_run (is_null <$> series) [] None 0) as Hrle.
      simpl in Hrle. rewrite Hrle by (intros x Hx; by apply not_elem_of_nil in Hx).
      case_bool_decide as Hnil; [|done].
      rewrite Hnil in Hrle. simpl in Hrle.
      unfold longest_null_run. rewrite <- Hrle; [done|].
      intros x Hx; by apply not_elem_of_nil in Hx.
  - apply existsb_id_filter in Hany. rewrite null_total_mask in Hany.
    by rewrite decide_True.
Qed.

(** C3. [check_consecutive_nans_optimized] treats a value as null iff it is
    missing or an empty string; it returns 0 when the column has no nulls,
    the total null count when that total is strictly below the threshold,
    and otherwise the length of the longest run of consecutive nulls. *)
Theorem check_consecutive_nans_optimized_spec series (threshold : option Z) :
  (∀ c : cell V, is_null c = true ↔ c = NaN ∨ c = Str "") ∧
  check_consecutive_nans_optimized series threshold =
    let t := default DEFAULT_GAP_THRESHOLD threshold in
    if decide (null_total series = 0) then 0%Z
    else if decide (Z.of_nat (null_total series) < t)%Z
         then Z.of_nat (null_total series)
         else Z.of_nat (longest_null_run series).
Proof.
  split; [|apply check_consecutive_nans_optimized_value].
  intros [| |s]; simpl.
  - split; [by left | done].
  - split; [done | by intros [?|?]].
  - rewrite bool_decide_eq_true.
    split; [intros ->; by right | by intros [?|[= ->]]].
Qed.

End utils_theory.

(** ** The gap warning of the validator (integrity.py) *)
Section validate_theory.
Context {V : Type}.
Implicit Types (df : DataFrame V) (series pre nulls post : Series V).

Lemma get_col_app_l df df' c :
  c ∈ columns df → get_col (df ++ df') c = get_col df c.
Proof.
  induction df as [|[c' s] df IH]; simpl.
  - by intros ?%elem_of_nil.
  - intros Hin. destruct (decide (c' = c)); [done|].
    apply IH. apply elem_of_cons in Hin as [->|]; done.
Qed.

Lemma get_col_app_r df df' c :
  c ∉ columns df → get_col (df ++ df') c = get_col df' c.
Proof.
  induction df as [|[c' s] df IH]; simpl; [done|].
  intros [Hne Hnin]%not_elem_of_cons.
  destruct (decide (c' = c)); [congruence | auto].
Qed.

Lemma validate_columns_of self df (cols : list string) (acc : list string) :
  foldl (λ issues col,
           match get_col df col with
           | Some series =>
               let max_gap :=
                 check_consecutive_nans_optimized series (Some (gap_threshold self)) in
               if (gap_threshold self <=? max_gap)%Z
               then issues ++ [gap_issue col max_gap]
               else issues
           | None => issues
           end) acc cols
  = acc ++ mjoin ((λ col, from_option (column_issues self col) [] (get_col df col)) <$> cols).
Proof.
  revert acc. induction cols as [|col cols IH]; intros acc; simpl.
  - by rewrite app_nil_r.
  - rewrite IH. unfold column_issues.
    destruct (get_col df col) as [series|]; simpl; [|done].
    destruct (gap_threshold self <=? _)%Z; simpl; [|done].
    by rewrite <- app_assoc.
Qed.

Lemma validate_flat self df :
  validate self df
  = mjoin ((λ col, from_option (column_issues self col) [] (get_col df col)) <$> columns df).
Proof. unfold validate. by rewrite validate_columns_of. Qed.

(** With distinct labels, [validate] is the concatenation of the columns'
    contributions. *)
Lemma validate_app_cons self df1 c series df2 :
  NoDup (columns (df1 ++ (c, series) :: df2)) →
  validate self (df1 ++ (c, series) :: df2)
  = validate self df1 ++ column_issues self c series ++ validate self df2.
Proof.
  intros Hnd. rewrite !validate_flat. unfold columns in *.
  rewrite fmap_app, fmap_cons in *. simpl in *.
  apply NoDup_app in Hnd as (Hnd1 & Hdisj & Hnd2).
  apply NoDup_cons in Hnd2 as [Hc Hnd2].
  rewrite fmap_app, fmap_cons, join_app. simpl. f_equal; [|f_equal].
  - f_equal. apply list_fmap_ext. intros _ col Hcol%list_elem_of_lookup_2.
    by rewrite get_col_app_l.
  - rewrite get_col_app_r by (intros Hin; by apply (Hdisj c Hin); left).
    simpl. by rewrite decide_True.
  - f_equal. apply list_fmap_ext. intros _ col Hcol%list_elem_of_lookup_2.
    rewrite get_col_app_r by (intros Hin; by apply (Hdisj col Hin); right).
    simpl. rewrite decide_False; [done|]. intros ->. done.
Qed.

Lemma longest_run_from_not_null cur pre (mask : list bool) :
  Forall (λ c, is_null c = false) pre →
  longest_run_from cur ((is_null <$> pre) ++ mask)
  = if decide (pre = []) then longest_run_from cur mask
    else cur `max` longest_run_from 0 mask.
Proof.
  intros Hpre. revert cur. induction Hpre as [|c pre Hc Hpre IH]; intros cur; [done|].
  rewrite fmap_cons, Hc. simpl. rewrite IH.
  simpl. by repeat case_match.
Qed.

Lemma longest_run_from_null cur nulls (mask : list bool) :
  Forall (λ c, is_null c = true) nulls →
  longest_run_from cur ((is_null <$> nulls) ++ mask)
  = longest_run_from (cur + length nulls) mask.
Proof.
  intros Hn. revert cur. induction Hn as [|c nulls Hc Hn IH]; intros cur.
  - simpl. by rewrite Nat.add_0_r.
  - rewrite fmap_cons, Hc. simpl. rewrite IH. f_equal. lia.
Qed.

(** A single run of nulls between null-free stretches: its length is both
    the null total and the longest run. *)
Lemma single_run_longest pre nulls post :
  Forall (λ c, is_null c = false) pre →
  Forall (λ c, is_null c = true) nulls →
  Forall (λ c, is_null c = false) post →
  longest_null_run (pre ++ nulls ++ post) = length nulls.
Proof.
  intros Hpre Hn Hpost. unfold longest_null_run.
  rewrite !fmap_app, longest_run_from_not_null by done.
  assert (longest_run_from 0 ((is_null <$> nulls) ++ (is_null <$> post)) = length nulls)
    as Hrun.
  { rewrite longest_run_from_null by done. simpl.
    rewrite <- (app_nil_r (is_null <$> post)), longest_run_from_not_null by done.
    destruct (decide (post = [])); simpl; lia. }
  destruct (decide (pre = [])); rewrite Hrun; lia.
Qed.

Lemma null_total_app series1 series2 :
  null_total (series1 ++ series2) = null_total series1 + null_total series2.
Proof. unfold null_total. by rewrite filter_app, length_app. Qed.

Lemma null_total_not_null pre :
  Forall (λ c, is_null c = false) pre → null_total pre = 0.
Proof.
  unfold null_total. induction 1 as [|c pre Hc Hpre IH]; [done|].
  cbn. rewrite decide_False by congruence. done.
Qed.

Lemma null_total_null nulls :
  Forall (λ c, is_null c = true) nulls → null_total nulls = length nulls.
Proof.
  unfold null_total. induction 1 as [|c pre Hc Hpre IH]; [done|].
  cbn. rewrite decide_True by done. cbn. by f_equal.
Qed.

Lemma single_run_total pre nulls post :
  Forall (λ c, is_null c = false) pre →
  Forall (λ c, is_null c = true) nulls →
  Forall (λ c, is_null c = false) post →
  null_total (pre ++ nulls ++ post) = length nulls.
Proof.
  intros Hpre Hn Hpost.
  rewrite !null_total_app, (null_total_not_null pre), (null_total_not_null post),
    (null_total_null nulls) by done.
  lia.
Qed.

(** C4. Gap detector boundary: for a threshold [t] (at least 1), a column
    made of a single run of [t - 1] nulls between null-free stretches adds no
    warning to the issues of [validate]; a single run of exactly [t] nulls
    adds exactly one warning, which names the column and the run length [t]. *)
Theorem validate_gap_boundary (self : IntegrityValidator) (t : nat)
    df1 df2 (c : string) pre nulls post :
  gap_threshold self = Z.of_nat t →
  1 ≤ t →
  NoDup (columns (df1 ++ (c, pre ++ nulls ++ post) :: df2)) →
  Forall (λ x, is_null x = false) pre →
  Forall (λ x, is_null x = true) nulls →
  Forall (λ x, is_null x = false) post →
  (length nulls = t - 1 →
     validate self (df1 ++ (c, pre ++ nulls ++ post) :: df2)
     = validate self df1 ++ validate self df2) ∧
  (length nulls = t →
     validate self (df1 ++ (c, pre ++ nulls ++ post) :: df2)
     = validate self df1 ++ [gap_issue c (Z.of_nat t)] ++ validate self df2).
Proof.
  intros Ht Hpos Hnd Hpre Hn Hpost.
  rewrite validate_app_cons by done.
  unfold column_issues.
  rewrite check_consecutive_nans_optimized_value.
  cbv zeta. simpl default.
  rewrite single_run_total, single_run_longest by done. rewrite Ht.
  split; intros Hlen; rewrite Hlen.
  - destruct (decide (t - 1 = 0)) as [H0|H0].
    + destruct (Z.leb_spec (Z.of_nat t) 0); [lia | done].
    + rewrite decide_True by lia.
      destruct (Z.leb_spec (Z.of_nat t) (Z.of_nat (t - 1))); [lia | done].
  - rewrite decide_False by lia. rewrite decide_False by lia.
    destruct (Z.leb_spec (Z.of_nat t) (Z.of_nat t)); [done | lia].
Qed.

End validate_theory.

(** The threshold 3 of the repository's tests: two consecutive nulls give no
    warning, three give the one warning. *)
Lemma validate_gap_boundary_witness :
  validate (new_validator (Some 3%Z) false false)
    [("secs", [Num 0%Z; Num 1%Z; Num 2%Z; Num 3%Z; Num 4%Z]);
     ("smo2", [Num 65%Z; NaN; NaN; Num 63%Z; Num 62%Z])] = [] ∧
  validate (new_validator (Some 3%Z) false false)
    [("secs", [Num 0%Z; Num 1%Z; Num 2%Z; Num 3%Z; Num 4%Z]);
     ("smo2", [Num 65%Z; NaN; Str ""; NaN; Num 62%Z])]
  = ["Kolumna 'smo2': 3 pustych wierszy z rzędu"].
Proof.
  split.
  - apply (proj1 (validate_gap_boundary (V:=Z) (new_validator (Some 3%Z) false false) 3
             [("secs", [Num 0%Z; Num 1%Z; Num 2%Z; Num 3%Z; Num 4%Z])] []
             "smo2" [Num 65%Z] [NaN; NaN] [Num 63%Z; Num 62%Z]
             eq_refl ltac:(lia) ltac:(compute_done) ltac:(compute_done)
             ltac:(compute_done) ltac:(compute_done))).
    reflexivity.
  - apply (proj2 (validate_gap_boundary (V:=Z) (new_validator (Some 3%Z) false false) 3
             [("secs", [Num 0%Z; Num 1%Z; Num 2%Z; Num 3%Z; Num 4%Z])] []
             "smo2" [Num 65%Z] [NaN; Str ""; NaN] [Num 62%Z]
             eq_refl ltac:(lia) ltac:(compute_done) ltac:(compute_done)
             ltac:(compute_done) ltac:(compute_done))).
    reflexivity.
Defined.

(** ** The merge engine (merger.py) *)
Section merger_theory.
Context {V : Type}.
Implicit Types (df base d : DataFrame V) (st : batch (V:=V)) (seen : gset string).
Implicit Types (ui : UserInterface).
Implicit Types (fs : string → option (DataFrame V)) (files : list string).

Lemma drop_duplicates_new seen df (cols : list string) :
  (∀ p, p ∈ df → p.1 ∈ cols) →
  drop_columns (filter (λ col, col ∈ seen) cols) df = new_columns seen df.
Proof.
  unfold drop_columns, new_columns.
  induction df as [|p df IH]; intros Hcols; [done|].
  rewrite !filter_cons, IH by (intros q Hq; apply Hcols; by right).
  assert (p.1 ∈ cols) as Hp by (apply Hcols; by left).
  destruct (decide (p.1 ∈ seen)) as [Hs|Hs].
  - rewrite decide_False, decide_False; [done|by intros ?|].
    intros Hn. apply Hn. by apply list_elem_of_filter.
  - rewrite decide_True, decide_True; [done|done|].
    by intros [? _]%list_elem_of_filter.
Qed.

Lemma drop_no_columns df : drop_columns [] df = df.
Proof.
  unfold drop_columns. induction df as [|p df IH]; [done|].
  rewrite filter_cons, decide_True, IH; [done|]. by intros ?%elem_of_nil.
Qed.

Lemma merge_step_frames fs st (clean_path : string) :
  all_dfs (merge_step fs st clean_path)
  = all_dfs st ++ contribution fs (seen_columns st) clean_path ∧
  seen_columns (merge_step fs st clean_path)
  = seen_columns st
    ∪ list_to_set (columns (mjoin (contribution fs (seen_columns st) clean_path))).
Proof.
  unfold merge_step, contribution.
  destruct (fs clean_path) as [df_new|]; simpl.
  2:{ rewrite app_nil_r. split; [done|]. by rewrite (right_id_L ∅ (∪)). }
  set (dups := filter (λ col, col ∈ seen_columns st) (columns df_new)).
  assert ((if bool_decide (dups ≠ []) then drop_columns dups df_new else df_new)
          = new_columns (seen_columns st) df_new) as ->.
  { rewrite <- (drop_duplicates_new _ _ (columns df_new)).
    2:{ intros p Hp. by apply list_elem_of_fmap_2. }
    fold dups. case_bool_decide as Hd; [done|].
    by rewrite Hd, drop_no_columns. }
  destruct (empty _ || bool_decide _); simpl.
  - rewrite app_nil_r. split; [done|]. by rewrite (right_id_L ∅ (∪)).
  - by rewrite app_nil_r.
Qed.

Lemma new_columns_fresh seen df c :
  c ∈ columns (new_columns seen df) → (c ∉ seen) ∧ c ∈ columns df.
Proof.
  unfold columns, new_columns.
  intros ([c' s] & -> & [Hs Hin]%list_elem_of_filter)%list_elem_of_fmap.
  split; [done|]. by apply (list_elem_of_fmap_2 fst) in Hin.
Qed.

Lemma merge_foldl_invariant fs base files (todo : list string) st :
  (∀ p, p ∈ todo → p ∈ files) →
  (∀ c, c ∈ columns base → c ∈ seen_columns st) →
  (∃ kept, all_dfs st = base :: kept ∧ Forall (kept_frame fs base files) kept) →
  ∃ kept, all_dfs (foldl (merge_step fs) st todo) = base :: kept ∧
          Forall (kept_frame fs base files) kept.
Proof.
  revert st. induction todo as [|p todo IH]; intros st Hsub Hseen Hinv; [done|].
  simpl. destruct (merge_step_frames fs st p) as [Hdfs Hs].
  apply IH.
  - intros q Hq. apply Hsub. by right.
  - intros c Hc. rewrite Hs. apply elem_of_union_l. by apply Hseen.
  - destruct Hinv as (kept & Hk & Hall). rewrite Hdfs, Hk.
    exists (kept ++ contribution fs (seen_columns st) p). split; [done|].
    apply Forall_app. split; [done|].
    unfold contribution. destruct (fs p) as [df_new|] eqn:Hfs; [|done].
    destruct (empty _ || bool_decide _); [done|].
    apply Forall_singleton. split.
    + intros c [Hc _]%new_columns_fresh Hb. apply Hc. by apply Hseen.
    + exists p, df_new, (seen_columns st). split; [|done]. apply Hsub. by left.
Qed.

Lemma merge_batch_frames fs base files :
  ∃ kept, all_dfs (merge_batch fs base files) = base :: kept ∧
          Forall (kept_frame fs base files) kept.
Proof.
  apply merge_foldl_invariant; simpl.
  - done.
  - intros c Hc. by apply elem_of_list_to_set.
  - by exists [].
Qed.

(** Row counts and lookups of [concat_axis1]. *)
Lemma max_list_app (l1 l2 : list nat) :
  max_list (l1 ++ l2) = max_list l1 `max` max_list l2.
Proof. induction l1 as [|x l1 IH]; simpl; [done|]. rewrite IH. lia. Qed.

Lemma nrows_app df1 df2 : nrows (df1 ++ df2) = nrows df1 `max` nrows df2.
Proof. unfold nrows. by rewrite !fmap_app, max_list_app. Qed.

Lemma nrows_join (dfs : list (DataFrame V)) :
  max_list (nrows <$> dfs) = nrows (mjoin dfs).
Proof.
  induction dfs as [|df dfs IH]; [done|].
  change (nrows df `max` max_list (nrows <$> dfs) = nrows (df ++ mjoin dfs)).
  by rewrite nrows_app, IH.
Qed.

Lemma length_le_nrows df c (s : Series V) : (c, s) ∈ df → length s ≤ nrows df.
Proof.
  intros Hin. unfold nrows. apply max_list_elem_of_le.
  apply list_elem_of_fmap. exists s. split; [done|].
  apply list_elem_of_fmap. by exists (c, s).
Qed.

Lemma length_pad n (s : Series V) : length (pad n s) = n `max` length s.
Proof. unfold pad. rewrite length_app, length_replicate. lia. Qed.

Lemma nrows_pad n df :
  (∀ c s, (c, s) ∈ df → length s ≤ n) → df ≠ [] →
  nrows (prod_map id (pad n) <$> df) = n.
Proof.
  intros Hle Hne. unfold nrows.
  induction df as [|[c s] df IH]; [done|].
  rewrite !fmap_cons. simpl. rewrite length_pad.
  assert (length s ≤ n) by (apply (Hle c); by left).
  destruct df as [|p df].
  - simpl. lia.
  - rewrite IH; [lia| |done]. intros c' s' Hin. apply (Hle c'). by right.
Qed.

Lemma nrows_concat (dfs : list (DataFrame V)) :
  nrows (concat_axis1 dfs) = max_list (nrows <$> dfs).
Proof.
  unfold concat_axis1. rewrite nrows_join.
  destruct (decide (mjoin dfs = [])) as [->|Hne]; [done|].
  apply nrows_pad; [|done]. intros c s Hin. by eapply length_le_nrows.
Qed.

Lemma get_col_fmap (f : Series V → Series V) df c :
  get_col (prod_map id f <$> df) c = f <$> get_col df c.
Proof.
  induction df as [|[c' s] df IH]; simpl; [done|].
  destruct (decide (c' = c)); [done | apply IH].
Qed.

Lemma get_col_Some_app df df' c (s : Series V) :
  get_col df c = Some s → get_col (df ++ df') c = Some s.
Proof.
  induction df as [|[c' s'] df IH]; simpl; [done|].
  destruct (decide (c' = c)); [done | apply IH].
Qed.

Lemma columns_fmap (f : Series V → Series V) df :
  columns (prod_map id f <$> df) = columns df.
Proof.
  unfold columns. rewrite <- list_fmap_compose. apply list_fmap_ext.
  by intros _ [c s] _.
Qed.

Lemma merge_files_no_trim ui fs base files :
  merge_files ui fs base files false false = batch_concat fs base files.
Proof. unfold merge_files. by destruct (batch_concat fs base files). Qed.

Lemma columns_app df1 df2 : columns (df1 ++ df2) = columns df1 ++ columns df2.
Proof. unfold columns. apply fmap_app. Qed.

(** The labels seen are the labels of the frames kept so far. *)
Lemma merge_foldl_seen fs (todo : list string) st :
  (∀ c, c ∈ seen_columns st ↔ c ∈ columns (mjoin (all_dfs st))) →
  ∀ c, c ∈ seen_columns (foldl (merge_step fs) st todo)
       ↔ c ∈ columns (mjoin (all_dfs (foldl (merge_step fs) st todo))).
Proof.
  revert st. induction todo as [|p todo IH]; intros st Hseen; [done|].
  simpl. apply IH. intros c.
  destruct (merge_step_frames fs st p) as [-> ->].
  rewrite join_app, columns_app, elem_of_union, elem_of_app, elem_of_list_to_set.
  by rewrite Hseen.
Qed.

(** C1. Column-duplicate safety of [merge_files].  The labels seen by the
    batch loop are those of the frames it kept (the base and the earlier
    clean files that contributed); every clean file adds to the batch only
    those of its columns whose label has not been seen; the merged table
    (before any trimming, which is [merge_files] with both validations off)
    is the base's columns followed by columns whose labels are not the
    base's; and under every label of the base it holds the base's column,
    unchanged, followed only by the missing values of the rows a longer
    source added. *)
Theorem merge_files_keeps_base ui fs base files :
  let merged := (merge_files ui fs base files false false).1 in
  (∀ c, c ∈ seen_columns (merge_batch fs base files)
        ↔ c ∈ columns (mjoin (all_dfs (merge_batch fs base files)))) ∧
  (∀ st clean_path,
     all_dfs (merge_step fs st clean_path)
     = all_dfs st ++ contribution fs (seen_columns st) clean_path) ∧
  (∃ extra,
     merged = (prod_map id (pad (nrows merged)) <$> base) ++ extra ∧
     ∀ c, c ∈ columns extra → c ∉ columns base) ∧
  (∀ c col, get_col base c = Some col →
     get_col merged c = Some (col ++ replicate (nrows merged - length col) NaN)).
Proof.
  cbv zeta. rewrite merge_files_no_trim. unfold batch_concat. simpl.
  split.
  { apply merge_foldl_seen. intros c. simpl.
    by rewrite app_nil_r, elem_of_list_to_set. }
  split; [intros st p; apply merge_step_frames|].
  destruct (merge_batch_frames fs base files) as (kept & -> & Hkept).
  rewrite nrows_concat. unfold concat_axis1. simpl. rewrite fmap_app.
  split.
  - eexists. split; [done|].
    intros c. rewrite columns_fmap. unfold columns.
    intros ([c' s] & -> & (d & Hin & Hd)%list_elem_of_join)%list_elem_of_fmap.
    rewrite Forall_forall in Hkept. destruct (Hkept d Hd) as [Hfresh _].
    apply Hfresh. by apply (list_elem_of_fmap_2 fst) in Hin.
  - intros c col Hc. apply get_col_Some_app.
    by rewrite get_col_fmap, Hc.
Qed.

Lemma nrows_new_columns seen df : nrows (new_columns seen df) ≤ nrows df.
Proof.
  unfold nrows, new_columns. induction df as [|[c s] df IH]; [done|].
  rewrite filter_cons. destruct (decide _); simpl in *; unfold fmap in *; lia.
Qed.

(** C2 (as amended). Before trimming, the merged table has as many rows as
    the longest of the kept frames: the base and the new columns of the clean
    files that contribute.  It has exactly the base's row count when no clean
    file that is read has more rows than the base. *)
Theorem merged_row_count fs base files :
  let st := merge_batch fs base files in
  let merged := (batch_concat fs base files).1 in
  nrows merged = max_list (nrows <$> all_dfs st) ∧
  nrows base ≤ nrows merged ∧
  ((∀ clean_path df_new,
      clean_path ∈ files → fs clean_path = Some df_new → nrows df_new ≤ nrows base) →
   nrows merged = nrows base).
Proof.
  cbv zeta. unfold batch_concat. simpl. rewrite nrows_concat.
  destruct (merge_batch_frames fs base files) as (kept & -> & Hkept).
  split; [done|]. rewrite fmap_cons.
  change (max_list (nrows base :: (nrows <$> kept)))
    with (nrows base `max` max_list (nrows <$> kept)).
  split; [lia|].
  intros Hle.
  assert (max_list (nrows <$> kept) ≤ nrows base) as Hmax; [|lia].
  induction Hkept as [|d kept [_ (p & df_new & seen & Hp & Hfs & ->)] _ IH]; [simpl; lia|].
  rewrite fmap_cons.
  change (nrows (new_columns seen df_new) `max` max_list (nrows <$> kept) ≤ nrows base).
  apply Nat.max_lub; [|done].
  etrans; [apply nrows_new_columns | apply (Hle p df_new Hp Hfs)].
Qed.

(** *** Head trim *)

Lemma head_shift_columns k df :
  let time_cols := filter (λ c, is_time_column c = true) (columns df) in
  let data_cols := filter (λ c, c ∉ time_cols) (columns df) in
  (λ p, if decide (p.1 ∈ data_cols) then (p.1, shift_up k p.2) else p) <$> df
  = head_shifted k <$> df.
Proof.
  cbv zeta. apply list_fmap_ext. intros _ [c s] Hin%list_elem_of_lookup_2.
  unfold head_shifted. simpl.
  assert (c ∈ columns df) as Hc by (by apply (list_elem_of_fmap_2 fst) in Hin).
  destruct (is_time_column c) eqn:Ht.
  - rewrite decide_False; [done|].
    intros [Hn _]%list_elem_of_filter. apply Hn. by apply list_elem_of_filter.
  - rewrite decide_True; [done|].
    apply list_elem_of_filter. split; [|done].
    intros [Ht' _]%list_elem_of_filter. congruence.
Qed.

Lemma filter_seq_first (P : nat → Prop) `{∀ i, Decision (P i)} (n k : nat) :
  k < n → P k → (∀ i, i < k → ¬ P i) →
  ∃ rest, filter P (seq 0 n) = k :: rest.
Proof.
  intros Hk HP Hlt.
  replace n with (k + S (n - S k)) by lia.
  rewrite seq_app, filter_app. simpl. rewrite filter_cons, decide_True by done.
  assert (filter P (seq 0 k) = []) as ->; [|by eexists].
  clear Hk HP. induction k as [|k IH]; [done|].
  rewrite seq_S, filter_app, IH by (intros i Hi; apply Hlt; lia).
  simpl. rewrite filter_cons, decide_False; [done|]. apply Hlt. lia.
Qed.

Lemma length_shift_up k (s : Series V) : length (shift_up k s) = length s.
Proof. unfold shift_up. rewrite length_app, length_drop, length_replicate. lia. Qed.

Lemma lookup_shift_up k (s : Series V) i :
  i < length s →
  shift_up k s !! i = if decide (i + k < length s) then s !! (i + k) else Some NaN.
Proof.
  intros Hi. unfold shift_up. case_decide as Hik.
  - rewrite lookup_app_l by (rewrite length_drop; lia).
    rewrite lookup_drop. f_equal. lia.
  - rewrite lookup_app_r by (rewrite length_drop; lia).
    apply lookup_replicate_2. rewrite length_drop. lia.
Qed.

Lemma nrows_head_shifted k df : nrows (head_shifted k <$> df) = nrows df.
Proof.
  unfold nrows. f_equal. rewrite <- !list_fmap_compose.
  apply list_fmap_ext. intros _ [c s] _. unfold head_shifted. simpl.
  destruct (is_time_column c); [done | apply length_shift_up].
Qed.

(** C8. Head trim.  Let row [k] be the first complete row of the table.  If
    [k > 0] and the user confirms, the result has the same columns in the
    same order and the same row count, every time column is exactly the
    original one, and every other column is the original shifted up by [k]
    rows (row [i] holds the old row [i + k], the last [k] rows are missing).
    If the user declines, or [k = 0], the table is returned unchanged. *)
Theorem validate_and_trim_head_spec ui df (k : nat) :
  k < nrows df →
  row_complete df k = true →
  (∀ i, i < k → row_complete df i = false) →
  let df' := (_validate_and_trim_head ui df).1 in
  (0 < k → ask_yes_no ui k = true →
     columns df' = columns df ∧
     nrows df' = nrows df ∧
     (∀ j c s, df !! j = Some (c, s) →
        df' !! j = Some (c, if is_time_column c then s else shift_up k s)) ∧
     (∀ (s : Series V) i, i < length s →
        shift_up k s !! i
        = if decide (i + k < length s) then s !! (i + k) else Some NaN)) ∧
  (k = 0 ∨ ask_yes_no ui k = false → df' = df).
Proof.
  intros Hk Hrow Hfirst. cbv zeta. unfold _validate_and_trim_head.
  destruct (filter_seq_first (λ i, row_complete df i = true) (nrows df) k)
    as [rest Hci]; [done|done| |].
  { intros i Hi. rewrite (Hfirst i Hi). done. }
  unfold complete_indices. rewrite Hci. split.
  - intros Hpos Hyes. rewrite bool_decide_false by lia. rewrite Hyes. simpl.
    rewrite head_shift_columns. split; [|split; [|split]].
    + unfold columns. rewrite <- list_fmap_compose. apply list_fmap_ext.
      by intros _ [c s] _.
    + apply nrows_head_shifted.
    + intros j c s Hj. rewrite list_lookup_fmap, Hj. done.
    + intros s i. apply lookup_shift_up.
  - intros [->|Hno].
    + by rewrite bool_decide_true.
    + case_bool_decide; [done|]. by rewrite Hno.
Qed.

(** *** Order of the clean files *)

Lemma trim_head_map ui df :
  (_validate_and_trim_head ui df).1 = head_col ui (complete_indices df) <$> df.
Proof.
  unfold _validate_and_trim_head, head_col.
  destruct (complete_indices df) as [|k ci]; simpl; [by rewrite list_fmap_id|].
  case_bool_decide; simpl; [by rewrite list_fmap_id|].
  destruct (ask_yes_no ui k); simpl; [|by rewrite list_fmap_id].
  apply head_shift_columns.
Qed.

Lemma trim_tail_map df :
  (_validate_and_trim_tail df).1 = tail_col (nrows df) (complete_indices df) <$> df.
Proof.
  unfold _validate_and_trim_tail, tail_col.
  destruct (last (complete_indices df)) as [l|]; simpl; [|by rewrite list_fmap_id].
  case_bool_decide; simpl; by rewrite ?list_fmap_id.
Qed.

Lemma merge_files_trims ui fs base files (validate_head validate_tail : bool) :
  (merge_files ui fs base files validate_head validate_tail).1
  = trims ui validate_head validate_tail
      (concat_axis1 (all_dfs (merge_batch fs base files))).
Proof.
  unfold merge_files, trims, batch_concat.
  destruct validate_head, validate_tail; simpl;
    try destruct (_validate_and_trim_head ui _) as [d1 o1]; simpl;
    try destruct (_validate_and_trim_tail _) as [d2 o2]; done.
Qed.

Lemma get_col_None df c : c ∉ columns df → get_col df c = None.
Proof.
  induction df as [|[c' s] df IH]; simpl; [done|].
  intros [Hne Hnin]%not_elem_of_cons.
  destruct (decide (c' = c)); [congruence | auto].
Qed.

Lemma get_col_swapped d1 d2 c : swapped d1 d2 → get_col d1 c = get_col d2 c.
Proof.
  intros (X & A & B & -> & -> & Hdisj).
  destruct (decide (c ∈ columns X)) as [HX|HX].
  { by rewrite !(get_col_app_l X). }
  rewrite !(get_col_app_r X) by done.
  destruct (decide (c ∈ columns A)) as [HA|HA].
  { rewrite get_col_app_l, get_col_app_r by auto. done. }
  rewrite (get_col_app_r A) by done.
  destruct (decide (c ∈ columns B)) as [HB|HB].
  - by rewrite get_col_app_l.
  - rewrite get_col_app_r by done. by rewrite !get_col_None.
Qed.

Lemma swapped_fmap (f : string * Series V → string * Series V) d1 d2 :
  (∀ p, (f p).1 = p.1) → swapped d1 d2 → swapped (f <$> d1) (f <$> d2).
Proof.
  intros Hf (X & A & B & -> & -> & Hdisj).
  exists (f <$> X), (f <$> A), (f <$> B).
  rewrite !fmap_app. split; [done|]. split; [done|].
  assert (∀ d : DataFrame V, columns (f <$> d) = columns d) as Hcols.
  { intros d. unfold columns. rewrite <- list_fmap_compose.
    apply list_fmap_ext. intros _ p _. apply Hf. }
  intros c. rewrite !Hcols. apply Hdisj.
Qed.

Lemma swapped_nrows d1 d2 : swapped d1 d2 → nrows d1 = nrows d2.
Proof. intros (X & A & B & -> & -> & _). rewrite !nrows_app. lia. Qed.

Lemma swapped_row_complete d1 d2 i :
  swapped d1 d2 → row_complete d1 i = row_complete d2 i.
Proof.
  intros (X & A & B & -> & -> & _). unfold row_complete.
  rewrite !forallb_app. f_equal. apply andb_comm.
Qed.

Lemma swapped_complete_indices d1 d2 :
  swapped d1 d2 → complete_indices d1 = complete_indices d2.
Proof.
  intros Hs. unfold complete_indices. rewrite (swapped_nrows d1 d2 Hs).
  apply list_filter_iff. intros i. by rewrite (swapped_row_complete d1 d2 i Hs).
Qed.

Lemma swapped_trims ui (validate_head validate_tail : bool) d1 d2 :
  swapped d1 d2 →
  swapped (trims ui validate_head validate_tail d1)
          (trims ui validate_head validate_tail d2).
Proof.
  intros Hs. unfold trims.
  assert (swapped (if validate_head then (_validate_and_trim_head ui d1).1 else d1)
                  (if validate_head then (_validate_and_trim_head ui d2).1 else d2))
    as Hh.
  { destruct validate_head; [|done].
    rewrite !trim_head_map, (swapped_complete_indices d1 d2 Hs).
    apply swapped_fmap; [|done].
    intros p. unfold head_col. repeat case_match; done. }
  destruct validate_tail; [|done].
  rewrite !trim_tail_map, (swapped_complete_indices _ _ Hh), (swapped_nrows _ _ Hh).
  apply swapped_fmap; [|done].
  intros [c s]. unfold tail_col. repeat case_match; done.
Qed.

Lemma new_columns_ext seen seen' df :
  (∀ c, c ∈ columns df → c ∈ seen ↔ c ∈ seen') →
  new_columns seen df = new_columns seen' df.
Proof.
  unfold new_columns. induction df as [|[c s] df IH]; intros Hext; [done|].
  rewrite !filter_cons, IH by (intros c' Hc'; apply Hext; by right).
  simpl. assert (c ∈ seen ↔ c ∈ seen') as Hc by (apply Hext; by left).
  destruct (decide (c ∉ seen)), (decide (c ∉ seen')); tauto.
Qed.

Lemma contribution_columns fs seen (clean_path c : string) :
  c ∈ columns (mjoin (contribution fs seen clean_path)) →
  ∃ df_new, fs clean_path = Some df_new ∧ c ∈ columns df_new ∧ c ∉ seen.
Proof.
  unfold contribution. destruct (fs clean_path) as [df_new|]; simpl.
  2:{ by intros ?%elem_of_nil. }
  destruct (empty _ || bool_decide _); simpl.
  { by intros ?%elem_of_nil. }
  rewrite app_nil_r. intros [Hs Hin]%new_columns_fresh. by exists df_new.
Qed.

Lemma contribution_ext fs seen seen' (clean_path : string) :
  (∀ df_new c, fs clean_path = Some df_new → c ∈ columns df_new →
               c ∈ seen ↔ c ∈ seen') →
  contribution fs seen clean_path = contribution fs seen' clean_path.
Proof.
  intros Hext. unfold contribution.
  destruct (fs clean_path) as [df_new|]; [|done].
  by rewrite (new_columns_ext seen seen') by (intros c; by apply Hext).
Qed.

Lemma merge_batch_two fs base (p q : string) :
  let seen0 : gset string := list_to_set (columns base) in
  let first := contribution fs seen0 p in
  all_dfs (merge_batch fs base [p; q])
  = base :: first ++ contribution fs (seen0 ∪ list_to_set (columns (mjoin first))) q.
Proof.
  cbv zeta. unfold merge_batch. simpl.
  destruct (merge_step_frames fs
              (merge_step fs
                 {| all_dfs := [base];
                    seen_columns := list_to_set (columns base);
                    printed := [print_message MergingAll; print_separator] |} p) q)
    as [-> _].
  destruct (merge_step_frames fs
              {| all_dfs := [base];
                 seen_columns := list_to_set (columns base);
                 printed := [print_message MergingAll; print_separator] |} p)
    as [-> ->].
  simpl. done.
Qed.

Lemma get_col_new_columns (seen : gset string) df (c : string) :
  c ∉ seen → get_col (new_columns seen df) c = get_col df c.
Proof.
  intros Hc. unfold new_columns. induction df as [|[c' s] df IH]; [done|].
  rewrite filter_cons. simpl. destruct (decide (c' ∉ seen)) as [Hn|Hn]; simpl.
  - by rewrite IH.
  - destruct (decide (c' = c)) as [->|_]; [|done]. by destruct Hn.
Qed.

Lemma get_col_nrows df (c : string) (series : Series V) :
  get_col df c = Some series → length series ≤ nrows df.
Proof.
  induction df as [|[c' s] df IH]; [done|]. simpl.
  change (nrows ((c', s) :: df)) with (length s `max` nrows df).
  destruct (decide (c' = c)); [intros [= ->]; lia|].
  intros H%IH. lia.
Qed.

(** A clean file that has rows in a column the base lacks is kept by the
    batch loop, with its columns that the base lacks. *)
Lemma contribution_first fs base (clean_path c : string) (df_new : DataFrame V)
    (series : Series V) :
  fs clean_path = Some df_new → get_col df_new c = Some series → series ≠ [] →
  c ∉ columns base →
  let seen0 : gset string := list_to_set (columns base) in
  contribution fs seen0 clean_path = [new_columns seen0 df_new] ∧
  get_col (new_columns seen0 df_new) c = Some series.
Proof.
  intros Hread Hcol Hne Hc seen0.
  assert (c ∉ seen0) as Hs by (subst seen0; by rewrite elem_of_list_to_set).
  pose proof (get_col_new_columns seen0 df_new c Hs) as Hnew. rewrite Hcol in Hnew.
  split; [|done].
  unfold contribution. rewrite Hread. cbv zeta.
  pose proof (get_col_nrows _ _ _ Hnew) as Hlen.
  assert (length series ≠ 0) by (by destruct series).
  unfold empty. unfold columns. rewrite length_fmap.
  destruct (new_columns seen0 df_new) as [|p d] eqn:Hd; [discriminate Hnew|].
  assert (nrows (p :: d) ≠ 0) by lia.
  by rewrite !bool_decide_eq_false_2 by done.
Qed.

(** C6 (as amended). When the two clean files share no column label other
    than labels of the base, merging them in either order gives the same
    column under every label (whatever the trims and the user's answers);
    only the order of the columns and the printed messages can differ.
    When they do share a label the base lacks, the order decides: a clean
    file listed first that is read and has at least one row in a column
    the base lacks provides that column of the merged table, which before
    the trims holds the file's values, padded with missing values to the
    merged row count, whatever the second file holds. *)
Theorem merge_order_independent ui fs base (pA pB : string)
    (validate_head validate_tail : bool) :
  ((∀ A B c, fs pA = Some A → fs pB = Some B →
             c ∈ columns A → c ∈ columns B → c ∈ columns base) →
   ∀ c, get_col (merge_files ui fs base [pA; pB] validate_head validate_tail).1 c
        = get_col (merge_files ui fs base [pB; pA] validate_head validate_tail).1 c) ∧
  (∀ A c series,
     fs pA = Some A → get_col A c = Some series → series ≠ [] → c ∉ columns base →
     let merged := (merge_files ui fs base [pA; pB] false false).1 in
     get_col merged c = Some (pad (nrows merged) series)).
Proof.
  split.
  - intros Hshared c. apply get_col_swapped.
    rewrite !merge_files_trims. apply swapped_trims.
    rewrite !merge_batch_two.
    set (seen0 := list_to_set (columns base) : gset string).
    assert (∀ p q, (∀ P Q c, fs p = Some P → fs q = Some Q →
                             c ∈ columns P → c ∈ columns Q → c ∈ columns base) →
              contribution fs (seen0 ∪ list_to_set (columns (mjoin (contribution fs seen0 p)))) q
              = contribution fs seen0 q) as Hsame.
    { intros p q Hpq. apply contribution_ext. intros Q c' HQ Hc'. split.
      - intros [Hin|Hin]%elem_of_union; [done|].
        apply elem_of_list_to_set, contribution_columns in Hin as (P & HP & HcP & Hn).
        exfalso. apply Hn. apply elem_of_list_to_set. by eapply Hpq.
      - apply elem_of_union_l. }
    rewrite (Hsame pA pB) by done.
    rewrite (Hsame pB pA) by (intros P Q c' HP HQ HcP HcQ; by eapply Hshared).
    set (CA := contribution fs seen0 pA). set (CB := contribution fs seen0 pB).
    unfold concat_axis1.
    assert (max_list (nrows <$> base :: CA ++ CB) = max_list (nrows <$> base :: CB ++ CA))
      as ->.
    { rewrite !nrows_join. simpl. rewrite !join_app, !nrows_app. lia. }
    apply swapped_fmap; [by intros [??]|].
    exists base, (mjoin CA), (mjoin CB). simpl. rewrite !join_app.
    split; [done|]. split; [done|].
    intros c' (P & HP & HcP & Hn)%contribution_columns
              (Q & HQ & HcQ & _)%contribution_columns.
    apply Hn. apply elem_of_list_to_set. by eapply Hshared.
  - intros A c series HA Hcol Hne Hc merged. subst merged.
    rewrite merge_files_trims. unfold trims.
    rewrite nrows_concat. unfold concat_axis1. rewrite get_col_fmap.
    rewrite merge_batch_two.
    destruct (contribution_first fs base pA c A series HA Hcol Hne Hc) as [-> Hnew].
    simpl. rewrite get_col_app_r by done.
    by rewrite (get_col_Some_app _ _ _ _ Hnew).
Qed.

End merger_theory.

(** *** The merge engine on concrete tables *)

(** C2, as stated, fails: a clean file with more rows than the base makes
    the merged table longer than the base (4 rows against 3). *)
Lemma merged_row_count_counterexample :
  ¬ (∀ (fs : string → option (DataFrame Z)) (base : DataFrame Z) (files : list string),
       nrows (batch_concat fs base files).1 = nrows base).
Proof.
  intros H. specialize (H fs_ex base_ex ["long.csv"]).
  vm_compute in H. discriminate H.
Qed.

Lemma merged_row_count_witness :
  nrows (batch_concat fs_ex base_ex ["short.csv"]).1 = nrows base_ex.
Proof.
  apply (proj2 (proj2 (merged_row_count fs_ex base_ex ["short.csv"]))).
  intros clean_path df_new ->%list_elem_of_singleton [= <-].
  vm_compute. lia.
Defined.

(** The head trim on a table whose first row lacks [watts]. *)
Lemma validate_and_trim_head_witness :
  (_validate_and_trim_head ui_yes
     [("secs", [Num 0; Num 1; Num 2]%Z); ("watts", [NaN; Num 150; Num 175]%Z)]).1
  !! 1 = Some ("watts", [Num 150; Num 175; NaN]%Z).
Proof.
  pose proof (validate_and_trim_head_spec ui_yes
     [("secs", [Num 0; Num 1; Num 2]%Z); ("watts", [NaN; Num 150; Num 175]%Z)] 1
     ltac:(vm_compute; lia) eq_refl) as H.
  cbv zeta in H.
  destruct H as [H _].
  { intros i Hi. assert (i = 0) as -> by lia. reflexivity. }
  destruct (H ltac:(lia) eq_refl) as (_ & _ & Hcol & _).
  apply (Hcol 1 "watts" [NaN; Num 150; Num 175]%Z eq_refl).
Defined.

(** C6, as stated, fails: when both clean files bring a column [smo2] that
    the base lacks, the first file listed provides it. *)
Lemma merge_order_counterexample :
  ¬ (∀ (ui : UserInterface) (fs : string → option (DataFrame Z)) (base : DataFrame Z)
       (pA pB : string) (validate_head validate_tail : bool) (c : string),
       get_col (merge_files ui fs base [pA; pB] validate_head validate_tail).1 c
       = get_col (merge_files ui fs base [pB; pA] validate_head validate_tail).1 c).
Proof.
  intros H. specialize (H ui_yes fs_ex base_ex "a.csv" "b.csv" false false "smo2").
  vm_compute in H. discriminate H.
Qed.

Lemma merge_order_independent_witness :
  get_col (merge_files ui_yes fs_ex base_ex ["short.csv"; "long.csv"] true true).1 "smo2"
  = get_col (merge_files ui_yes fs_ex base_ex ["long.csv"; "short.csv"] true true).1 "smo2"
  ∧ get_col (merge_files ui_yes fs_ex base_ex ["short.csv"; "long.csv"] false false).1
      "smo2"
    = Some [Num 65; Num 64; NaN; NaN]%Z.
Proof.
  destruct (merge_order_independent ui_yes fs_ex base_ex "short.csv" "long.csv" true true)
    as [Hsame Hfirst].
  split.
  - apply Hsame.
    intros A B c [= <-] [= <-] HA HB.
    vm_compute in HA, HB.
    apply elem_of_cons in HB as [->|HB]; [|by apply elem_of_nil in HB].
    repeat (apply elem_of_cons in HA as [HA|HA]; [discriminate HA|]).
    by apply elem_of_nil in HA.
  - apply (Hfirst [("watts", [Num 999; Num 999]%Z); ("smo2", [Num 65; Num 64]%Z)]
             "smo2" [Num 65; Num 64]%Z eq_refl eq_refl).
    + discriminate.
    + vm_compute. intros H.
      repeat (apply elem_of_cons in H as [H|H]; [discriminate H|]).
      by apply elem_of_nil in H.
Defined.

(** ** Timestamp validation (integrity.py) *)
Section timestamps_theory.
Context (parse_number : string → option float).
Implicit Types (self : IntegrityValidator) (df : DataFrame float).

(** Accumulate mode: each of the three conditions adds its own warning, in
    the order negative, decreasing, duplicated, and nothing is raised. *)
Lemma validate_timestamps_accumulate self df (time_column : string)
    (file_path : option string) (series : Series float) :
  fail_fast self = false →
  get_col df time_column = Some series →
  let time_series := to_numeric_coerce parse_number <$> series in
  let negative_count := count_true ((λ x, x <? 0)%float <$> time_series) in
  let decreasing := (λ x, x <? 0)%float <$> float64.diff time_series in
  let duplicate_count := count_true (duplicated_from [] time_series) in
  validate_timestamps parse_number self df time_column file_path true true true
  = Ok ((if bool_decide (0 < negative_count)
         then [negative_warning time_column negative_count] else [])
        ++ (if bool_decide (0 < count_true decreasing)
            then [decreasing_warning time_column (count_true decreasing)
                    (default 0 (fst <$> list_find (λ b, b = true) decreasing))]
            else [])
        ++ (if bool_decide (0 < duplicate_count)
            then [duplicate_warning time_column duplicate_count] else [])).
Proof.
  intros Hff Hcol. cbv zeta. unfold validate_timestamps. rewrite Hcol, Hff. simpl.
  repeat case_bool_decide; simpl; rewrite ?app_nil_r; done.
Qed.

(** Fail-fast mode: negative values raise, decreasing values raise, but
    duplicated values only add a warning. *)
Lemma validate_timestamps_fail_fast self df (time_column : string)
    (file_path : option string) (series : Series float) :
  fail_fast self = true →
  get_col df time_column = Some series →
  let time_series := to_numeric_coerce parse_number <$> series in
  let negative_count := count_true ((λ x, x <? 0)%float <$> time_series) in
  let decreasing := (λ x, x <? 0)%float <$> float64.diff time_series in
  let duplicate_count := count_true (duplicated_from [] time_series) in
  let r := validate_timestamps parse_number self df time_column file_path
             true true true in
  (0 < negative_count →
     r = Raise (TimestampError "negative" time_column file_path
                  (pretty negative_count +:+ " wartości ujemnych"))) ∧
  (negative_count = 0 → 0 < count_true decreasing →
     r = Raise (TimestampError "non_monotonic" time_column file_path
                  ("Wartość maleje w wierszu "
                   +:+ pretty (default 0 (fst <$> list_find (λ b, b = true) decreasing))))) ∧
  (negative_count = 0 → count_true decreasing = 0 →
     r = Ok (if bool_decide (0 < duplicate_count)
             then [duplicate_warning time_column duplicate_count] else [])).
Proof.
  intros Hff Hcol. cbv zeta. unfold validate_timestamps. rewrite Hcol, Hff. simpl.
  split; [|split].
  - intros Hn. by rewrite bool_decide_true.
  - intros -> Hd. simpl. by rewrite bool_decide_true.
  - intros -> ->. simpl. by case_bool_decide.
Qed.

(** C7 (failing input). With [fail_fast] on, a time column [0, 1, 1, 2, 3]
    with a duplicated value raises nothing: the call returns the duplicate
    warning, as in accumulate mode. *)
Theorem validate_timestamps_duplicates_fail_fast :
  validate_timestamps parse_number (new_validator None true false)
    [("secs", [Num 0; Num 1; Num 1; Num 2; Num 3]%float)] "secs" None true true true
  = Ok ["Kolumna 'secs': 1 zduplikowanych wartości"].
Proof. reflexivity. Qed.

End timestamps_theory.

(** ** Rate detection and resampling (interpolation.py) *)
Section sampling_theory.
Import interpolation.
Implicit Types (df : DataFrame float).

(** C9. [detect_sampling_rate] returns 1.0 (and does not raise) for a table
    with fewer than two rows, and for a table whose time column has a median
    delta that is not positive; it returns exactly 1.0 on [0, 1, 2, 3, 4, 5]
    and a value between 9.5 and 10.5 on [0.0, 0.1, ..., 1.0]. *)
Theorem detect_sampling_rate_spec :
  (∀ df (time_col : string),
     nrows df < 2 → detect_sampling_rate df time_col = Ok 1%float) ∧
  (∀ df (time_col : string) (series : Series float) (xs : list float),
     get_col df time_col = Some series →
     numeric_values series = Ok xs →
     (float64.median (float64.dropna (float64.diff xs)) <=? 0)%float = true →
     detect_sampling_rate df time_col = Ok 1%float) ∧
  detect_sampling_rate secs_1hz "secs" = Ok 1%float ∧
  (∃ rate, detect_sampling_rate secs_10hz "secs" = Ok rate ∧
           (9.5 <=? rate)%float = true ∧ (rate <=? 10.5)%float = true).
Proof.
  split; [|split; [|split]].
  - intros df time_col Hrows. unfold detect_sampling_rate.
    destruct (get_col df time_col); [|done]. by rewrite bool_decide_true.
  - intros df time_col series xs Hcol Hxs Hmed. unfold detect_sampling_rate.
    rewrite Hcol, Hxs. case_bool_decide; [done|].
    case_bool_decide; [done|]. by rewrite Hmed.
  - reflexivity.
  - eexists. split; [vm_compute; reflexivity|]. split; reflexivity.
Qed.

(** C10. Without the time column, [resample_to_frequency] raises
    [ValueError] whatever its other arguments (while [detect_sampling_rate]
    falls back to 1.0 on the same table). *)
Theorem resample_to_frequency_missing_time_column
    (int_of_string : string → option Z) df (time_col : string)
    (target_freq : Z) (current_freq : option Z) (how : agg_method) :
  time_col ∉ columns df →
  resample_to_frequency int_of_string df time_col target_freq current_freq how
  = Raise (ValueError ("Time column '" +:+ time_col +:+ "' not found in DataFrame")) ∧
  detect_sampling_rate df time_col = Ok 1%float.
Proof.
  intros Hcol%get_col_None.
  unfold resample_to_frequency, detect_sampling_rate. by rewrite Hcol.
Qed.

End sampling_theory.

(** A time column that runs backwards has median delta -1: the rate is 1.0. *)
Lemma detect_sampling_rate_witness :
  interpolation.detect_sampling_rate [("secs", [Num 5; Num 4; Num 3]%float)] "secs"
  = Ok 1%float.
Proof.
  apply (proj1 (proj2 detect_sampling_rate_spec)
           [("secs", [Num 5; Num 4; Num 3]%float)] "secs"
           [Num 5; Num 4; Num 3]%float [5; 4; 3]%float eq_refl eq_refl eq_refl).
Defined.

Lemma resample_to_frequency_missing_witness :
  interpolation.resample_to_frequency (λ _, None) secs_1hz "time" 1 None interpolation.mean
  = Raise (ValueError "Time column 'time' not found in DataFrame").
Proof.
  apply (proj1 (resample_to_frequency_missing_time_column (λ _, None) secs_1hz "time"
                  1 None interpolation.mean ltac:(compute_done))).
Defined.

Lemma merge_files_keeps_base_witness :
  get_col (merge_files ui_yes fs_ex base_ex ["short.csv"] false false).1 "watts"
  = Some [Num 100; Num 150; Num 175]%Z.
Proof.
  exact (proj2 (proj2 (proj2 (merge_files_keeps_base ui_yes fs_ex base_ex ["short.csv"])))
           "watts" [Num 100; Num 150; Num 175]%Z eq_refl).
Defined.

(** ** Gap interpolation (interpolation.py) *)
Section interpolation_theory.
Import interpolation.
#[local] Abbreviation Q := QArith_base.Q.
Implicit Types (series rest : Series Q) (mask : list bool) (df : DataFrame Q).
Implicit Types (method : InterpolationMethod).

(** *** Runs *)

Lemma longest_run_from_leading cur mask :
  longest_run_from cur mask
  = (cur + leading_true mask) `max` longest_run_from 0 mask.
Proof.
  revert cur. induction mask as [|[] mask IH]; intros cur; simpl.
  - lia.
  - rewrite (IH (S cur)), (IH 1). lia.
  - lia.
Qed.

Lemma longest_run_from_mono cur cur' mask :
  cur ≤ cur' → longest_run_from cur mask ≤ longest_run_from cur' mask.
Proof.
  intros Hle. rewrite (longest_run_from_leading cur), (longest_run_from_leading cur'). lia.
Qed.

Lemma runs_leading mask :
  leading_true mask = match runs mask with (true, n) :: _ => n | _ => 0 end.
Proof.
  induction mask as [|b mask IH]; [done|]. simpl.
  destruct b; simpl.
  - rewrite IH. destruct (runs mask) as [|[[] n] rs]; simpl; done.
  - destruct (runs mask) as [|[[] n] rs]; simpl; done.
Qed.

Lemma runs_longest mask :
  max_list (true_lengths (runs mask)) = longest_run_from 0 mask.
Proof.
  unfold true_lengths.
  induction mask as [|b mask IH]; [done|].
  pose proof (runs_leading mask) as Hlead.
  destruct b; simpl.
  - rewrite (longest_run_from_leading 1), <- IH, Hlead.
    destruct (runs mask) as [|[[] n] rs]; simpl; [done|lia|done].
  - rewrite <- IH.
    destruct (runs mask) as [|[[] n] rs]; simpl; done.
Qed.

Lemma longest_run_no_true mask :
  existsb id mask = false → longest_run_from 0 mask = 0.
Proof.
  induction mask as [|[] mask IH]; simpl; [done|done|]. intros H. rewrite IH; done.
Qed.

Lemma get_consecutive_lengths_max mask :
  max_list (_get_consecutive_lengths mask) = longest_run_from 0 mask.
Proof.
  unfold _get_consecutive_lengths.
  destruct (existsb id mask) eqn:Hany; simpl.
  - apply runs_longest.
  - by rewrite longest_run_no_true.
Qed.

Lemma expand_runs mask : expand (runs mask) = mask.
Proof.
  unfold expand. induction mask as [|b mask IH]; [done|]. simpl.
  destruct (runs mask) as [|[b' n] rs]; simpl in *.
  - by rewrite <- IH.
  - case_bool_decide as Hb; simpl.
    + subst b'. by rewrite <- IH.
    + by rewrite <- IH.
Qed.

(** The runs are the groups of the pandas idiom: with the group ids
    [(mask != mask.shift()).cumsum()] of [check_consecutive_nans_optimized],
    the rows of run number [j] are exactly the rows with id [j + 1]. *)
Lemma runs_group_ids mask (prev : option bool) (acc : nat) :
  cumsum_from acc (changes_from prev mask)
  = mjoin (imap (λ j r, replicate r.2
                          ((if bool_decide (prev = head mask) then acc else S acc) + j))
             (runs mask)).
Proof.
  revert prev acc. induction mask as [|b mask IH]; intros prev acc; [done|].
  simpl. rewrite IH. clear IH.
  assert ((acc + (if negb (bool_decide (prev = Some b)) then 1 else 0))
          = (if bool_decide (prev = Some b) then acc else S acc)) as ->.
  { case_bool_decide; simpl; lia. }
  generalize (if bool_decide (prev = Some b) then acc else S acc). intros a.
  destruct mask as [|b' mask]; simpl.
  { by rewrite Nat.add_0_r. }
  destruct (runs mask) as [|[b'' n] rs] eqn:Hruns; simpl;
    repeat case_bool_decide; simplify_eq; simpl;
    rewrite ?Nat.add_0_r, ?Nat.add_1_r; try done.
  all: repeat first [ apply imap_ext; intros j r _; simpl; f_equal; lia
                    | lia
                    | progress f_equal ].
Qed.

(** *** A gap cut out of its column cannot be filled *)

Lemma all_nan_replicate series (n : nat) :
  isna <$> series = replicate n true → series = replicate n NaN.
Proof.
  revert n. induction series as [|c rest IH]; intros [|n]; simpl; try done.
  intros [= Hc Hrest]. destruct c; try done. by rewrite (IH n).
Qed.

Lemma next_present_all_nan (n : nat) : next_present (replicate n NaN) = None.
Proof. induction n as [|n IH]; simpl; [done|]. by rewrite IH. Qed.

Lemma fill_all_nan method (n : nat) :
  fill method None (replicate n NaN) = Ok (replicate n NaN).
Proof.
  destruct method; simpl; try done.
  - unfold interpolate_linear.
    assert (has_str (replicate n NaN) = false) as ->.
    { unfold has_str. induction n; simpl; done. }
    f_equal. generalize 0. induction n as [|n IH]; intros since; simpl; [done|].
    by rewrite IH.
  - f_equal. generalize 0. induction n as [|n IH]; intros since; simpl; [done|].
    by rewrite IH.
  - f_equal. induction n as [|n IH]; simpl; [done|].
    by rewrite next_present_all_nan, IH.
  - f_equal. generalize 0. induction n as [|n IH]; intros since; simpl; [done|].
    by rewrite IH.
Qed.

Lemma set_rows_same (start_idx n : nat) series :
  set_rows start_idx n (take n (drop start_idx series)) series = series.
Proof.
  unfold set_rows. rewrite <- (drop_drop series n start_idx), take_drop.
  apply take_drop.
Qed.

(** The loop of [_interpolate_small_gaps] changes nothing: each small gap
    is filled from the slice that holds the gap alone, where there is no
    value to fill from. *)
Lemma small_gaps_loop_same (max_gap : Z) method (groups : list (bool * nat)) :
  ∀ (start_idx : nat) series,
    drop start_idx (isna <$> series) = expand groups →
    small_gaps_loop max_gap method groups start_idx series = Ok series.
Proof.
  induction groups as [|[is_gap n] groups IH]; intros start_idx series Hmask; [done|].
  unfold expand in Hmask. simpl in Hmask. fold (expand groups) in Hmask.
  assert (drop (start_idx + n) (isna <$> series) = expand groups) as Hnext.
  { rewrite <- drop_drop, Hmask. apply drop_app_length'. by rewrite length_replicate. }
  simpl. destruct (is_gap && (Z.of_nat n <=? max_gap)%Z) eqn:Hsmall; [|by apply IH].
  apply andb_true_iff in Hsmall as [-> _].
  assert (take n (drop start_idx series) = replicate n NaN) as Hslice.
  { apply all_nan_replicate. rewrite fmap_take, fmap_drop, Hmask.
    apply take_app_length'. by rewrite length_replicate. }
  rewrite Hslice, fill_all_nan. rewrite <- Hslice, set_rows_same. by apply IH.
Qed.

Lemma interpolate_small_gaps_same series (max_gap : Z) method :
  _interpolate_small_gaps series max_gap method = Ok series.
Proof.
  unfold _interpolate_small_gaps. destruct (negb _); [done|].
  apply small_gaps_loop_same. by rewrite expand_runs.
Qed.

(** *** Filling a column whose gaps are all within the limit *)

Lemma nan_count_cons (c : cell Q) rest :
  nan_count (c :: rest) = (if isna c then 1 else 0) + nan_count rest.
Proof.
  unfold nan_count. rewrite filter_cons. by destruct (isna c).
Qed.

Lemma numeric_no_str series : is_numeric series = true → has_str series = false.
Proof.
  unfold is_numeric, has_str. induction series as [|[] rest IH]; simpl; auto.
Qed.

Lemma interpolate_from_filled (limit : nat) (a : Q) series : ∀ since : nat,
  is_numeric series = true →
  longest_run_from since (isna <$> series) ≤ limit →
  nan_count (interpolate_from (Some limit) (Some a) since series) = 0.
Proof.
  revert a.
  induction series as [|[|v|s] rest IH]; intros a since Hnum Hrun; simpl in *; unfold fmap in *.
  - done.
  - pose proof (longest_run_from_ge (S since) (isna <$> rest)) as Hge;
      unfold fmap in Hge.
    rewrite bool_decide_true by lia.
    rewrite nan_count_cons, IH by done.
    by repeat case_match.
  - rewrite nan_count_cons. simpl. apply IH; [done|lia].
  - done.
Qed.

Lemma interpolate_from_leading (limit : nat) series : ∀ since : nat,
  is_numeric series = true →
  longest_run_from 0 (isna <$> series) ≤ limit →
  nan_count (interpolate_from (Some limit) None since series) = leading_nans series.
Proof.
  induction series as [|[|v|s] rest IH]; intros since Hnum Hrun; simpl in *; unfold fmap in *.
  - done.
  - rewrite nan_count_cons. simpl. f_equal. apply IH; [done|].
    etrans; [|exact Hrun]. apply longest_run_from_mono. lia.
  - rewrite nan_count_cons. simpl. by apply interpolate_from_filled.
  - done.
Qed.

Lemma ffill_from_filled (limit : nat) (c : cell Q) series : ∀ since : nat,
  isna c = false →
  longest_run_from since (isna <$> series) ≤ limit →
  nan_count (ffill_from (Some limit) (Some c) since series) = 0.
Proof.
  intros since Hc. revert c Hc since.
  induction series as [|[|v|s] rest IH]; intros c Hc since Hrun; simpl in *; unfold fmap in *.
  - done.
  - pose proof (longest_run_from_ge (S since) (isna <$> rest)) as Hge;
      unfold fmap in Hge.
    rewrite bool_decide_true by lia.
    rewrite nan_count_cons, Hc, IH by done. done.
  - rewrite nan_count_cons. simpl. apply IH; [done|lia].
  - rewrite nan_count_cons. simpl. apply IH; [done|lia].
Qed.

Lemma ffill_from_leading (limit : nat) series : ∀ since : nat,
  longest_run_from 0 (isna <$> series) ≤ limit →
  nan_count (ffill_from (Some limit) None since series) = leading_nans series.
Proof.
  induction series as [|[|v|s] rest IH]; intros since Hrun; simpl in *; unfold fmap in *.
  - done.
  - rewrite nan_count_cons. simpl. f_equal. apply IH.
    etrans; [|exact Hrun]. apply longest_run_from_mono. lia.
  - rewrite nan_count_cons. simpl. by apply ffill_from_filled.
  - rewrite nan_count_cons. simpl. by apply ffill_from_filled.
Qed.

Lemma next_present_None rest :
  next_present rest = None ↔ forallb isna rest = true.
Proof.
  induction rest as [|[|v|s] rest IH]; simpl; [done| |done|done].
  rewrite <- IH. by destruct (next_present rest).
Qed.

Lemma next_present_Some rest (ahead : nat) (c : cell Q) :
  next_present rest = Some (ahead, c) →
  isna c = false ∧ ahead = S (leading_nans rest).
Proof.
  revert ahead. induction rest as [|[|v|s] rest IH]; intros ahead; simpl.
  - done.
  - destruct (next_present rest) as [[d c']|]; simpl; [|done].
    intros [= <- <-]. destruct (IH d eq_refl) as [? ->]. done.
  - by intros [= <- <-].
  - by intros [= <- <-].
Qed.

Lemma leading_nans_run (cur : nat) series :
  cur + leading_nans series ≤ longest_run_from cur (isna <$> series).
Proof.
  revert cur. induction series as [|[|v|s] rest IH]; intros cur; simpl; try lia.
  specialize (IH (S cur)). unfold fmap in *. lia.
Qed.

Lemma trailing_all_nan series :
  forallb isna series = true → trailing_nans series = length series.
Proof.
  destruct series as [|c rest]; simpl; [done|]. by intros ->.
Qed.

Lemma bfill_from_trailing (limit : nat) series :
  longest_run_from 0 (isna <$> series) ≤ limit →
  nan_count (bfill_from (Some limit) series) = trailing_nans series.
Proof.
  induction series as [|[|v|s] rest IH]; intros Hrun; simpl in *; unfold fmap in *.
  - done.
  - assert (longest_run_from 0 (isna <$> rest) ≤ limit) as Hrest.
    { etrans; [|exact Hrun]. apply longest_run_from_mono. lia. }
    rewrite nan_count_cons, IH by done.
    destruct (next_present rest) as [[ahead c]|] eqn:Hnext.
    + destruct (next_present_Some _ _ _ Hnext) as [Hc ->].
      pose proof (leading_nans_run 1 rest) as Hge; unfold fmap in Hge.
      simpl. rewrite bool_decide_true by lia. rewrite Hc.
      destruct (forallb isna rest) eqn:Hall; [|done].
      apply next_present_None in Hall. congruence.
    + apply next_present_None in Hnext. rewrite Hnext. simpl.
      by rewrite trailing_all_nan.
  - rewrite nan_count_cons. simpl. apply IH. lia.
  - rewrite nan_count_cons. simpl. apply IH. lia.
Qed.

Lemma longest_run_some mask : existsb id mask = true → 1 ≤ longest_run_from 0 mask.
Proof.
  induction mask as [|[] mask IH]; simpl; [done| |].
  - intros _. pose proof (longest_run_from_ge 1 mask). lia.
  - intros H. specialize (IH H). lia.
Qed.

Lemma nan_count_mask series :
  nan_count series ≠ 0 → existsb id (isna <$> series) = true.
Proof.
  induction series as [|c rest IH]; [done|].
  rewrite nan_count_cons. simpl. destruct (isna c); simpl; auto.
Qed.

(** The limit-bounded fills of the first branch: the missing values that are
    left are those before the first value (linear, ffill, pad) or after the
    last value (bfill). *)
Lemma interpolate_column_short series method (max_gap : Z) :
  method ≠ none →
  is_numeric series = true →
  (Z.of_nat (longest_nan_run series) ≤ max_gap)%Z →
  ∃ series', interpolate_column series method max_gap = Ok series' ∧
             nan_count series'
             = match method with
               | bfill => trailing_nans series
               | _ => leading_nans series
               end.
Proof.
  intros Hm Hnum Hrun. unfold interpolate_column.
  rewrite get_consecutive_lengths_max. fold (longest_nan_run series).
  destruct (Z.leb_spec (Z.of_nat (longest_nan_run series)) max_gap); [|lia].
  rewrite orb_true_r.
  assert (longest_run_from 0 (isna <$> series) ≤ Z.to_nat max_gap) as Hlimit.
  { unfold longest_nan_run in Hrun. lia. }
  destruct method; simpl; [done| | | |].
  - unfold interpolate_linear. rewrite numeric_no_str by done.
    eexists. split; [done|]. by apply interpolate_from_leading.
  - eexists. split; [done|]. by apply ffill_from_leading.
  - eexists. split; [done|]. by apply bfill_from_trailing.
  - eexists. split; [done|]. by apply ffill_from_leading.
Qed.

(** A column with a gap longer than [max_gap] takes the second branch, and
    comes back as it was. *)
Lemma interpolate_column_long series method (max_gap : Z) :
  nan_count series ≠ 0 →
  (max_gap < Z.of_nat (longest_nan_run series))%Z →
  interpolate_column series method max_gap = Ok series.
Proof.
  intros Hnan Hrun. unfold interpolate_column.
  pose proof (get_consecutive_lengths_max (isna <$> series)) as Hmax.
  pose proof (longest_run_some _ (nan_count_mask _ Hnan)) as Hone.
  fold (longest_nan_run series) in Hmax, Hone.
  rewrite Hmax.
  case_bool_decide as Hnil.
  { rewrite Hnil in Hmax. simpl in Hmax. lia. }
  destruct (Z.leb_spec (Z.of_nat (longest_nan_run series)) max_gap); [lia|].
  simpl. apply interpolate_small_gaps_same.
Qed.

(** *** The loop over the columns *)

Lemma interpolate_column_numeric series method (max_gap : Z) :
  is_numeric series = true →
  ∃ series', interpolate_column series method max_gap = Ok series'.
Proof.
  intros Hnum. unfold interpolate_column.
  destruct (_ || _).
  - destruct method; simpl; eauto.
    unfold interpolate_linear. rewrite numeric_no_str by done. eauto.
  - rewrite interpolate_small_gaps_same. eauto.
Qed.

Lemma get_col_set_col df (col c : string) series :
  get_col (set_col df col series) c
  = if decide (c = col) then (λ _, series) <$> get_col df c else get_col df c.
Proof.
  unfold set_col. induction df as [|[c' s] df IH]; simpl; unfold fmap in *.
  - by destruct (decide (c = col)).
  - destruct (decide (c' = col)) as [->|Hne]; simpl.
    + destruct (decide (col = c)) as [->|Hne'].
      * by rewrite decide_True.
      * rewrite IH. by rewrite decide_False by done.
    + destruct (decide (c' = c)) as [->|Hne'].
      * by rewrite decide_False by done.
      * apply IH.
Qed.

Lemma interpolate_fold method (max_gap : Z) (cols : list string) :
  NoDup cols →
  ∀ df (total : Z),
    (∀ col s0, col ∈ cols → get_col df col = Some s0 → is_numeric s0 = true) →
    ∃ df' total',
      foldl (interpolate_step method max_gap) (Ok (df, total)) cols = Ok (df', total') ∧
      ∀ c s0, get_col df c = Some s0 →
        ∃ s', get_col df' c = Some s' ∧
              if decide (c ∈ cols) then column_step method max_gap s0 = Ok s'
              else s' = s0.
Proof.
  induction 1 as [|col cols Hnin Hnd IH]; intros df total Hnum.
  { exists df, total. split; [done|]. intros c s0 Hc. exists s0. by split. }
  simpl.
  assert (∀ col' s0, col' ∈ cols → get_col df col' = Some s0 → is_numeric s0 = true)
    as Hnum' by (intros col' s0 Hin; apply Hnum; by right).
  destruct (get_col df col) as [s1|] eqn:Hcol.
  2:{ destruct (IH df total Hnum') as (df' & total' & Hfold & Hcols).
      exists df', total'. split; [done|]. intros c s0 Hc.
      destruct (Hcols c s0 Hc) as (s' & Hs' & Hstep). exists s'. split; [done|].
      assert (c ≠ col) by congruence.
      destruct (decide (c ∈ cols)) as [Hin|Hin].
      - rewrite decide_True by (by right). done.
      - rewrite decide_False; [done|]. by intros [?|?]%elem_of_cons. }
  case_bool_decide as Hnan.
  { destruct (IH df total Hnum') as (df' & total' & Hfold & Hcols).
    exists df', total'. split; [done|]. intros c s0 Hc.
    destruct (Hcols c s0 Hc) as (s' & Hs' & Hstep). exists s'. split; [done|].
    destruct (decide (c = col)) as [->|Hne].
    - rewrite decide_True by (by left). rewrite decide_False in Hstep by done.
      subst s'. assert (s0 = s1) as -> by congruence.
      unfold column_step. by rewrite bool_decide_true.
    - destruct (decide (c ∈ cols)) as [Hin|Hin].
      + rewrite decide_True by (by right). done.
      + rewrite decide_False; [done|]. by intros [?|?]%elem_of_cons. }
  destruct (interpolate_column_numeric s1 method max_gap) as [s2 Hs2].
  { apply (Hnum col); [by left | done]. }
  rewrite Hs2.
  destruct (IH (set_col df col s2)
              (total + (Z.of_nat (nan_count s1) - Z.of_nat (nan_count s2)))%Z)
    as (df' & total' & Hfold & Hcols).
  { intros col' s0 Hin. rewrite get_col_set_col.
    rewrite decide_False by (intros ->; done). by apply Hnum'. }
  exists df', total'. split; [done|]. intros c s0 Hc.
  destruct (decide (c = col)) as [->|Hne].
  - destruct (Hcols col s2) as (s' & Hs' & Hstep).
    { by rewrite get_col_set_col, decide_True, Hcol. }
    exists s'. split; [done|].
    rewrite decide_False in Hstep by done. subst s'.
    rewrite decide_True by (by left). assert (s0 = s1) as -> by congruence.
    unfold column_step. by rewrite bool_decide_false.
  - destruct (Hcols c s0) as (s' & Hs' & Hstep).
    { by rewrite get_col_set_col, decide_False. }
    exists s'. split; [done|].
    destruct (decide (c ∈ cols)) as [Hin|Hin].
    + rewrite decide_True by (by right). done.
    + rewrite decide_False; [done|]. by intros [?|?]%elem_of_cons.
Qed.

Lemma get_col_elem df (c : string) series : get_col df c = Some series → (c, series) ∈ df.
Proof.
  induction df as [|[c' s] df IH]; simpl; [done|].
  destruct (decide (c' = c)) as [->|Hne].
  - intros [= ->]. by left.
  - intros H. right. by apply IH.
Qed.

Lemma get_col_NoDup df (c : string) series :
  NoDup (columns df) → (c, series) ∈ df → get_col df c = Some series.
Proof.
  unfold columns. induction df as [|[c' s] df IH]; simpl.
  - by intros _ ?%elem_of_nil.
  - intros [Hnin Hnd]%NoDup_cons [[= -> ->]|Hin]%elem_of_cons.
    + by rewrite decide_True.
    + rewrite decide_False; [by apply IH|].
      intros ->. apply Hnin. by apply (list_elem_of_fmap_2 fst) in Hin.
Qed.

Lemma NoDup_columns_filter (P : string * Series Q → Prop) `{∀ p, Decision (P p)} df :
  NoDup (columns df) → NoDup (columns (filter P df)).
Proof.
  unfold columns. induction df as [|p df IH]; simpl; [done|].
  intros [Hnin Hnd]%NoDup_cons. rewrite filter_cons.
  destruct (decide (P p)); [|by apply IH].
  simpl. apply NoDup_cons. split; [|by apply IH].
  intros (q & Hq & [_ Hin]%list_elem_of_filter)%list_elem_of_fmap.
  apply Hnin. rewrite Hq. by apply list_elem_of_fmap_2.
Qed.

Lemma leading_le_nan_count series : leading_nans series ≤ nan_count series.
Proof.
  induction series as [|[|v|s] rest IH]; simpl; try lia.
  rewrite nan_count_cons. simpl. lia.
Qed.

Lemma trailing_le_nan_count series : trailing_nans series ≤ nan_count series.
Proof.
  induction series as [|c rest IH]; simpl; [lia|].
  rewrite nan_count_cons.
  destruct (isna c) eqn:Hc; simpl; [|lia].
  destruct (forallb isna rest) eqn:Hall; [|lia].
  rewrite <- (trailing_all_nan rest Hall). lia.
Qed.

Lemma longest_run_contains (cur n : nat) (pre post : list bool) :
  n ≤ longest_run_from cur (pre ++ replicate n true ++ post).
Proof.
  revert cur. induction pre as [|[] pre IH]; intros cur; simpl.
  - assert (cur + n ≤ longest_run_from cur (replicate n true ++ post)); [|lia].
    revert cur. induction n as [|n IHn]; intros cur; simpl.
    + pose proof (longest_run_from_ge cur post). lia.
    + specialize (IHn (S cur)). lia.
  - apply IH.
  - specialize (IH 0). lia.
Qed.

Lemma nan_count_replicate (n : nat) : nan_count (replicate n NaN) = n.
Proof. induction n as [|n IH]; [done|]. simpl. rewrite nan_count_cons, IH. done. Qed.

(** C5 (as amended). Let [series] be a numeric column of the table other
    than the time column, and let the method be linear, ffill, pad or bfill.
    [interpolate_time_gaps] (on all numeric columns) returns a table with a
    column [series'] under the same label such that:
    - if the longest run of missing values of [series] is at most [max_gap],
      the missing values left in [series'] are as many as the missing values
      at the start of [series] (linear, ffill, pad), or at its end (bfill):
      none when the column starts (ends) with a value;
    - if [series] has a run of [n > max_gap] missing values, the column comes
      back unchanged, so at least [n - max_gap] missing values remain in that
      run. *)
Theorem interpolate_time_gaps_nulls df (time_col : string) method (max_gap : Z)
    (c : string) series :
  NoDup (columns df) →
  get_col df c = Some series →
  is_numeric series = true →
  c ≠ time_col →
  method ≠ none →
  ∃ df' total_filled series',
    interpolate_time_gaps df time_col method max_gap None = Ok (df', total_filled) ∧
    get_col df' c = Some series' ∧
    ((Z.of_nat (longest_nan_run series) ≤ max_gap)%Z →
       nan_count series'
       = match method with
         | bfill => trailing_nans series
         | _ => leading_nans series
         end) ∧
    (∀ pre (n : nat) post,
       series = pre ++ replicate n NaN ++ post →
       (max_gap < Z.of_nat n)%Z →
       series' = series ∧
       n - Z.to_nat max_gap ≤ nan_count (take n (drop (length pre) series'))).
Proof.
  intros Hnd Hcol Hnum Htime Hm.
  set (cols := filter (λ c, c ≠ time_col)
                 (filter (λ p : string * Series Q, is_numeric p.2 = true) df).*1).
  assert (interpolate_time_gaps df time_col method max_gap None
          = foldl (interpolate_step method max_gap) (Ok (df, 0%Z)) cols) as ->.
  { by destruct method. }
  destruct (interpolate_fold method max_gap cols) with (df := df) (total := 0%Z)
    as (df' & total' & -> & Hcols).
  { apply NoDup_filter. by apply NoDup_columns_filter. }
  { intros col s0 [_ Hin]%list_elem_of_filter Hs0.
    apply list_elem_of_fmap in Hin as ([col' s1] & -> & [Hs1 Hin]%list_elem_of_filter).
    simpl in *. apply (get_col_NoDup df col' s1 Hnd) in Hin. congruence. }
  destruct (Hcols c series Hcol) as (series' & Hs' & Hstep).
  rewrite decide_True in Hstep.
  2:{ apply list_elem_of_filter. split; [done|].
      apply list_elem_of_fmap. exists (c, series). split; [done|].
      apply list_elem_of_filter. split; [done | by apply get_col_elem]. }
  exists df', total', series'. split; [done|]. split; [done|].
  unfold column_step in Hstep. split.
  - intros Hshort. case_bool_decide as Hnan.
    + injection Hstep as <-.
      pose proof (leading_le_nan_count series). pose proof (trailing_le_nan_count series).
      destruct method; lia.
    + destruct (interpolate_column_short series method max_gap Hm Hnum Hshort)
        as (s2 & Hs2 & Hcount).
      congruence.
  - intros pre n post Hrun Hlong.
    assert (series' = series) as ->.
    { case_bool_decide as Hnan; [congruence|].
      rewrite interpolate_column_long in Hstep; [congruence|done|].
      unfold longest_nan_run. rewrite Hrun, !fmap_app, fmap_replicate. simpl.
      pose proof (longest_run_contains 0 n (isna <$> pre) (isna <$> post)). lia. }
    split; [done|].
    rewrite Hrun, drop_app_length, take_app_length'
      by (by rewrite length_replicate).
    rewrite nan_count_replicate. lia.
Qed.

End interpolation_theory.

(** *** Interpolation on concrete tables *)

(** C5, as stated, fails: with the default linear method and [max_gap = 5],
    the single missing value at the start of [watts] (a run of length 1) is
    still missing after interpolation. *)
Lemma interpolate_time_gaps_counterexample :
  ¬ (∀ (df : DataFrame QArith_base.Q) (time_col : string)
       (method : interpolation.InterpolationMethod) (max_gap : Z) (c : string)
       (series : Series QArith_base.Q) df' (total_filled : Z) series',
       get_col df c = Some series →
       interpolation.is_numeric series = true →
       (Z.of_nat (longest_nan_run series) ≤ max_gap)%Z →
       interpolation.interpolate_time_gaps df time_col method max_gap None
       = Ok (df', total_filled) →
       get_col df' c = Some series' →
       interpolation.nan_count series' = 0).
Proof.
  intros H.
  specialize (H watts_late "secs" interpolation.linear 5%Z "watts"
                [NaN; q 150; q 160]
                [("secs", [q 0; q 1; q 2]); ("watts", [NaN; q 150; q 160])]
                0%Z [NaN; q 150; q 160]
                eq_refl eq_refl ltac:(vm_compute; discriminate) eq_refl eq_refl).
  vm_compute in H. discriminate H.
Qed.

Lemma interpolate_time_gaps_nulls_witness :
  ∃ df' total_filled series',
    interpolation.interpolate_time_gaps watts_gap "secs" interpolation.linear 3 None
    = Ok (df', total_filled) ∧
    get_col df' "watts" = Some series' ∧
    interpolation.nan_count series' = 0.
Proof.
  destruct (interpolate_time_gaps_nulls watts_gap "secs" interpolation.linear 3 "watts"
              [q 100; NaN; NaN; q 160; q 170]
              ltac:(compute_done) eq_refl eq_refl ltac:(done) ltac:(done))
    as (df' & total_filled & series' & Hrun & Hcol & Hshort & _).
  exists df', total_filled, series'. split; [exact Hrun|]. split; [exact Hcol|].
  apply Hshort. vm_compute. discriminate.
Defined.

(** * Further properties

    Properties of the same modules beyond the claims: the gap detector's
    early exit, the validator's verdict, the tail trim, the shape of the
    merged table, files that add nothing, and what interpolation keeps. *)

(** ** The gap detector and the legacy validator (utils.py, integrity.py) *)
Section gap_decision.
Context {V : Type}.
Implicit Types (mask : list bool) (series : Series V) (df : DataFrame V).

Lemma longest_run_from_le_count cur mask :
  longest_run_from cur mask ≤ cur + length (filter (λ b, b = true) mask).
Proof.
  revert cur. induction mask as [|[] mask IH]; intros cur.
  - simpl. lia.
  - rewrite filter_cons_True by done. simpl. specialize (IH (S cur)). lia.
  - rewrite filter_cons_False by done. simpl. specialize (IH 0). lia.
Qed.

Lemma longest_null_run_le_total series :
  longest_null_run series ≤ null_total series.
Proof.
  unfold longest_null_run. rewrite <- null_total_mask.
  apply (longest_run_from_le_count 0).
Qed.

Lemma null_total_le_length series : null_total series ≤ length series.
Proof. unfold null_total. apply length_filter. Qed.

Lemma gap_between_run_and_total series (threshold : option Z) :
  let t := default DEFAULT_GAP_THRESHOLD threshold in
  let r := check_consecutive_nans_optimized series threshold in
  (Z.of_nat (longest_null_run series) ≤ r ≤ Z.of_nat (null_total series))%Z ∧
  ((t ≤ r)%Z ↔ (t ≤ Z.of_nat (longest_null_run series))%Z).
Proof.
  intros t r. subst r. rewrite check_consecutive_nans_optimized_value. fold t.
  pose proof (longest_null_run_le_total series).
  simpl. repeat case_decide; lia.
Qed.

(** X1. The early exit of [check_consecutive_nans_optimized] never hides a
    gap: the returned number lies between the longest run of nulls and the
    number of nulls of the column (itself at most the column's length), and
    it reaches the threshold exactly when the longest run does. *)
Theorem check_consecutive_nans_optimized_decides series (threshold : option Z) :
  let t := default DEFAULT_GAP_THRESHOLD threshold in
  let r := check_consecutive_nans_optimized series threshold in
  (Z.of_nat (longest_null_run series) ≤ r ≤ Z.of_nat (null_total series))%Z ∧
  null_total series ≤ length series ∧
  ((t ≤ r)%Z ↔ (t ≤ Z.of_nat (longest_null_run series))%Z).
Proof.
  intros t r.
  destruct (gap_between_run_and_total series threshold) as [Hr Ht].
  split; [exact Hr|]. split; [apply null_total_le_length | exact Ht].
Qed.

Lemma column_issues_nil self (c : string) series :
  column_issues self c series = []
  ↔ (Z.of_nat (longest_null_run series) < gap_threshold self)%Z.
Proof.
  unfold column_issues.
  destruct (gap_between_run_and_total series (Some (gap_threshold self))) as [_ Ht].
  simpl in Ht. case_match eqn:Hle.
  - apply Z.leb_le in Hle. split; [done|]. lia.
  - apply Z.leb_gt in Hle. split; [|done]. lia.
Qed.

Lemma get_col_columns df (c : string) series :
  get_col df c = Some series → c ∈ columns df.
Proof.
  induction df as [|[c' s] df IH]; simpl; [done|].
  case_decide; intros ?; simplify_eq; [left|right; auto].
Qed.

(** X2. The verdict of [validate]: no issue is reported exactly when every
    column's longest run of nulls is below the validator's threshold; and
    every issue reported names a column whose longest run reaches the
    threshold, with the number the gap detector returned for it. *)
Theorem validate_passes_iff self df :
  (validate self df = []
   ↔ ∀ c series, get_col df c = Some series →
       (Z.of_nat (longest_null_run series) < gap_threshold self)%Z) ∧
  (∀ issue, issue ∈ validate self df →
     ∃ c series, get_col df c = Some series ∧
       (gap_threshold self ≤ Z.of_nat (longest_null_run series))%Z ∧
       issue = gap_issue c
                 (check_consecutive_nans_optimized series (Some (gap_threshold self)))).
Proof.
  rewrite validate_flat. split.
  - split.
    + intros Hnil c series Hc.
      apply column_issues_nil with (c := c).
      assert (Hin : from_option (column_issues self c) [] (get_col df c)
                    ∈ (λ col, from_option (column_issues self col) [] (get_col df col))
                      <$> columns df).
      { apply list_elem_of_fmap. exists c. split; [done|].
        by apply get_col_columns in Hc. }
      rewrite Hc in Hin. simpl in Hin.
      destruct (column_issues self c series) as [|i l] eqn:E; [done|].
      exfalso. apply list_elem_of_split in Hin as (l1 & l2 & Hl).
      rewrite Hl, join_app in Hnil. simpl in Hnil.
      by destruct (mjoin l1).
    + intros Hall. induction (columns df) as [|c cols IH]; [done|].
      rewrite fmap_cons. simpl. rewrite IH, app_nil_r.
      destruct (get_col df c) as [series|] eqn:Hc; [|done]. simpl.
      apply (column_issues_nil self c series). by apply (Hall c).
  - intros issue (l & Hissue & Hl)%list_elem_of_join.
    apply list_elem_of_fmap in Hl as (c & -> & Hc).
    destruct (get_col df c) as [series|] eqn:Hs; simpl in Hissue;
      [|by apply elem_of_nil in Hissue].
    exists c, series. split; [done|].
    unfold column_issues in Hissue.
    destruct (gap_between_run_and_total series (Some (gap_threshold self))) as [_ Ht].
    simpl in Ht. case_match eqn:Hle; [|by apply elem_of_nil in Hissue].
    apply Z.leb_le in Hle. apply list_elem_of_singleton in Hissue. split; [lia|done].
Qed.

End gap_decision.

Lemma validate_passes_iff_witness :
  ∃ c series,
    get_col [("secs", [Num 0; Num 1; Num 2]%Z); ("smo2", [NaN; Str ""; Num 60]%Z)] c
    = Some series ∧
    (2 ≤ Z.of_nat (longest_null_run series))%Z.
Proof.
  destruct (proj2 (validate_passes_iff (new_validator (Some 2%Z) false false)
                     [("secs", [Num 0; Num 1; Num 2]%Z);
                      ("smo2", [NaN; Str ""; Num 60]%Z)])
              "Kolumna 'smo2': 2 pustych wierszy z rzędu")
    as (c & series & Hcol & Hrun & _).
  - vm_compute. by left.
  - by exists c, series.
Defined.

(** ** The tail trim and the merged table (merger.py) *)
Section tail_theory.
Context {V : Type}.
Implicit Types (df base d : DataFrame V) (fs : string → option (DataFrame V)).

Lemma filter_seq_S (P : nat → Prop) `{∀ i, Decision (P i)} (n : nat) :
  filter P (seq 0 (S n)) = filter P (seq 0 n) ++ (if decide (P n) then [n] else []).
Proof.
  rewrite seq_S, filter_app. by f_equal.
Qed.

Lemma last_filter_seq (P : nat → Prop) `{∀ i, Decision (P i)} (n : nat) :
  match last (filter P (seq 0 n)) with
  | Some l => l < n ∧ P l ∧ ∀ i, l < i < n → ¬ P i
  | None => ∀ i, i < n → ¬ P i
  end.
Proof.
  induction n as [|n IH].
  - simpl. intros i Hi. lia.
  - rewrite filter_seq_S. destruct (decide (P n)) as [Hn|Hn].
    + rewrite last_snoc. split; [lia|]. split; [done|]. intros i Hi. lia.
    + rewrite app_nil_r. destruct (last (filter P (seq 0 n))) as [l|].
      * destruct IH as (Hl & HP & Hafter). split; [lia|]. split; [done|].
        intros i Hi. destruct (decide (i = n)) as [->|]; [done|].
        apply Hafter. lia.
      * intros i Hi. destruct (decide (i = n)) as [->|]; [done|].
        apply IH. lia.
Qed.

Lemma filter_seq_last (P : nat → Prop) `{∀ i, Decision (P i)} (n k : nat) :
  k < n → P k → (∀ i, k < i < n → ¬ P i) →
  last (filter P (seq 0 n)) = Some k.
Proof.
  intros Hk HP Hafter. pose proof (last_filter_seq P n) as Hlast.
  destruct (last (filter P (seq 0 n))) as [l|].
  - destruct Hlast as (Hl & HPl & Hafterl). f_equal.
    destruct (decide (l < k)); [by destruct (Hafterl k)|].
    destruct (decide (k < l)); [by destruct (Hafter l)|]. lia.
  - by destruct (Hlast k).
Qed.

Lemma row_complete_lookup df (i : nat) (c : string) (s : Series V) :
  row_complete df i = true → (c, s) ∈ df → i < length s.
Proof.
  unfold row_complete. rewrite forallb_forall. intros Hall Hin.
  apply list_elem_of_In in Hin. specialize (Hall _ Hin). simpl in Hall.
  destruct (s !! i) eqn:E; [|done]. by apply lookup_lt_Some in E.
Qed.

Lemma row_complete_take df (n i : nat) :
  i < n → row_complete (prod_map id (take n) <$> df) i = row_complete df i.
Proof.
  intros Hi. unfold row_complete.
  induction df as [|[c s] df IH]; [done|].
  rewrite fmap_cons. simpl. rewrite IH. by rewrite lookup_take_lt.
Qed.

Lemma nrows_take df (n : nat) :
  df ≠ [] → (∀ c s, (c, s) ∈ df → n ≤ length s) →
  nrows (prod_map id (take n) <$> df) = n.
Proof.
  intros Hne Hle. unfold nrows.
  induction df as [|[c s] df IH]; [done|].
  rewrite !fmap_cons. simpl. rewrite length_take.
  assert (n ≤ length s) by (apply (Hle c); by left).
  destruct df as [|p df].
  - simpl. lia.
  - rewrite IH; [lia|done|]. intros c' s' Hin. apply (Hle c'). by right.
Qed.

(** The tail trim, given the last complete row. *)
Lemma trim_tail_at df (l : nat) :
  last (complete_indices df) = Some l →
  l < nrows df ∧ row_complete df l = true ∧
  (∀ i, l < i < nrows df → row_complete df i = false) ∧
  (_validate_and_trim_tail df).1 = prod_map id (take (l + 1)) <$> df.
Proof.
  intros Hlast.
  pose proof (last_filter_seq (λ i, row_complete df i = true) (nrows df)) as Hspec.
  unfold complete_indices in Hlast. rewrite Hlast in Hspec.
  destruct Hspec as (Hl & Hc & Hafter).
  split; [done|]. split; [done|]. split.
  { intros i Hi. specialize (Hafter i Hi). by destruct (row_complete df i). }
  rewrite trim_tail_map. unfold tail_col, complete_indices. rewrite Hlast.
  case_bool_decide as Hrem; [|done].
  apply list_fmap_ext. intros j [c s] Hj. simpl. f_equal.
  apply list_elem_of_lookup_2 in Hj.
  pose proof (length_le_nrows _ _ _ Hj). rewrite take_ge; [done|lia].
Qed.

Lemma trim_tail_none df :
  last (complete_indices df) = None → (_validate_and_trim_tail df).1 = df.
Proof. intros Hlast. unfold _validate_and_trim_tail. by rewrite Hlast. Qed.

Lemma trim_tail_shape df (l : nat) :
  last (complete_indices df) = Some l →
  let df' := (_validate_and_trim_tail df).1 in
  nrows df' = l + 1 ∧ row_complete df' l = true ∧
  last (complete_indices df') = Some l.
Proof.
  intros Hlast df'.
  destruct (trim_tail_at df l Hlast) as (Hl & Hc & Hafter & Hmap).
  subst df'. rewrite Hmap.
  assert (Hn : nrows (prod_map id (take (l + 1)) <$> df) = l + 1).
  { apply nrows_take.
    - intros ->. unfold nrows in Hl. simpl in Hl. lia.
    - intros c s Hin. pose proof (row_complete_lookup df l c s Hc Hin). lia. }
  assert (Hrow : row_complete (prod_map id (take (l + 1)) <$> df) l = true).
  { rewrite row_complete_take; [done|lia]. }
  split; [done|]. split; [done|].
  unfold complete_indices. rewrite Hn.
  apply (filter_seq_last (λ i, row_complete _ i = true)); [lia|done|].
  intros i Hi. lia.
Qed.

(** X3. The tail trim.  When row [l] is the last complete row of the table
    (a cell is missing when it is NaN or a blank string), the trimmed table
    has the same labels, exactly [l + 1] rows, each column cut to its first
    [l + 1] cells, and the completeness of the rows kept is unchanged (so the
    last row kept is complete). *)
Theorem validate_and_trim_tail_spec df (l : nat) :
  l < nrows df →
  row_complete df l = true →
  (∀ i, l < i < nrows df → row_complete df i = false) →
  let df' := (_validate_and_trim_tail df).1 in
  columns df' = columns df ∧
  nrows df' = l + 1 ∧
  (∀ j c s, df !! j = Some (c, s) → df' !! j = Some (c, take (l + 1) s)) ∧
  (∀ i, i ≤ l → row_complete df' i = row_complete df i).
Proof.
  intros Hl Hc Hafter df'.
  assert (Hlast : last (complete_indices df) = Some l).
  { apply (filter_seq_last (λ i, row_complete df i = true)); [done..|].
    intros i Hi. rewrite (Hafter i Hi). done. }
  destruct (trim_tail_at df l Hlast) as (_ & _ & _ & Hmap).
  destruct (trim_tail_shape df l Hlast) as (Hn & _ & _).
  subst df'. split; [|split; [done|split]].
  - rewrite Hmap. apply columns_fmap.
  - intros j c s Hj. rewrite Hmap, list_lookup_fmap, Hj. done.
  - intros i Hi. rewrite Hmap. apply row_complete_take. lia.
Qed.

(** X4. The tail trim is idempotent: trimming a trimmed table changes
    nothing. *)
Theorem validate_and_trim_tail_idempotent df :
  (_validate_and_trim_tail (_validate_and_trim_tail df).1).1
  = (_validate_and_trim_tail df).1.
Proof.
  destruct (last (complete_indices df)) as [l|] eqn:Hlast.
  - destruct (trim_tail_shape df l Hlast) as (Hn & _ & Hlast').
    destruct (trim_tail_at _ l Hlast') as (_ & _ & _ & Hmap).
    rewrite Hmap. etrans; [|apply list_fmap_id].
    apply list_fmap_ext. intros j [c s] Hj. simpl. f_equal.
    apply list_elem_of_lookup_2 in Hj.
    pose proof (length_le_nrows _ _ _ Hj). rewrite take_ge; [done|lia].
  - by rewrite !trim_tail_none; rewrite ?trim_tail_none.
Qed.

End tail_theory.

Lemma validate_and_trim_tail_witness :
  (_validate_and_trim_tail
     [("secs", [Num 0; Num 1; Num 2; Num 3]%Z);
      ("smo2", [NaN; Num 65; Str " "; NaN]%Z)]).1
  !! 1 = Some ("smo2", [NaN; Num 65]%Z).
Proof.
  destruct (validate_and_trim_tail_spec
              [("secs", [Num 0; Num 1; Num 2; Num 3]%Z);
               ("smo2", [NaN; Num 65; Str " "; NaN]%Z)] 1)
    as (_ & _ & Hrows & _).
  - vm_compute. lia.
  - reflexivity.
  - intros i Hi. vm_compute in Hi.
    assert (i = 2 ∨ i = 3) as [-> | ->] by lia; reflexivity.
  - exact (Hrows 1 "smo2" _ eq_refl).
Defined.

Section merge_more.
Context {V : Type}.
Implicit Types (df base d : DataFrame V) (st : batch (V:=V)) (seen : gset string).
Implicit Types (ui : UserInterface).
Implicit Types (fs : string → option (DataFrame V)) (files : list string).

Lemma columns_relabel (f : string * Series V → string * Series V) df :
  (∀ p, (f p).1 = p.1) → columns (f <$> df) = columns df.
Proof.
  intros Hf. unfold columns. rewrite <- list_fmap_compose.
  apply list_fmap_ext. intros i p _. apply Hf.
Qed.

Lemma columns_trims ui (validate_head validate_tail : bool) df :
  columns (trims ui validate_head validate_tail df) = columns df.
Proof.
  unfold trims.
  assert (Hh : columns (_validate_and_trim_head ui df).1 = columns df).
  { rewrite trim_head_map. apply columns_relabel. intros p. unfold head_col.
    destruct (complete_indices df); [done|].
    case_bool_decide; [done|]. by destruct (ask_yes_no ui _). }
  assert (Ht : ∀ d, columns (_validate_and_trim_tail d).1 = columns d).
  { intros d. rewrite trim_tail_map. apply columns_relabel. intros p.
    unfold tail_col. destruct (last _); [|done]. by case_bool_decide. }
  destruct validate_head, validate_tail; by rewrite ?Ht, ?Hh.
Qed.

Lemma columns_concat (dfs : list (DataFrame V)) :
  columns (concat_axis1 dfs) = columns (mjoin dfs).
Proof. unfold concat_axis1. apply columns_fmap. Qed.

Lemma NoDup_new_columns seen df :
  NoDup (columns df) → NoDup (columns (new_columns seen df)).
Proof.
  unfold columns, new_columns. induction df as [|p df IH]; simpl; [done|].
  intros [Hnin Hnd]%NoDup_cons. rewrite filter_cons.
  destruct (decide (p.1 ∉ seen)); [|by apply IH].
  simpl. apply NoDup_cons. split; [|by apply IH].
  intros (q & Hq & [_ Hin]%list_elem_of_filter)%list_elem_of_fmap.
  apply Hnin. rewrite Hq. by apply list_elem_of_fmap_2.
Qed.

Lemma merge_foldl_NoDup fs (todo : list string) st :
  (∀ p d, p ∈ todo → fs p = Some d → NoDup (columns d)) →
  (∀ c, c ∈ seen_columns st ↔ c ∈ columns (mjoin (all_dfs st))) →
  NoDup (columns (mjoin (all_dfs st))) →
  NoDup (columns (mjoin (all_dfs (foldl (merge_step fs) st todo)))).
Proof.
  revert st. induction todo as [|p todo IH]; intros st Hsrc Hseen Hnd; [done|].
  simpl. apply IH.
  - intros q d Hq. apply Hsrc. by right.
  - apply (merge_foldl_seen fs [p] st Hseen).
  - destruct (merge_step_frames fs st p) as [-> _].
    rewrite join_app, columns_app. apply NoDup_app. split; [done|]. split.
    + intros c Hc Hc'. apply contribution_columns in Hc' as (d & _ & _ & Hfresh).
      apply Hfresh. by apply Hseen.
    + unfold contribution. destruct (fs p) as [d|] eqn:Hfs; [|apply NoDup_nil_2].
      destruct (empty _ || bool_decide _); [apply NoDup_nil_2|].
      simpl. rewrite app_nil_r. apply NoDup_new_columns.
      apply (Hsrc p); [by left|done].
Qed.

(** X5. When the base and every readable clean file have distinct column
    labels, the merged table has distinct column labels, whatever the
    trims; and each of its labels is a label of the base or of a clean file
    that was read. *)
Theorem merge_files_labels_distinct ui fs base files
    (validate_head validate_tail : bool) :
  NoDup (columns base) →
  (∀ p d, p ∈ files → fs p = Some d → NoDup (columns d)) →
  let merged := (merge_files ui fs base files validate_head validate_tail).1 in
  NoDup (columns merged) ∧
  (∀ c, c ∈ columns merged →
     c ∈ columns base ∨ ∃ p d, p ∈ files ∧ fs p = Some d ∧ c ∈ columns d).
Proof.
  intros Hbase Hsrc merged. subst merged.
  rewrite merge_files_trims, columns_trims, columns_concat. split.
  - apply merge_foldl_NoDup; simpl; [done| |by rewrite app_nil_r].
    intros c. by rewrite app_nil_r, elem_of_list_to_set.
  - intros c Hc.
    destruct (merge_batch_frames fs base files) as (kept & Hk & Hall).
    rewrite Hk in Hc. simpl in Hc. rewrite columns_app in Hc.
    apply elem_of_app in Hc as [Hc|Hc]; [by left|right].
    unfold columns in Hc.
    apply list_elem_of_fmap in Hc as ([c' s] & -> & Hin).
    apply list_elem_of_join in Hin as (d & Hin & Hd).
    rewrite Forall_forall in Hall. destruct (Hall d Hd) as (_ & p & dn & seen & Hp & Hfs & ->).
    exists p, dn. split; [done|]. split; [done|].
    apply list_elem_of_filter in Hin as [_ Hin].
    by apply (list_elem_of_fmap_2 fst) in Hin.
Qed.


(** The merged table is a proper table. *)
Lemma rectangular_concat (dfs : list (DataFrame V)) : rectangular (concat_axis1 dfs).
Proof.
  intros c s Hin. rewrite nrows_concat, nrows_join.
  unfold concat_axis1 in Hin.
  apply list_elem_of_fmap in Hin as ([c' s'] & [= -> ->] & Hin).
  rewrite length_pad. pose proof (length_le_nrows _ _ _ Hin).
  rewrite nrows_join. lia.
Qed.

Lemma rectangular_trim_head ui df :
  rectangular df → rectangular (_validate_and_trim_head ui df).1.
Proof.
  intros Hrect. rewrite trim_head_map. unfold head_col.
  destruct (complete_indices df) as [|k ci]; [by rewrite list_fmap_id|].
  case_bool_decide; [by rewrite list_fmap_id|].
  destruct (ask_yes_no ui k); simpl; [|by rewrite list_fmap_id].
  intros c s Hin. rewrite nrows_head_shifted.
  apply list_elem_of_fmap in Hin as ([c' s'] & [= -> ->] & Hin).
  simpl. destruct (is_time_column c'); rewrite ?length_shift_up; by apply (Hrect c').
Qed.

Lemma rectangular_trim_tail df :
  rectangular df → rectangular (_validate_and_trim_tail df).1.
Proof.
  intros Hrect.
  destruct (last (complete_indices df)) as [l|] eqn:Hlast.
  - destruct (trim_tail_shape df l Hlast) as (Hn & _ & _).
    destruct (trim_tail_at df l Hlast) as (Hl & Hc & _ & Hmap).
    intros c s Hin. rewrite Hn. rewrite Hmap in Hin.
    apply list_elem_of_fmap in Hin as ([c' s'] & [= -> ->] & Hin).
    rewrite length_take. pose proof (row_complete_lookup df l c' s' Hc Hin). lia.
  - by rewrite trim_tail_none.
Qed.

(** X6. The result of [merge_files] is a proper table: every column has
    exactly as many cells as the table has rows, with or without the
    trims, whatever the lengths of the sources. *)
Theorem merge_files_rectangular ui fs base files (validate_head validate_tail : bool) :
  let merged := (merge_files ui fs base files validate_head validate_tail).1 in
  ∀ c s, (c, s) ∈ merged → length s = nrows merged.
Proof.
  intros merged. change (rectangular merged). subst merged.
  rewrite merge_files_trims. unfold trims.
  pose proof (rectangular_concat (all_dfs (merge_batch fs base files))) as Hrect.
  destruct validate_head, validate_tail;
    auto using rectangular_trim_head, rectangular_trim_tail.
Qed.

(** Files that add nothing. *)
Lemma merge_foldl_data fs (todo : list string) st st' :
  all_dfs st = all_dfs st' → seen_columns st = seen_columns st' →
  all_dfs (foldl (merge_step fs) st todo) = all_dfs (foldl (merge_step fs) st' todo).
Proof.
  revert st st'. induction todo as [|p todo IH]; intros st st' Hd Hs; [done|].
  simpl. destruct (merge_step_frames fs st p) as [Hd1 Hs1].
  destruct (merge_step_frames fs st' p) as [Hd2 Hs2].
  apply IH; [by rewrite Hd1, Hd2, Hd, Hs|by rewrite Hs1, Hs2, Hs].
Qed.

Lemma merge_foldl_seen_grows fs (todo : list string) st c :
  c ∈ seen_columns st → c ∈ seen_columns (foldl (merge_step fs) st todo).
Proof.
  revert st. induction todo as [|p todo IH]; intros st Hc; [done|].
  simpl. apply IH. destruct (merge_step_frames fs st p) as [_ ->].
  by apply elem_of_union_l.
Qed.

Lemma merge_foldl_printed fs (todo : list string) st (ev : ui_event) :
  ev ∈ printed st → ev ∈ printed (foldl (merge_step fs) st todo).
Proof.
  revert st. induction todo as [|p todo IH]; intros st Hev; [done|].
  simpl. apply IH. unfold merge_step.
  destruct (fs p); [|by apply elem_of_app; left].
  destruct (empty _ || bool_decide _); simpl; by apply elem_of_app; left.
Qed.

Lemma merge_files_printed ui fs base files (validate_head validate_tail : bool)
    (ev : ui_event) :
  ev ∈ printed (merge_batch fs base files) →
  ev ∈ (merge_files ui fs base files validate_head validate_tail).2.
Proof.
  intros Hev. unfold merge_files, batch_concat.
  destruct validate_head, validate_tail; simpl;
    try destruct (_validate_and_trim_head ui _) as [d1 o1]; simpl;
    try destruct (_validate_and_trim_tail _) as [d2 o2]; simpl;
    repeat (apply elem_of_app; left); done.
Qed.

Lemma new_columns_all_seen seen df :
  (∀ c, c ∈ columns df → c ∈ seen) → new_columns seen df = [].
Proof.
  unfold new_columns. induction df as [|[c s] df IH]; intros Hall; [done|].
  rewrite filter_cons, decide_False.
  - apply IH. intros c' Hc'. apply Hall. by right.
  - intros Hnot. apply Hnot, Hall. by left.
Qed.

Lemma adds_nothing_contribution fs base seen (clean_path : string) :
  adds_nothing fs base clean_path →
  (∀ c, c ∈ columns base → c ∈ seen) →
  contribution fs seen clean_path = [].
Proof.
  intros [Hfs|(d & Hfs & Hall)] Hseen; unfold contribution; rewrite Hfs; [done|].
  assert (new_columns seen d = []) as ->; [|done].
  apply new_columns_all_seen. intros c Hc. by apply Hseen, Hall.
Qed.

Lemma merge_batch_skip fs base (before after : list string) (clean_path : string) :
  adds_nothing fs base clean_path →
  all_dfs (merge_batch fs base (before ++ clean_path :: after))
  = all_dfs (merge_batch fs base (before ++ after)).
Proof.
  intros Hskip. unfold merge_batch. rewrite !foldl_app. simpl.
  set (st := foldl (merge_step fs) _ before).
  assert (Hc : contribution fs (seen_columns st) clean_path = []).
  { apply (adds_nothing_contribution fs base); [done|].
    intros c Hc. apply merge_foldl_seen_grows. simpl. by apply elem_of_list_to_set. }
  destruct (merge_step_frames fs st clean_path) as [Hd Hs].
  rewrite Hc in Hd, Hs. simpl in Hd, Hs. rewrite app_nil_r in Hd.
  apply merge_foldl_data; [done|]. rewrite Hs.
  change (list_to_set (columns [])) with (∅ : gset string).
  by rewrite (right_id_L ∅ (∪)).
Qed.

(** X7. A clean file that cannot be read, or that brings only columns the
    base has, does not change the merged table: the result is the one
    obtained without that file in the list.  The failure is reported: an
    error is printed for the unreadable file, a warning for the file
    without new columns. *)
Theorem merge_files_skips_file ui fs base (before after : list string)
    (clean_path : string) (validate_head validate_tail : bool) :
  adds_nothing fs base clean_path →
  let r := merge_files ui fs base (before ++ clean_path :: after)
             validate_head validate_tail in
  r.1 = (merge_files ui fs base (before ++ after) validate_head validate_tail).1 ∧
  (fs clean_path = None → print_error (MergeError clean_path) ∈ r.2) ∧
  (fs clean_path ≠ None → print_warning (NoNewColumns clean_path) ∈ r.2).
Proof.
  intros Hskip r. subst r. split; [|split].
  - rewrite !merge_files_trims. by rewrite merge_batch_skip.
  - intros Hfs. apply merge_files_printed. unfold merge_batch.
    rewrite foldl_app. simpl. apply merge_foldl_printed.
    unfold merge_step. rewrite Hfs. simpl. apply elem_of_app. right. by left.
  - intros Hfs. apply merge_files_printed. unfold merge_batch.
    rewrite foldl_app. simpl. apply merge_foldl_printed.
    set (st := foldl (merge_step fs) _ before).
    assert (Hc : contribution fs (seen_columns st) clean_path = []).
    { apply (adds_nothing_contribution fs base); [done|].
      intros c Hc. apply merge_foldl_seen_grows. simpl. by apply elem_of_list_to_set. }
    destruct Hskip as [?|(d & Hd & Hall)]; [done|].
    unfold contribution in Hc. rewrite Hd in Hc.
    unfold merge_step. rewrite Hd.
    set (dups := filter (λ col, col ∈ seen_columns st) (columns d)).
    assert ((if bool_decide (dups ≠ []) then drop_columns dups d else d)
            = new_columns (seen_columns st) d) as ->.
    { rewrite <- (drop_duplicates_new _ _ (columns d)).
      2:{ intros p Hp. by apply list_elem_of_fmap_2. }
      fold dups. destruct (bool_decide (dups ≠ [])) eqn:Hdd; [done|].
      apply bool_decide_eq_false, dec_stable in Hdd.
      by rewrite Hdd, drop_no_columns. }
    destruct (empty _ || bool_decide _); [|done]. simpl.
    apply elem_of_app. right. apply elem_of_app. right. by left.
Qed.

Lemma merge_batch_nothing fs base files :
  Forall (adds_nothing fs base) files →
  all_dfs (merge_batch fs base files) = [base].
Proof.
  induction files as [|p files IH] using rev_ind; intros Hall; [done|].
  apply Forall_app in Hall as [Hall Hp]. rewrite Forall_singleton in Hp.
  pose proof (merge_batch_skip fs base files [] p Hp) as Hskip.
  rewrite app_nil_r in Hskip. rewrite Hskip. by apply IH.
Qed.

Lemma concat_single df : rectangular df → concat_axis1 [df] = df.
Proof.
  intros Hrect. unfold concat_axis1. simpl. rewrite app_nil_r.
  etrans; [|apply list_fmap_id]. apply list_fmap_ext.
  intros i [c s] Hi. simpl. f_equal. unfold pad.
  apply list_elem_of_lookup_2 in Hi. rewrite (Hrect c s Hi).
  replace (nrows df `max` 0 - nrows df) with 0 by lia. apply app_nil_r.
Qed.

(** X8. When no clean file adds anything (an empty list, unreadable files,
    files with only the base's columns), [merge_files] returns the base
    table, trimmed as asked; without trims, the base itself. *)
Theorem merge_files_nothing_to_add ui fs base files
    (validate_head validate_tail : bool) :
  rectangular base →
  Forall (adds_nothing fs base) files →
  (merge_files ui fs base files validate_head validate_tail).1
  = trims ui validate_head validate_tail base ∧
  (merge_files ui fs base files false false).1 = base.
Proof.
  intros Hrect Hall.
  rewrite !merge_files_trims, merge_batch_nothing, concat_single by done. done.
Qed.

End merge_more.

Lemma merge_files_labels_distinct_witness :
  NoDup (columns (merge_files ui_yes fs_ex base_ex ["short.csv"; "long.csv"] true true).1).
Proof.
  apply (merge_files_labels_distinct ui_yes fs_ex base_ex ["short.csv"; "long.csv"]
           true true).
  - compute_done.
  - intros p d Hp Hd.
    apply elem_of_cons in Hp as [->|Hp].
    { injection Hd as <-. compute_done. }
    apply elem_of_cons in Hp as [->|Hp].
    { injection Hd as <-. compute_done. }
    by apply elem_of_nil in Hp.
Defined.

Lemma merge_files_rectangular_witness :
  length [Num 65; Num 64; NaN; NaN]%Z
  = nrows (merge_files ui_yes fs_ex base_ex ["short.csv"; "long.csv"] false false).1.
Proof.
  apply (merge_files_rectangular ui_yes fs_ex base_ex ["short.csv"; "long.csv"]
           false false "smo2").
  vm_compute. do 2 right. left.
Defined.

Lemma merge_files_skips_file_witness :
  (merge_files ui_yes fs_ex base_ex (["short.csv"] ++ "missing.csv" :: ["long.csv"])
     true true).1
  = (merge_files ui_yes fs_ex base_ex (["short.csv"] ++ ["long.csv"]) true true).1.
Proof.
  apply (merge_files_skips_file ui_yes fs_ex base_ex ["short.csv"] ["long.csv"]
           "missing.csv" true true).
  left. reflexivity.
Defined.

Lemma merge_files_nothing_to_add_witness :
  (merge_files ui_yes fs_ex base_ex ["missing.csv"] false false).1 = base_ex.
Proof.
  apply (merge_files_nothing_to_add ui_yes fs_ex base_ex ["missing.csv"] false false).
  - intros c s Hin.
    apply elem_of_cons in Hin as [[= -> ->]|Hin]; [reflexivity|].
    apply elem_of_cons in Hin as [[= -> ->]|Hin]; [reflexivity|].
    by apply elem_of_nil in Hin.
  - constructor; [|constructor]. left. reflexivity.
Defined.

(** ** What timestamp validation raises (integrity.py) *)
Section timestamps_more.
Context (parse_number : string → option float).

(** X13. What [validate_timestamps] can raise: only under [fail_fast], and
    only a [TimestampError] of type [negative] (with the count of negative
    values) or [non_monotonic] (with a row number), each only when its check
    is on.  It never raises for duplicates, and never without
    [fail_fast]. *)
Theorem validate_timestamps_raises (self : IntegrityValidator) (df : DataFrame float)
    (time_column : string) (file_path : option string)
    (check_monotonic check_duplicates check_negative : bool) (e : exn) :
  validate_timestamps parse_number self df time_column file_path
    check_monotonic check_duplicates check_negative = Raise e →
  fail_fast self = true ∧
  ((check_negative = true ∧
    ∃ n : nat, 0 < n ∧
      e = TimestampError "negative" time_column file_path
            (pretty n +:+ " wartości ujemnych")) ∨
   (check_monotonic = true ∧
    ∃ i : nat,
      e = TimestampError "non_monotonic" time_column file_path
            ("Wartość maleje w wierszu " +:+ pretty i))).
Proof.
  unfold validate_timestamps.
  destruct (get_col df time_column) as [series|]; [|done].
  cbv zeta.
  set (negative_count := count_true _).
  destruct (check_negative && bool_decide (0 < negative_count)) eqn:Hneg.
  - apply andb_true_iff in Hneg as [-> Hn%bool_decide_eq_true].
    destruct (fail_fast self).
    + intros [= <-]. split; [done|]. left. split; [done|]. by exists negative_count.
    + destruct (check_monotonic && _); [|by destruct (check_duplicates && _)].
      by destruct (check_duplicates && _).
  - destruct (check_monotonic && _) eqn:Hmono.
    + apply andb_true_iff in Hmono as [-> _].
      destruct (fail_fast self).
      * intros [= <-]. split; [done|]. right. split; [done|]. eauto.
      * by destruct (check_duplicates && _).
    + by destruct (check_duplicates && _).
Qed.

End timestamps_more.

Lemma validate_timestamps_raises_witness :
  validate_timestamps (λ _, None) (new_validator None true false)
    [("secs", [Num 0; Num (-1); Num 2]%float)] "secs" None true true true
  = Raise (TimestampError "negative" "secs" None "1 wartości ujemnych") ∧
  fail_fast (new_validator None true false) = true.
Proof.
  split; [reflexivity|].
  apply (validate_timestamps_raises (λ _, None) (new_validator None true false)
           [("secs", [Num 0; Num (-1); Num 2]%float)] "secs" None true true true
           (TimestampError "negative" "secs" None "1 wartości ujemnych")).
  reflexivity.
Defined.

(** ** What interpolation keeps and counts (interpolation.py) *)
Section fill_theory.
Import interpolation.
#[local] Abbreviation Q := QArith_base.Q.
Implicit Types (series rest : Series Q) (mask : list bool) (df : DataFrame Q).
Implicit Types (method : InterpolationMethod).

Lemma keeps_values_refl series : keeps_values series series.
Proof. apply Forall_Forall2_diag, Forall_forall. done. Qed.

Lemma keeps_values_nan_count series series' :
  keeps_values series series' → nan_count series' ≤ nan_count series.
Proof.
  induction 1 as [|x y s s' Hxy _ IH]; [done|].
  rewrite !nan_count_cons. destruct x; simpl in *; try (rewrite Hxy by done; simpl; lia).
  destruct (isna y); lia.
Qed.

Lemma keeps_values_length series series' :
  keeps_values series series' → length series' = length series.
Proof. intros H. symmetry. by eapply Forall2_length. Qed.

Lemma interpolate_from_keeps (limit : option nat) series :
  ∀ (prev : option Q) (since : nat),
    keeps_values series (interpolate_from limit prev since series).
Proof.
  induction series as [|[|v|s] rest IH]; intros prev since; simpl.
  - constructor.
  - constructor; [done|apply IH].
  - constructor; [done|apply IH].
  - constructor; [done|apply IH].
Qed.

Lemma ffill_from_keeps (limit : option nat) series :
  ∀ (prev : option (cell Q)) (since : nat),
    keeps_values series (ffill_from limit prev since series).
Proof.
  induction series as [|[|v|s] rest IH]; intros prev since; simpl.
  - constructor.
  - constructor; [done|apply IH].
  - constructor; [done|apply IH].
  - constructor; [done|apply IH].
Qed.

Lemma bfill_from_keeps (limit : option nat) series :
  keeps_values series (bfill_from limit series).
Proof.
  induction series as [|[|v|s] rest IH]; simpl.
  - constructor.
  - constructor; [done|apply IH].
  - constructor; [done|apply IH].
  - constructor; [done|apply IH].
Qed.

Lemma fill_keeps method (limit : option nat) series series' :
  fill method limit series = Ok series' → keeps_values series series'.
Proof.
  destruct method; simpl.
  - intros [= <-]. apply keeps_values_refl.
  - unfold interpolate_linear. destruct (has_str series); [done|].
    intros [= <-]. apply interpolate_from_keeps.
  - intros [= <-]. apply ffill_from_keeps.
  - intros [= <-]. apply bfill_from_keeps.
  - intros [= <-]. apply ffill_from_keeps.
Qed.

Lemma interpolate_column_keeps series method (max_gap : Z) series' :
  interpolate_column series method max_gap = Ok series' →
  keeps_values series series'.
Proof.
  unfold interpolate_column. destruct (_ || _).
  - apply fill_keeps.
  - rewrite interpolate_small_gaps_same. intros [= <-]. apply keeps_values_refl.
Qed.

Lemma total_nans_cons (c : string) series df :
  total_nans ((c, series) :: df) = nan_count series + total_nans df.
Proof. done. Qed.

Lemma total_nans_set_col df (col : string) series series' :
  NoDup (columns df) →
  get_col df col = Some series →
  total_nans (set_col df col series') + nan_count series
  = total_nans df + nan_count series'.
Proof.
  induction df as [|[c s] df IH]; [done|].
  intros [Hnin Hnd]%NoDup_cons Hcol. simpl in Hcol.
  unfold set_col. rewrite fmap_cons. simpl.
  destruct (decide (c = col)) as [->|Hne].
  - injection Hcol as ->. rewrite !total_nans_cons.
    assert ((λ p : string * Series Q, if decide (p.1 = col) then (col, series') else p)
              <$> df = df) as ->; [|lia].
    etrans; [|apply list_fmap_id]. apply list_fmap_ext. intros i [c' s'] Hi. simpl.
    rewrite decide_False; [done|]. intros ->. apply Hnin.
    apply list_elem_of_lookup_2 in Hi. by apply (list_elem_of_fmap_2 fst) in Hi.
  - rewrite !total_nans_cons. specialize (IH Hnd Hcol). unfold set_col in IH. lia.
Qed.

Lemma interpolate_step_effect method (max_gap : Z) df (total : Z) (col : string)
    df' (total' : Z) :
  NoDup (columns df) →
  interpolate_step method max_gap (Ok (df, total)) col = Ok (df', total') →
  Forall2 (step_effect col) df df' ∧
  (total' - total = Z.of_nat (total_nans df) - Z.of_nat (total_nans df'))%Z.
Proof.
  intros Hnd. unfold interpolate_step.
  assert (Hsame : Forall2 (step_effect col) df df).
  { apply Forall_Forall2_diag, Forall_forall. intros p _.
    split; [done|]. split; [apply keeps_values_refl|done]. }
  destruct (get_col df col) as [series|] eqn:Hcol.
  2:{ intros [= <- <-]. split; [done|lia]. }
  case_bool_decide as Hnan.
  { intros [= <- <-]. split; [done|lia]. }
  destruct (interpolate_column series method max_gap) as [series'|] eqn:Hint; [|done].
  intros [= <- <-]. split.
  - unfold set_col. apply Forall2_fmap_r, Forall_Forall2_diag, Forall_forall.
    intros [c s] Hin. unfold step_effect. simpl.
    destruct (decide (c = col)) as [->|Hne]; simpl.
    + split; [done|]. split; [|done].
      apply (get_col_NoDup df col s Hnd) in Hin.
      assert (s = series) as -> by congruence.
      by apply (interpolate_column_keeps _ method max_gap).
    + split; [done|]. split; [apply keeps_values_refl|done].
  - pose proof (total_nans_set_col df col series series' Hnd Hcol). lia.
Qed.

Lemma interpolate_fold_raise method (max_gap : Z) (cols : list string) (e : exn) :
  foldl (interpolate_step method max_gap) (Raise e) cols = Raise e.
Proof. induction cols as [|c cols IH]; [done|]. simpl. apply IH. Qed.

Lemma step_effect_columns (col : string) df df' :
  Forall2 (step_effect col) df df' → columns df' = columns df.
Proof.
  induction 1 as [|p p' d d' (Hl & _) _ IH]; [done|].
  unfold columns in *. rewrite !fmap_cons. by rewrite Hl, IH.
Qed.

Lemma keeps_values_trans (s1 s2 s3 : Series Q) :
  keeps_values s1 s2 → keeps_values s2 s3 → keeps_values s1 s3.
Proof.
  unfold keeps_values.
  intros H12. revert s3. induction H12 as [|x y s s' Hxy _ IH]; intros s3 H23.
  - inversion H23. constructor.
  - inversion H23 as [|y' z s2' s3' Hyz Hrest]; subst.
    constructor; [|by apply IH].
    intros Hx. specialize (Hxy Hx). subst y. by apply Hyz.
Qed.

Lemma interpolate_fold_effect method (max_gap : Z) (cols : list string) :
  ∀ df (total : Z) df' (total' : Z),
    NoDup (columns df) →
    foldl (interpolate_step method max_gap) (Ok (df, total)) cols = Ok (df', total') →
    Forall2 (fold_effect cols) df df' ∧
    (total' - total = Z.of_nat (total_nans df) - Z.of_nat (total_nans df'))%Z.
Proof.
  induction cols as [|col cols IH]; intros df total df' total' Hnd.
  { intros [= <- <-]. split; [|lia].
    apply Forall_Forall2_diag, Forall_forall. intros p _.
    split; [done|]. split; [apply keeps_values_refl|done]. }
  cbn [foldl].
  destruct (interpolate_step method max_gap (Ok (df, total)) col)
    as [[df1 total1]|e] eqn:Hstep.
  2:{ by rewrite interpolate_fold_raise. }
  intros Hfold.
  destruct (interpolate_step_effect _ _ _ _ _ _ _ Hnd Hstep) as [H1 Ht1].
  assert (Hnd1 : NoDup (columns df1)) by (by rewrite (step_effect_columns col df df1)).
  destruct (IH df1 total1 df' total' Hnd1 Hfold) as [H2 Ht2].
  split; [|lia].
  clear -H1 H2. revert df' H2.
  induction H1 as [|p p1 d d1 (Hl1 & Hk1 & Hu1) _ IHd]; intros df' H2.
  - by inversion H2.
  - inversion H2 as [|p1' p' d1' d' (Hl2 & Hk2 & Hu2) Hrest]; subst.
    constructor; [|by apply IHd].
    split; [congruence|]. split; [by eapply keeps_values_trans|].
    intros Hnin.
    assert (p1 = p) as -> by (apply Hu1; intros Heq; apply Hnin; rewrite Heq; by left).
    apply Hu2. intros Hin. apply Hnin. by right.
Qed.

Lemma fold_effect_get_col (cols : list string) df df' (c : string) series :
  Forall2 (fold_effect cols) df df' →
  get_col df c = Some series →
  ∃ series', get_col df' c = Some series' ∧ keeps_values series series' ∧
             (c ∉ cols → series' = series).
Proof.
  induction 1 as [|[c1 s1] [c2 s2] d d' (Hl & Hk & Hu) _ IH]; [done|].
  simpl in *. subst c2. destruct (decide (c1 = c)) as [->|Hne].
  - intros [= ->]. exists s2. split; [done|]. split; [done|].
    intros Hnin. specialize (Hu Hnin). congruence.
  - apply IH.
Qed.

Lemma fold_effect_columns (cols : list string) df df' :
  Forall2 (fold_effect cols) df df' → columns df' = columns df.
Proof.
  induction 1 as [|p p' d d' (Hl & _) _ IH]; [done|].
  unfold columns in *. rewrite !fmap_cons. by rewrite Hl, IH.
Qed.

Lemma fold_effect_total (cols : list string) df df' :
  Forall2 (fold_effect cols) df df' → total_nans df' ≤ total_nans df.
Proof.
  induction 1 as [|[c s] [c' s'] d d' (_ & Hk & _) _ IH]; [done|].
  rewrite !total_nans_cons. apply keeps_values_nan_count in Hk. simpl in Hk. lia.
Qed.

(** The columns the loop of [interpolate_time_gaps] visits. *)
Lemma interpolate_time_gaps_fold df (time_col : string) method (max_gap : Z)
    (columns : option (list string)) :
  method ≠ none →
  interpolate_time_gaps df time_col method max_gap columns
  = foldl (interpolate_step method max_gap) (Ok (df, 0%Z))
      (match columns with
       | Some cols => cols
       | None => filter (λ c, c ≠ time_col)
                   (filter (λ p : string * Series Q, is_numeric p.2 = true) df).*1
       end).
Proof. by destruct method. Qed.

(** X9. [interpolate_time_gaps] only fills: on a table with distinct
    labels, whenever it returns, the labels are unchanged, every column
    keeps its length and every value that was present, at its row; and a
    column that is not selected (with [columns=None]: the time column and
    the columns holding strings; otherwise the columns not listed) comes
    back as it was. *)
Theorem interpolate_time_gaps_keeps_values df (time_col : string) method (max_gap : Z)
    (columns : option (list string)) df' (total_filled : Z) :
  NoDup (Frame.columns df) →
  interpolate_time_gaps df time_col method max_gap columns = Ok (df', total_filled) →
  Frame.columns df' = Frame.columns df ∧
  ∀ c series, get_col df c = Some series →
    ∃ series', get_col df' c = Some series' ∧
      length series' = length series ∧
      (∀ i x, series !! i = Some x → isna x = false → series' !! i = Some x) ∧
      (match columns with
       | Some cols => c ∉ cols
       | None => c = time_col ∨ is_numeric series = false
       end → series' = series).
Proof.
  intros Hnd Hrun.
  assert (method = none ∨ method ≠ none) as [->|Hm]
    by (destruct method; auto).
  { injection Hrun as <- <-. split; [done|]. intros c series Hc.
    exists series. split; [done|]. split; [done|]. split; done. }
  rewrite interpolate_time_gaps_fold in Hrun by done.
  destruct (interpolate_fold_effect _ _ _ _ _ _ _ Hnd Hrun) as [Heff _].
  split; [by eapply fold_effect_columns|].
  intros c series Hc.
  destruct (fold_effect_get_col _ _ _ _ _ Heff Hc) as (series' & Hc' & Hk & Hu).
  exists series'. split; [done|]. split; [by apply keeps_values_length|]. split.
  - intros i x Hi Hx. unfold keeps_values in Hk.
    destruct (Forall2_lookup_l _ _ _ _ _ Hk Hi) as (y & Hy & Hxy).
    by rewrite Hy, Hxy.
  - intros Hout. apply Hu. destruct columns as [cols|]; [done|].
    intros [Hne Hin]%list_elem_of_filter.
    apply list_elem_of_fmap in Hin as ([c' s'] & -> & [Hnum Hin]%list_elem_of_filter).
    simpl in *. apply (get_col_NoDup df c' s' Hnd) in Hin.
    assert (s' = series) as -> by congruence.
    destruct Hout as [?|?]; congruence.
Qed.

(** X10. The count returned by [interpolate_time_gaps] is the number of
    missing values that went: the missing values of the input table minus
    those of the returned table; it is never negative. *)
Theorem interpolate_time_gaps_total_filled df (time_col : string) method (max_gap : Z)
    (columns : option (list string)) df' (total_filled : Z) :
  NoDup (Frame.columns df) →
  interpolate_time_gaps df time_col method max_gap columns = Ok (df', total_filled) →
  total_filled = (Z.of_nat (total_nans df) - Z.of_nat (total_nans df'))%Z ∧
  (0 ≤ total_filled ≤ Z.of_nat (total_nans df))%Z.
Proof.
  intros Hnd Hrun.
  assert (method = none ∨ method ≠ none) as [->|Hm]
    by (destruct method; auto).
  { injection Hrun as <- <-. lia. }
  rewrite interpolate_time_gaps_fold in Hrun by done.
  destruct (interpolate_fold_effect _ _ _ _ _ _ _ Hnd Hrun) as [Heff Ht].
  apply fold_effect_total in Heff. lia.
Qed.


(** *** The run lengths *)

Lemma runs_positive mask : Forall (λ r, 1 ≤ r.2) (runs mask).
Proof.
  induction mask as [|b mask IH]; simpl; [constructor|].
  destruct (runs mask) as [|[b' n] rs].
  - repeat constructor.
  - apply Forall_cons in IH as [Hn Hrs]. case_bool_decide.
    + constructor; [simpl; lia|done].
    + constructor; [simpl; lia|]. by constructor.
Qed.

Lemma runs_sum mask :
  sum_list (true_lengths (runs mask)) = length (filter (λ b, b = true) mask).
Proof.
  unfold true_lengths. induction mask as [|b mask IH]; [done|].
  cbn [runs].
  destruct (runs mask) as [|[b' n] rs].
  - destruct b.
    + rewrite (filter_cons_True (λ b : bool, b = true)) by done.
      cbn [length]. rewrite <- IH. done.
    + rewrite (filter_cons_False (λ b : bool, b = true)) by done. rewrite <- IH. done.
  - destruct b.
    + rewrite (filter_cons_True (λ b : bool, b = true)) by done.
      cbn [length]. rewrite <- IH.
      case_bool_decide as Hb.
      * subst b'. rewrite !filter_cons_True by done. done.
      * destruct b'; [done|]. rewrite filter_cons_True by done.
        rewrite filter_cons_False by (simpl; congruence). done.
    + rewrite (filter_cons_False (λ b : bool, b = true)) by done. rewrite <- IH.
      case_bool_decide as Hb.
      * subst b'. rewrite !filter_cons_False by (simpl; congruence). done.
      * destruct b'; [|done]. rewrite filter_cons_False by (simpl; congruence).
        done.
Qed.

(** X11. [_get_consecutive_lengths] on any mask: the lengths add up to the
    number of [True] entries, each is at least 1, the largest is the longest
    run of [True], and the list is empty exactly when the mask has no
    [True]. *)
Theorem get_consecutive_lengths_spec mask :
  let lengths := _get_consecutive_lengths mask in
  sum_list lengths = length (filter (λ b, b = true) mask) ∧
  Forall (λ n, 1 ≤ n) lengths ∧
  max_list lengths = longest_run_from 0 mask ∧
  (lengths = [] ↔ existsb id mask = false).
Proof.
  intros lengths. split; [|split; [|split]].
  - subst lengths. unfold _get_consecutive_lengths.
    destruct (existsb id mask) eqn:Hany; simpl.
    + apply runs_sum.
    + symmetry. by apply existsb_id_filter.
  - subst lengths. unfold _get_consecutive_lengths.
    destruct (existsb id mask); simpl; [|constructor].
    apply Forall_forall. intros n ([b n'] & -> & [_ Hin]%list_elem_of_filter)%list_elem_of_fmap.
    pose proof (runs_positive mask) as Hpos. rewrite Forall_forall in Hpos.
    by apply (Hpos (b, n')).
  - apply get_consecutive_lengths_max.
  - subst lengths. unfold _get_consecutive_lengths.
    destruct (existsb id mask) eqn:Hany; simpl; [|done].
    split; [|done]. intros Hnil.
    pose proof (runs_sum mask) as Hsum. unfold true_lengths in Hsum.
    rewrite Hnil in Hsum. simpl in Hsum. symmetry in Hsum.
    apply existsb_id_filter in Hsum. congruence.
Qed.

(** X12. [_interpolate_small_gaps] never fills anything: for every
    column, limit and method it returns the column unchanged (a gap cut out
    of its column has no neighbour to be filled from).  Hence a column whose
    longest gap exceeds [max_gap] leaves [interpolate_time_gaps]'s loop body
    unchanged, its short gaps included. *)
Theorem interpolate_small_gaps_never_fills series (max_gap : Z) method :
  _interpolate_small_gaps series max_gap method = Ok series ∧
  (nan_count series ≠ 0 →
   (max_gap < Z.of_nat (longest_nan_run series))%Z →
   interpolate_column series method max_gap = Ok series).
Proof.
  split; [apply interpolate_small_gaps_same|]. apply interpolate_column_long.
Qed.

End fill_theory.

Lemma interpolate_time_gaps_keeps_values_witness :
  ∃ df', interpolation.interpolate_time_gaps watts_gap "secs" interpolation.linear 3 None
         = Ok (df', 2%Z) ∧
         get_col df' "secs" = get_col watts_gap "secs".
Proof.
  eexists. split; [vm_compute; reflexivity|].
  destruct (interpolate_time_gaps_keeps_values watts_gap "secs" interpolation.linear 3
              None _ 2%Z ltac:(compute_done) ltac:(vm_compute; reflexivity))
    as [_ Hcols].
  destruct (Hcols "secs" _ eq_refl) as (series' & Hc & _ & _ & Hsame).
  rewrite Hc, Hsame; [done|]. by left.
Defined.

Lemma interpolate_time_gaps_total_filled_witness :
  ∃ df', interpolation.interpolate_time_gaps watts_gap "secs" interpolation.linear 3 None
         = Ok (df', 2%Z) ∧
         (2 = Z.of_nat (total_nans watts_gap) - Z.of_nat (total_nans df'))%Z.
Proof.
  eexists. split; [vm_compute; reflexivity|].
  apply (interpolate_time_gaps_total_filled watts_gap "secs" interpolation.linear 3
           None _ 2%Z ltac:(compute_done) ltac:(vm_compute; reflexivity)).
Defined.

(** A gap of one between 1 and 5 stays, because the column also has a gap of
    three and [max_gap] is 2. *)
Lemma interpolate_small_gaps_never_fills_witness :
  interpolation.interpolate_column [q 1; NaN; q 5; NaN; NaN; NaN; q 9]
    interpolation.linear 2
  = Ok [q 1; NaN; q 5; NaN; NaN; NaN; q 9].
Proof.
  apply (proj2 (interpolate_small_gaps_never_fills
                  [q 1; NaN; q 5; NaN; NaN; NaN; q 9] 2 interpolation.linear)).
  - vm_compute. discriminate.
  - vm_compute. reflexivity.
Defined.

(** ** The newer interface of the validator, the file helpers and the script

    From here on the statements are about the modules [errors], [interfaces],
    [io], [validator] and [quick_merge]. *)
Import errors interfaces io validator.

(** ** Data gaps under both modes (integrity.py) *)
Section data_gaps_theory.
Context {V : Type}.
Implicit Types (df : DataFrame V) (self : IntegrityValidator).

Lemma gaps_fold_raised self df (file_path : option string) (cols : list string)
    (e : raised) :
  foldl (gap_step self df file_path) (Raises e) cols = Raises e.
Proof. induction cols as [|c cols IH]; [done|]. simpl. apply IH. Qed.

Lemma gaps_fold_accumulate self df (file_path : option string) (cols : list string)
    (acc : list string) :
  fail_fast self = false →
  foldl (gap_step self df file_path) (Returns acc) cols
  = Returns (acc ++ mjoin ((λ col, from_option (column_issues self col) []
                                     (get_col df col)) <$> cols)).
Proof.
  intros Hff. revert acc. induction cols as [|col cols IH]; intros acc.
  - simpl. by rewrite app_nil_r.
  - cbn [foldl]. unfold gap_step at 2. rewrite fmap_cons. cbn [mjoin list_join].
    unfold column_issues at 1.
    destruct (get_col df col) as [series|]; cbn [from_option]; cbv zeta.
    + rewrite Hff. destruct (gap_threshold self <=? _)%Z.
      * rewrite IH. by rewrite <- app_assoc.
      * rewrite IH. done.
    + apply IH.
Qed.

Lemma gaps_fold_clean self df (file_path : option string) (cols : list string)
    (acc : list string) :
  (∀ c series, c ∈ cols → get_col df c = Some series →
     (Z.of_nat (longest_null_run series) < gap_threshold self)%Z) →
  foldl (gap_step self df file_path) (Returns acc) cols = Returns acc.
Proof.
  induction cols as [|col cols IH]; intros Hclean; [done|].
  cbn [foldl]. unfold gap_step at 2.
  destruct (get_col df col) as [series|] eqn:Hcol; cbv zeta.
  - destruct (gap_between_run_and_total series (Some (gap_threshold self))) as [_ Ht].
    simpl in Ht.
    assert (Hlt : (Z.of_nat (longest_null_run series) < gap_threshold self)%Z)
      by (apply (Hclean col); [by left|done]).
    destruct (gap_threshold self <=? _)%Z eqn:Hle.
    + apply Z.leb_le in Hle. lia.
    + apply IH. intros c s Hc. apply Hclean. by right.
  - apply IH. intros c s Hc. apply Hclean. by right.
Qed.

Lemma gaps_fold_first self df (file_path : option string)
    (pre post : list string) (c : string) series (acc : list string) :
  fail_fast self = true →
  (∀ c' s', c' ∈ pre → get_col df c' = Some s' →
     (Z.of_nat (longest_null_run s') < gap_threshold self)%Z) →
  get_col df c = Some series →
  (gap_threshold self ≤ Z.of_nat (longest_null_run series))%Z →
  foldl (gap_step self df file_path) (Returns acc) (pre ++ c :: post)
  = Raises (Validation (DataGapError c
              (check_consecutive_nans_optimized series (Some (gap_threshold self)))
              (gap_threshold self) file_path)).
Proof.
  intros Hff Hpre Hc Hgap. rewrite foldl_app, gaps_fold_clean by done.
  cbn [foldl]. unfold gap_step at 2. rewrite Hc, Hff. cbv zeta.
  destruct (gap_between_run_and_total series (Some (gap_threshold self))) as [_ Ht].
  simpl in Ht.
  destruct (gap_threshold self <=? _)%Z eqn:Hle.
  - apply gaps_fold_raised.
  - apply Z.leb_gt in Hle. lia.
Qed.

(** X14. [validate_data_gaps] in its two modes, over the columns it checks
    (those listed, or all).  Without [fail_fast] it returns the issues of
    the checked columns in order, and with [columns=None] exactly what the
    legacy [validate] returns.  With [fail_fast] it returns no warning when
    every checked column's longest run of nulls is below the threshold, and
    otherwise raises [DataGapError] for the first checked column whose
    longest run reaches the threshold, with the gap detector's number and
    the threshold. *)
Theorem validate_data_gaps_spec self df (columns : option (list string))
    (file_path : option string) :
  let cols :=
    match columns with
    | Some (c :: cols) => c :: cols
    | _ => Frame.columns df
    end in
  (fail_fast self = false →
     validate_data_gaps self df columns file_path
     = Returns (mjoin ((λ col, from_option (column_issues self col) []
                                 (get_col df col)) <$> cols)) ∧
     validate_data_gaps self df None file_path = Returns (validate self df)) ∧
  (fail_fast self = true →
     ((∀ c series, c ∈ cols → get_col df c = Some series →
         (Z.of_nat (longest_null_run series) < gap_threshold self)%Z) →
      validate_data_gaps self df columns file_path = Returns []) ∧
     (∀ pre c post series,
        cols = pre ++ c :: post →
        (∀ c' s', c' ∈ pre → get_col df c' = Some s' →
           (Z.of_nat (longest_null_run s') < gap_threshold self)%Z) →
        get_col df c = Some series →
        (gap_threshold self ≤ Z.of_nat (longest_null_run series))%Z →
        validate_data_gaps self df columns file_path
        = Raises (Validation (DataGapError c
                    (check_consecutive_nans_optimized series (Some (gap_threshold self)))
                    (gap_threshold self) file_path)))).
Proof.
  intros cols. split.
  - intros Hff. split.
    + unfold validate_data_gaps. fold cols. by rewrite gaps_fold_accumulate.
    + unfold validate_data_gaps. rewrite gaps_fold_accumulate by done.
      by rewrite validate_flat.
  - intros Hff. split.
    + intros Hclean. unfold validate_data_gaps. fold cols. by apply gaps_fold_clean.
    + intros pre c post series Hcols Hpre Hc Hgap.
      unfold validate_data_gaps. fold cols. rewrite Hcols.
      by apply gaps_fold_first.
Qed.

End data_gaps_theory.

Lemma validate_data_gaps_witness :
  validate_data_gaps (new_validator (Some 2%Z) true false)
    [("secs", [Num 0; Num 1; Num 2]%Z); ("smo2", [NaN; Str ""; Num 60]%Z);
     ("thb", [NaN; NaN; NaN]%Z)] None (Some "clean.csv")
  = Raises (Validation (DataGapError "smo2" 2 2 (Some "clean.csv"))) ∧
  validate_data_gaps (new_validator (Some 2%Z) false false)
    [("secs", [Num 0; Num 1; Num 2]%Z); ("smo2", [NaN; Str ""; Num 60]%Z);
     ("thb", [NaN; NaN; NaN]%Z)] None (Some "clean.csv")
  = Returns ["Kolumna 'smo2': 2 pustych wierszy z rzędu";
             "Kolumna 'thb': 3 pustych wierszy z rzędu"].
Proof.
  split.
  - apply (proj2 (proj2 (validate_data_gaps_spec (new_validator (Some 2%Z) true false)
             [("secs", [Num 0; Num 1; Num 2]%Z); ("smo2", [NaN; Str ""; Num 60]%Z);
              ("thb", [NaN; NaN; NaN]%Z)] None (Some "clean.csv")) eq_refl)
             ["secs"] "smo2" ["thb"] [NaN; Str ""; Num 60]%Z eq_refl).
    + intros c' s' ->%list_elem_of_singleton [= <-]. vm_compute. done.
    + reflexivity.
    + vm_compute. discriminate.
  - apply (proj2 (proj1 (validate_data_gaps_spec (new_validator (Some 2%Z) false false)
             [("secs", [Num 0; Num 1; Num 2]%Z); ("smo2", [NaN; Str ""; Num 60]%Z);
              ("thb", [NaN; NaN; NaN]%Z)] None (Some "clean.csv")) eq_refl)).
Defined.

(** ** The sampling frequency, validated and detected (integrity.py, interpolation.py) *)
Section frequency_theory.
Import interpolation.
Context (parse_number : string → option float).
Context (format_fixed : nat → float → string).

Lemma numeric_values_coerce (series : Series float) :
  is_numeric series = true →
  numeric_values series = Ok (to_numeric_coerce parse_number <$> series).
Proof.
  induction series as [|c series IH]; [done|].
  intros Hnum. cbn [is_numeric forallb] in Hnum.
  apply andb_true_iff in Hnum as [Hc Hnum].
  unfold numeric_values in *. cbn [foldr]. rewrite (IH Hnum).
  rewrite fmap_cons. by destruct c.
Qed.

(** X15. [validate_sampling_frequency] and [detect_sampling_rate] use the
    same estimator.  On a time column without strings (or when the column
    is absent): where the validator returns [None], the detector falls back
    to 1.0; where the validator returns a frequency, the detector returns
    the same number; and the validator raises only under [fail_fast], a
    [SamplingFrequencyError] that carries the frequency the detector
    returns. *)
Theorem validate_sampling_frequency_detects (self : IntegrityValidator)
    (df : DataFrame float) (time_column : string) (expected_freq : Z)
    (tolerance : float) (file_path : option string) (log : list ui_call) :
  (∀ series, get_col df time_column = Some series → is_numeric series = true) →
  match (validate_sampling_frequency parse_number self df time_column expected_freq
           tolerance file_path log).1 with
  | Returns None => detect_sampling_rate df time_column = Ok 1%float
  | Returns (Some detected_freq) =>
      detect_sampling_rate df time_column = Ok detected_freq
  | Raises e =>
      fail_fast self = true ∧
      ∃ detected_freq,
        detect_sampling_rate df time_column = Ok detected_freq ∧
        e = Validation (SamplingFrequencyError expected_freq detected_freq
                          file_path tolerance)
  end.
Proof.
  intros Hnum. unfold validate_sampling_frequency, detect_sampling_rate.
  destruct (get_col df time_column) as [series|]; [|done].
  case_bool_decide; [done|].
  rewrite (numeric_values_coerce series) by (by apply Hnum).
  case_bool_decide; [done|].
  destruct (_ <=? 0)%float; [done|].
  destruct (negb _).
  - destruct (fail_fast self); simpl; [|done]. split; [done|]. eauto.
  - done.
Qed.

End frequency_theory.

Lemma validate_sampling_frequency_witness :
  (validate_sampling_frequency (λ _, None) (new_validator None true false)
     secs_1hz "secs" 10 0.5%float None []).1
  = Raises (Validation (SamplingFrequencyError 10 1%float None 0.5%float)) ∧
  interpolation.detect_sampling_rate secs_1hz "secs" = Ok 1%float.
Proof.
  pose proof (validate_sampling_frequency_detects (λ _, None)
                (new_validator None true false) secs_1hz "secs" 10 0.5%float None []) as H.
  assert (Hrun : (validate_sampling_frequency (λ _, None) (new_validator None true false)
                    secs_1hz "secs" 10 0.5%float None []).1
                 = Raises (Validation (SamplingFrequencyError 10 1%float None 0.5%float)))
    by reflexivity.
  split; [exact Hrun|].
  rewrite Hrun in H. destruct H as (_ & f & Hdetect & [= <-]).
  - intros series [= <-]. reflexivity.
  - exact Hdetect.
Defined.

(** ** The full validation (integrity.py) *)
Section full_theory.
Context (parse_number : string → option float).
Context (format_fixed : nat → float → string).
Context (repr_list : list string → string).
Implicit Types (self : IntegrityValidator) (df : DataFrame float).
Implicit Types (log : list ui_call) (spec : LoaderSpec).

Lemma bind_returns {A B : Type} (m : M A) (f : A → M B) log (r : B) log'' :
  bind m f log = (Returns r, log'') →
  ∃ a log', m log = (Returns a, log') ∧ f a log' = (Returns r, log'').
Proof.
  unfold bind. destruct (m log) as [[a|e] log'] eqn:Hm; [|done].
  intros Hf. by exists a, log'.
Qed.

Lemma bind_eq {A B : Type} (m : M A) (f : A → M B) log (a : A) log' :
  m log = (Returns a, log') → bind m f log = f a log'.
Proof. unfold bind. by intros ->. Qed.

Lemma foldl_bind {A S : Type} (body : S → A → M S) (l : list A) :
  ∀ (m : M S) log,
    foldl (λ m x, bind m (λ s, body s x)) m l log
    = match m log with
      | (Returns s, log') => for_each l body s log'
      | (Raises e, log') => (Raises e, log')
      end.
Proof.
  unfold for_each. induction l as [|x l IH]; intros m log.
  - simpl. by destruct (m log) as [[s|e] log'].
  - cbn [foldl]. rewrite IH. unfold bind at 1.
    destruct (m log) as [[s|e] log']; [|done].
    rewrite (IH (bind (ret s) _)). done.
Qed.

Lemma for_each_cons {A S : Type} (body : S → A → M S) (x : A) (l : list A)
    (init : S) log :
  for_each (x :: l) body init log
  = match body init x log with
    | (Returns s, log') => for_each l body s log'
    | (Raises e, log') => (Raises e, log')
    end.
Proof. unfold for_each at 1. cbn [foldl]. by rewrite foldl_bind. Qed.

(** The loop of [validate_numeric_columns] stops at the first column that
    is mostly invalid, and only there. *)
Lemma numeric_loop self df (file_path : option string) (cols : list string) :
  ∀ (warnings : list string) log,
    match (for_each cols (numeric_step parse_number format_fixed self df file_path)
             warnings log).1 with
    | Returns _ =>
        ∀ col series, col ∈ cols → get_col df col = Some series →
          mostly_invalid parse_number series (nrows df) = false
    | Raises (Validation (InvalidDataTypeError _ _ _ _ _)) =>
        ∃ col series, col ∈ cols ∧ get_col df col = Some series ∧
          mostly_invalid parse_number series (nrows df) = true
    | Raises _ => False
    end.
Proof.
  induction cols as [|col cols IH]; intros warnings log.
  { simpl. intros col series Hin. by apply elem_of_nil in Hin. }
  rewrite for_each_cons. unfold numeric_step at 1.
  assert (Hskip : ∀ ws log1,
            (∀ series, get_col df col = Some series →
               mostly_invalid parse_number series (nrows df) = false) →
            match (for_each cols (numeric_step parse_number format_fixed self df
                                    file_path) ws log1).1 with
            | Returns _ =>
                ∀ c series, c ∈ col :: cols → get_col df c = Some series →
                  mostly_invalid parse_number series (nrows df) = false
            | Raises (Validation (InvalidDataTypeError _ _ _ _ _)) =>
                ∃ c series, c ∈ col :: cols ∧ get_col df c = Some series ∧
                  mostly_invalid parse_number series (nrows df) = true
            | Raises _ => False
            end).
  { intros ws log1 Hok. specialize (IH ws log1).
    destruct (for_each cols _ ws log1).1 as [ws'|[[]|]]; try done.
    - intros c s [->|Hin]%elem_of_cons; [apply Hok|by apply IH].
    - destruct IH as (c & s & Hin & Hc & Hbad). exists c, s. split; [by right|done]. }
  destruct (get_col df col) as [series|] eqn:Hcol.
  2:{ apply Hskip. done. }
  cbv zeta.
  destruct (bool_decide (0 < count_true (invalid parse_number <$> series))) eqn:Hcount.
  2:{ apply Hskip. intros s [= <-]. unfold mostly_invalid. by rewrite Hcount. }
  destruct (50 <? _)%float eqn:Hpct.
  - simpl. exists col, series. split; [by left|]. split; [done|].
    unfold mostly_invalid. by rewrite Hcount, Hpct.
  - apply Hskip. intros s [= <-]. unfold mostly_invalid. by rewrite Hcount, Hpct.
Qed.

Lemma validate_columns_ok self df (required_cols : list string)
    (file_path : option string) :
  validate_columns self df required_cols file_path
  = (if bool_decide (Forall (λ c, c ∈ columns df) required_cols) then Returns tt
     else Raises (Validation (MissingColumnError
                    (filter (λ col, col ∉ columns df) required_cols)
                    file_path (columns df)))).
Proof.
  unfold validate_columns.
  assert (filter (λ col, col ∉ columns df) required_cols = []
          ↔ Forall (λ c, c ∈ columns df) required_cols) as Hiff.
  { induction required_cols as [|c cs IH]; [by split|].
    rewrite filter_cons, Forall_cons.
    destruct (decide (c ∉ columns df)) as [Hn|Hn].
    - split; [done|]. by intros [? _].
    - apply dec_stable in Hn. rewrite IH. by split; [|intros [_ ?]]. }
  repeat case_bool_decide; try done; by destruct Hiff; tauto.
Qed.

(** Step 2 in accumulate mode. *)
Lemma check_spec_accumulate self df (file_str : option string) spec log :
  fail_fast self = false →
  ∃ errors warnings log',
    check_spec parse_number format_fixed repr_list self df file_str spec log
    = (Returns (errors, warnings), log') ∧
    (errors = [] ↔ meets parse_number spec df).
Proof.
  intros Hff. unfold check_spec. rewrite Hff.
  set (numeric_cols := filter (λ c, c ∈ columns df) _).
  assert (Hnum : (∀ col series, col ∈ numeric_cols → get_col df col = Some series →
                    mostly_invalid parse_number series (nrows df) = false)
                 ↔ (∀ c series, c ∈ all_columns spec →
                      dtype c = "int64" ∨ dtype c = "float64" →
                      get_col df (source_name c) = Some series →
                      mostly_invalid parse_number series (nrows df) = false)).
  { subst numeric_cols. split.
    - intros H c series Hc Hdt Hcol. apply (H (source_name c)); [|done].
      apply list_elem_of_filter. split; [by eapply get_col_columns|].
      apply list_elem_of_fmap. exists c. split; [done|].
      by apply list_elem_of_filter.
    - intros H col series [_ Hin]%list_elem_of_filter Hcol.
      apply list_elem_of_fmap in Hin as (c & -> & [Hdt Hc]%list_elem_of_filter).
      by apply (H c). }
  pose proof (numeric_loop self df file_str numeric_cols [] log) as Hloop.
  unfold validate_numeric_columns.
  unfold bind at 1. unfold try_except at 1. unfold bind at 1, lift.
  rewrite validate_columns_ok.
  case_bool_decide as Hreq.
  - cbn [ret]. unfold try_except, bind.
    destruct (for_each numeric_cols _ [] log) as [[ws|e] log1]; cbn [fst] in Hloop.
    + eexists _, _, _. split; [reflexivity|]. split; [|done]. intros _. split.
      * intros c Hc. rewrite Forall_forall in Hreq. apply Hreq.
        by apply list_elem_of_fmap_2.
      * by apply Hnum.
    + destruct e as [[]|]; try done.
      eexists _, _, _. split; [reflexivity|]. split; [done|].
      intros [_ Hok]. destruct Hloop as (c & s & Hin & Hc & Hbad).
      rewrite (proj2 Hnum Hok c s Hin Hc) in Hbad. done.
  - cbn [ret]. unfold try_except, bind.
    assert (Hmiss : ¬ ∀ c, c ∈ required_columns spec → source_name c ∈ columns df).
    { intros H. apply Hreq, Forall_forall.
      intros c (c' & -> & Hc')%list_elem_of_fmap. by apply H. }
    destruct (for_each numeric_cols _ [] log) as [[ws|e] log1]; cbn [fst] in Hloop.
    + eexists _, _, _. split; [reflexivity|]. split; [done|]. by intros [? _].
    + destruct e as [[]|]; try done.
      eexists _, _, _. split; [reflexivity|]. split; [done|]. by intros [? _].
Qed.

Lemma validate_timestamps_total self df (time_column : string)
    (file_path : option string) :
  fail_fast self = false →
  ∃ ts_warnings,
    validate_timestamps parse_number self df time_column file_path true true true
    = Ok ts_warnings.
Proof.
  intros Hff. destruct (get_col df time_column) as [series|] eqn:Hcol.
  - rewrite (validate_timestamps_accumulate parse_number self df time_column file_path
               series Hff Hcol). eauto.
  - unfold validate_timestamps. rewrite Hcol. eauto.
Qed.

(** Steps 3 and 4 in accumulate mode add warnings only. *)
Lemma check_timestamps_accumulate self df (file_str time_column : option string)
    (errors warnings : list string) log :
  fail_fast self = false →
  ∃ ts_warnings,
    check_timestamps parse_number self df file_str time_column errors warnings log
    = (Returns (errors, warnings ++ ts_warnings), log).
Proof.
  intros Hff. unfold check_timestamps.
  destruct (truthy _) as [time_col|].
  - destruct (validate_timestamps_total self df time_col file_str Hff) as [ws ->].
    by exists ws.
  - exists []. by rewrite app_nil_r.
Qed.

Lemma check_gaps_accumulate self df (file_str : option string)
    (errors warnings : list string) log :
  fail_fast self = false →
  check_gaps format_fixed repr_list self df file_str errors warnings log
  = (Returns (errors, warnings ++ validate self df), log).
Proof.
  intros Hff. unfold check_gaps, try_except, bind, lift.
  unfold validate_data_gaps. rewrite gaps_fold_accumulate by done.
  by rewrite <- validate_flat.
Qed.

(** Under [fail_fast] no step adds an error: it raises instead. *)
Lemma check_spec_fail_fast self df (file_str : option string) spec log
    (errors warnings : list string) log' :
  fail_fast self = true →
  check_spec parse_number format_fixed repr_list self df file_str spec log
  = (Returns (errors, warnings), log') →
  errors = [].
Proof.
  intros Hff. unfold check_spec. rewrite Hff.
  unfold bind at 1. unfold try_except at 1. unfold bind at 1, lift.
  rewrite validate_columns_ok. case_bool_decide; [|done].
  cbn [ret]. unfold try_except, bind.
  destruct (validate_numeric_columns _ _ _ _ _ _ _) as [[ws|e] log1].
  - by intros [= <- _ _].
  - by destruct e as [[]|].
Qed.

Lemma check_timestamps_fail_fast self df (file_str time_column : option string)
    (errors warnings errors' warnings' : list string) log log' :
  fail_fast self = true →
  check_timestamps parse_number self df file_str time_column errors warnings log
  = (Returns (errors', warnings'), log') →
  errors' = errors.
Proof.
  intros Hff. unfold check_timestamps. rewrite Hff.
  destruct (truthy _) as [time_col|]; [|by intros [= <- _ _]].
  destruct (validate_timestamps _ _ _ _ _ _ _ _) as [ws|[]]; try done.
  by intros [= <- _ _].
Qed.

Lemma check_gaps_fail_fast self df (file_str : option string)
    (errors warnings errors' warnings' : list string) log log' :
  fail_fast self = true →
  check_gaps format_fixed repr_list self df file_str errors warnings log
  = (Returns (errors', warnings'), log') →
  errors' = errors.
Proof.
  intros Hff. unfold check_gaps, try_except, bind, lift. rewrite Hff.
  destruct (validate_data_gaps self df None file_str) as [ws|[[]|]]; try done.
  by intros [= <- _ _].
Qed.

Lemma verdict_report self (errors warnings : list string) :
  let '(is_valid, errors', warnings') := verdict self errors warnings in
  (is_valid = true ↔ errors' = []) ∧
  (strict_mode self = true → is_valid = true → warnings' = []) ∧
  (strict_mode self = false → errors' = errors) ∧
  warnings' = warnings.
Proof.
  unfold verdict. destruct (strict_mode self); simpl.
  - case_bool_decide as Hw; simpl.
    + split; [|done]. split; [done|]. intros Happ.
      apply app_eq_nil in Happ as [_ ->]. done.
    + subst warnings.
      split; [|done]. by case_bool_decide.
  - split; [|done]. by case_bool_decide.
Qed.

(** X16. The report of [validate_full].  Whenever it returns,
    [is_valid] holds exactly when the list of errors is empty; in strict
    mode a valid report has no warnings; and under [fail_fast] (without
    strict mode) a report that is returned is valid, every error having been
    raised instead. *)
Theorem validate_full_report self df (file_path : option string)
    (loader_spec : option LoaderSpec) (time_column : option string) log
    (is_valid : bool) (errors warnings : list string) log' :
  validate_full parse_number format_fixed repr_list self df file_path loader_spec
    time_column log = (Returns (is_valid, errors, warnings), log') →
  (is_valid = true ↔ errors = []) ∧
  (strict_mode self = true → is_valid = true → warnings = []) ∧
  (fail_fast self = true → strict_mode self = false → is_valid = true).
Proof.
  unfold validate_full. case_bool_decide as Hempty.
  { destruct (fail_fast self) eqn:Hff; [done|]. by intros [= <- <- <- _]. }
  intros Hrun.
  apply bind_returns in Hrun as ([e1 w1] & log1 & Hspec & Hrun).
  apply bind_returns in Hrun as ([e2 w2] & log2 & Hts & Hrun).
  apply bind_returns in Hrun as ([e3 w3] & log3 & Hgaps & Hrun).
  injection Hrun as Hv _.
  pose proof (verdict_report self e3 w3) as Hrep. rewrite Hv in Hrep.
  destruct Hrep as (Hiff & Hstrict & Herr & _).
  split; [done|]. split; [done|].
  intros Hff Hns. apply Hiff. rewrite (Herr Hns).
  apply (check_gaps_fail_fast _ _ _ _ _ _ _ _ _ Hff) in Hgaps as ->.
  apply (check_timestamps_fail_fast _ _ _ _ _ _ _ _ _ _ Hff) in Hts as ->.
  destruct loader_spec as [spec|]; [|by injection Hspec as <- _ _].
  by apply (check_spec_fail_fast _ _ _ _ _ _ _ _ Hff) in Hspec.
Qed.

(** The normal form of [validate_full] in accumulate mode. *)
Lemma validate_full_accumulate_form self df (file_path : option string)
    (loader_spec : option LoaderSpec) (time_column : option string) log :
  fail_fast self = false →
  nrows df ≠ 0 →
  ∃ errors warnings log',
    validate_full parse_number format_fixed repr_list self df file_path loader_spec
      time_column log
    = (Returns (verdict self errors (warnings ++ validate self df)), log') ∧
    (errors = [] ↔ match loader_spec with
                   | Some spec => meets parse_number spec df
                   | None => True
                   end).
Proof.
  intros Hff Hrows. unfold validate_full. rewrite bool_decide_false by done.
  assert (∃ e1 w1 log1,
            match loader_spec with
            | Some spec =>
                check_spec parse_number format_fixed repr_list self df
                  (truthy file_path) spec
            | None => ret ([], [])
            end log = (Returns (e1, w1), log1) ∧
            (e1 = [] ↔ match loader_spec with
                       | Some spec => meets parse_number spec df
                       | None => True
                       end)) as (e1 & w1 & log1 & Hspec & Hiff).
  { destruct loader_spec as [spec|].
    - by apply check_spec_accumulate.
    - by exists [], [], log. }
  destruct (check_timestamps_accumulate self df (truthy file_path) time_column
              e1 w1 log1 Hff) as [ws Hts].
  exists e1, (w1 ++ ws), log1. split; [|done].
  rewrite (bind_eq _ _ _ _ _ Hspec). cbv beta iota.
  rewrite (bind_eq _ _ _ _ _ Hts). cbv beta iota.
  rewrite (bind_eq _ _ _ _ _ (check_gaps_accumulate self df _ _ _ _ Hff)). done.
Qed.

(** X17. Without [fail_fast], [validate_full] never raises: it returns a
    report for every table, specification and time column; for a table
    without rows the report is invalid with the single error "Plik jest
    pusty", and nothing is printed. *)
Theorem validate_full_accumulates self df (file_path : option string)
    (loader_spec : option LoaderSpec) (time_column : option string) log :
  fail_fast self = false →
  ∃ report log',
    validate_full parse_number format_fixed repr_list self df file_path loader_spec
      time_column log = (Returns report, log') ∧
    (nrows df = 0 → report = (false, ["Plik jest pusty"], []) ∧ log' = log).
Proof.
  intros Hff. destruct (decide (nrows df = 0)) as [Hrows|Hrows].
  - exists (false, ["Plik jest pusty"], []), log. split; [|done].
    unfold validate_full. by rewrite bool_decide_true, Hff.
  - destruct (validate_full_accumulate_form self df file_path loader_spec time_column
                log Hff Hrows) as (errors & warnings & log' & Hrun & _).
    eexists _, log'. split; [exact Hrun|done].
Qed.

(** X18. What makes a table valid.  Without [fail_fast] and strict mode,
    a table with rows is valid exactly when it meets the loader's
    specification (required columns present, no numeric column of the
    specification mostly invalid), and always when no specification is
    given: timestamp anomalies and data gaps never make it invalid.  The
    gap issues of the legacy [validate] are the last warnings of the
    report. *)
Theorem validate_full_valid_iff self df (file_path : option string)
    (loader_spec : option LoaderSpec) (time_column : option string) log
    (is_valid : bool) (errors warnings : list string) log' :
  fail_fast self = false →
  strict_mode self = false →
  nrows df ≠ 0 →
  validate_full parse_number format_fixed repr_list self df file_path loader_spec
    time_column log = (Returns (is_valid, errors, warnings), log') →
  (is_valid = true ↔ match loader_spec with
                     | Some spec => meets parse_number spec df
                     | None => True
                     end) ∧
  ∃ other_warnings, warnings = other_warnings ++ validate self df.
Proof.
  intros Hff Hns Hrows Hrun.
  destruct (validate_full_accumulate_form self df file_path loader_spec time_column
              log Hff Hrows) as (e & w & log1 & Hform & Hiff).
  rewrite Hform in Hrun. injection Hrun as Hv _.
  pose proof (verdict_report self e (w ++ validate self df)) as Hrep.
  rewrite Hv in Hrep. destruct Hrep as (Hvalid & _ & Herr & Hw).
  rewrite Hvalid, (Herr Hns), Hiff. split; [done|]. by exists w.
Qed.

End full_theory.

Lemma validate_full_report_witness :
  validate_full (λ _, None) (λ _ _, "16.7") (λ _, "['n/a']")
    (new_validator (Some 5%Z) true false) smo2_ex None None None []
  = (Returns (true, [], []), []) ∧
  (true = true ↔ @nil string = []).
Proof.
  split; [vm_compute; reflexivity|].
  eapply (proj1 (validate_full_report (λ _, None) (λ _ _, "16.7") (λ _, "['n/a']")
                   (new_validator (Some 5%Z) true false) smo2_ex None None None []
                   true _ _ _ ltac:(vm_compute; reflexivity))).
Defined.

Lemma validate_full_accumulates_witness :
  ∃ report log',
    validate_full (λ _, None) (λ _ _, "16.7") (λ _, "['n/a']")
      (new_validator (Some 4%Z) false false) smo2_ex (Some "trainred.csv")
      (Some spec_ex) None []
    = (Returns report, log').
Proof.
  destruct (validate_full_accumulates (λ _, None) (λ _ _, "16.7") (λ _, "['n/a']")
              (new_validator (Some 4%Z) false false) smo2_ex (Some "trainred.csv")
              (Some spec_ex) None [] eq_refl) as (report & log' & Hrun & _).
  by exists report, log'.
Defined.

Lemma validate_full_valid_iff_witness :
  validate_full (λ _, None) (λ _ _, "16.7") (λ _, "['n/a']")
    (new_validator (Some 4%Z) false false) smo2_ex None None None []
  = (Returns (true, [], ["Kolumna 'SmO2': 4 pustych wierszy z rzędu"]), []) ∧
  (true = true ↔ True).
Proof.
  split; [vm_compute; reflexivity|].
  eapply (proj1 (validate_full_valid_iff (λ _, None) (λ _ _, "16.7") (λ _, "['n/a']")
                   (new_validator (Some 4%Z) false false) smo2_ex None None None []
                   true _ _ _ eq_refl eq_refl ltac:(vm_compute; lia)
                   ltac:(vm_compute; reflexivity))).
Defined.

(** ** Validating a batch of files (integrity.py, utils.py) *)
Section files_theory.
Context {V : Type}.
Implicit Types (self : IntegrityValidator) (df : DataFrame V).
Implicit Types (files : list (string * string)) (read_func : string → option (DataFrame V)).

Lemma dict_set_elem {A : Type} (d : list (string * A)) (k : string) (v : A)
    (p : string) (x : A) :
  (p, x) ∈ dict_set d k v ↔ (p ≠ k ∧ (p, x) ∈ d) ∨ (p = k ∧ x = v).
Proof.
  unfold dict_set. case_bool_decide as Hk.
  - rewrite list_elem_of_fmap. split.
    + intros ([p' x'] & Heq & Hin). simpl in Heq.
      destruct (decide (p' = k)) as [->|Hne]; simplify_eq; [by right|by left].
    + intros [[Hne Hin]|[-> ->]].
      * exists (p, x). simpl. by rewrite decide_False.
      * apply list_elem_of_fmap in Hk as ([k' x'] & -> & Hin).
        exists (k', x'). simpl. by rewrite decide_True.
  - rewrite elem_of_app, list_elem_of_singleton. split.
    + intros [Hin|[= -> ->]]; [|by right]. left. split; [|done].
      intros ->. apply Hk. by apply (list_elem_of_fmap_2 fst) in Hin.
    + intros [[_ Hin]|[-> ->]]; [by left|by right].
Qed.

Lemma read_all_elem {A : Type} (read : string → option A) (schedule : list string) :
  ∀ (d : list (string * A)),
    (∀ p x, (p, x) ∈ d → read p = Some x) →
    ∀ p x,
      (p, x) ∈ foldl (λ results path,
                        match read path with
                        | Some df => dict_set results path df
                        | None => results
                        end) d schedule
      ↔ (p, x) ∈ d ∨ (p ∈ schedule ∧ read p = Some x).
Proof.
  induction schedule as [|k schedule IH]; intros d Hd p x.
  { simpl. split; [by left|]. intros [?|[Hin _]]; [done|by apply elem_of_nil in Hin]. }
  cbn [foldl]. destruct (read k) as [v|] eqn:Hk.
  - rewrite IH.
    2:{ intros p' x' [[_ Hin]|[-> ->]]%dict_set_elem; [by apply Hd|done]. }
    rewrite dict_set_elem, elem_of_cons. split.
    + intros [[[Hne Hin]|[-> ->]]|[Hin Hr]]; [by left|by right; split; [left|]|].
      right. split; [by right|done].
    + intros [Hin|[[->|Hin] Hr]].
      * destruct (decide (p = k)) as [->|Hne].
        -- left. right. split; [done|]. apply Hd in Hin. congruence.
        -- left. left. done.
      * left. right. split; [done|congruence].
      * right. done.
  - rewrite IH by done. rewrite elem_of_cons. split.
    + intros [?|[? ?]]; [by left|right; split; [by right|done]].
    + intros [?|[[->|?] Hr]]; [by left|congruence|by right].
Qed.

Lemma read_csvs_parallel_elem {A : Type} (as_completed : list string → list string)
    (paths : list string) (read : string → option A) (p : string) (x : A) :
  as_completed paths ≡ₚ paths →
  (p, x) ∈ read_csvs_parallel as_completed paths read ↔ p ∈ paths ∧ read p = Some x.
Proof.
  intros Hperm. unfold read_csvs_parallel. case_bool_decide as Hnil.
  - subst paths. split; [by intros ?%elem_of_nil|by intros [?%elem_of_nil _]].
  - rewrite read_all_elem by (by intros ? ? ?%elem_of_nil). rewrite Hperm.
    split; [by intros [?%elem_of_nil|?]|by right].
Qed.

Lemma report_issues_found (source_name path : string) (issues : list string)
    (st : bool * list ui_call) :
  (report_issues source_name path issues st).1 = st.1 || bool_decide (issues ≠ []).
Proof.
  unfold report_issues. case_bool_decide; simpl; [by rewrite orb_true_r|].
  by rewrite orb_false_r.
Qed.

Lemma sequential_found self read_func files :
  ∀ (st : bool * list ui_call),
    (foldl (λ st '(file_path, source_name),
              match read_func file_path with
              | None => (st.1, st.2 ++ [ui_error (ReadError file_path)])
              | Some df => report_issues source_name file_path (validate self df) st
              end) st files).1
    = st.1 || existsb (λ f, match read_func f.1 with
                            | Some df => bool_decide (validate self df ≠ [])
                            | None => false
                            end) files.
Proof.
  induction files as [|[file_path source_name] files IH]; intros st.
  { simpl. by rewrite orb_false_r. }
  cbn [foldl existsb]. rewrite IH. cbn [fst].
  destruct (read_func file_path) as [df|]; [|by simpl].
  rewrite report_issues_found. by rewrite orb_assoc.
Qed.

Lemma parallel_found self (path_to_source : list (string * string))
    (dfs : list (string * DataFrame V)) :
  ∀ (st : bool * list ui_call),
    (foldl (λ st '(path, df),
              let source_name := default "" (dict_get path_to_source path) in
              report_issues source_name path (validate self df) st) st dfs).1
    = st.1 || existsb (λ r, bool_decide (validate self r.2 ≠ [])) dfs.
Proof.
  induction dfs as [|[path df] dfs IH]; intros st.
  { simpl. by rewrite orb_false_r. }
  cbn [foldl existsb]. rewrite IH. cbv zeta. rewrite report_issues_found.
  by rewrite orb_assoc.
Qed.

(** X19. The verdict of [validate_files].  Whatever the order in which
    the parallel reads finish, and whether the files are read in parallel or
    one by one, the result is [True] exactly when every file that can be
    read passes the legacy [validate]; a file that cannot be read never
    makes the batch fail. *)
Theorem validate_files_verdict (as_completed : list string → list string) self files
    read_func (parallel : bool) :
  (∀ paths, as_completed paths ≡ₚ paths) →
  (validate_files as_completed self files read_func parallel).1
  = forallb (λ f, match read_func f.1 with
                  | Some df => bool_decide (validate self df = [])
                  | None => true
                  end) files.
Proof.
  intros Hperm.
  assert (Hneg : forallb (λ f, match read_func f.1 with
                               | Some df => bool_decide (validate self df = [])
                               | None => true
                               end) files
                 = negb (existsb (λ f, match read_func f.1 with
                                       | Some df => bool_decide (validate self df ≠ [])
                                       | None => false
                                       end) files)).
  { induction files as [|f files IH]; [done|]. cbn [forallb existsb].
    rewrite IH, negb_orb. f_equal. destruct (read_func f.1); [|done].
    by repeat case_bool_decide. }
  rewrite Hneg. unfold validate_files.
  destruct (parallel && bool_decide (1 < length files)).
  - match goal with
    | |- (let '(_, _) := ?x in _).1 = _ => destruct x as [found log] eqn:Hx
    end.
    apply (f_equal fst) in Hx. rewrite parallel_found in Hx. simpl in Hx.
    assert (found = existsb (λ f, match read_func f.1 with
                                  | Some df => bool_decide (validate self df ≠ [])
                                  | None => false
                                  end) files) as ->.
    { rewrite <- Hx. apply eq_true_iff_eq. rewrite !existsb_exists. split.
      - intros ([p df] & Hin & Hbad). apply list_elem_of_In in Hin.
        apply read_csvs_parallel_elem in Hin as [Hp Hr]; [|done].
        apply list_elem_of_fmap in Hp as ([p' src] & -> & Hf).
        exists (p', src). split; [by apply list_elem_of_In|]. simpl in *.
        by rewrite Hr.
      - intros ([p src] & Hin & Hbad). apply list_elem_of_In in Hin. simpl in Hbad.
        destruct (read_func p) as [df|] eqn:Hr; [|done].
        exists (p, df). split; [|done]. apply list_elem_of_In.
        apply read_csvs_parallel_elem; [done|]. split; [|done].
        by apply (list_elem_of_fmap_2 fst) in Hin. }
    by destruct (existsb _ files).
  - match goal with
    | |- (let '(_, _) := ?x in _).1 = _ => destruct x as [found log] eqn:Hx
    end.
    apply (f_equal fst) in Hx. rewrite sequential_found in Hx. simpl in Hx.
    rewrite <- Hx. by destruct (existsb _ files).
Qed.

End files_theory.

Lemma validate_files_verdict_witness :
  (validate_files reverse (new_validator (Some 2%Z) false false)
     [("short.csv", "TrainRed"); ("missing.csv", "Garmin"); ("long.csv", "Tymewear")]
     fs_ex true).1 = true.
Proof.
  rewrite (validate_files_verdict reverse (new_validator (Some 2%Z) false false)
             [("short.csv", "TrainRed"); ("missing.csv", "Garmin");
              ("long.csv", "Tymewear")] fs_ex true).
  - reflexivity.
  - intros paths. apply reverse_Permutation.
Defined.

(** ** The header search (utils.py, quick_merge.py) *)
Section header_theory.
Context (lower : string → string).

Lemma prefix_append (needle hay : string) :
  String.prefix needle hay = true ↔ ∃ post, hay = needle +:+ post.
Proof.
  revert hay. induction needle as [|a needle IH]; intros hay.
  - split; [|by destruct hay]. intros _. by exists hay.
  - destruct hay as [|b hay]; [by split; [|intros [? ?]]|].
    cbn [String.prefix]. destruct (Ascii.ascii_dec a b) as [->|Hne].
    + rewrite IH. split.
      * intros [post ->]. by exists post.
      * intros [post [= ->]]. by exists post.
    + split; [done|]. intros [post [= ? ?]]. done.
Qed.

Lemma contains_substring (hay needle : string) :
  contains hay needle = true ↔ ∃ pre post, hay = pre +:+ needle +:+ post.
Proof.
  induction hay as [|a hay IH]; cbn [contains]; rewrite orb_true_iff, prefix_append.
  - split.
    + intros [[post Hp]|?]; [|done]. by exists "", post.
    + intros (pre & post & Hp). left. destruct pre; [by exists post|done].
  - rewrite IH. split.
    + intros [[post Hp]|(pre & post & Hp)]; [by exists "", post|].
      exists (String a pre), post. simpl. by rewrite Hp.
    + intros (pre & post & Hp). destruct pre as [|b pre].
      * left. by exists post.
      * right. injection Hp as -> Hp. by exists pre, post.
Qed.

Lemma scan_spec (keywords : list string) (limit : Z) (lines : list string) :
  ∀ i0 : nat,
    match scan lower keywords limit i0 lines with
    | Some i =>
        i0 ≤ i ∧ (Z.of_nat i < limit)%Z ∧
        (∃ line, lines !! (i - i0) = Some line ∧
                 has_keywords lower keywords line = true) ∧
        ∀ j line, j < i - i0 → lines !! j = Some line →
                  has_keywords lower keywords line = false
    | None =>
        ∀ j line, lines !! j = Some line → (Z.of_nat (i0 + j) < limit)%Z →
                  has_keywords lower keywords line = false
    end.
Proof.
  induction lines as [|line rest IH]; intros i0; cbn [scan].
  { intros j line Hj. done. }
  destruct (limit <=? Z.of_nat i0)%Z eqn:Hlim.
  { apply Z.leb_le in Hlim. intros j l _ Hlt. lia. }
  apply Z.leb_gt in Hlim.
  destruct (has_keywords lower keywords line) eqn:Hline.
  { split; [done|]. split; [done|]. split.
    - exists line. by rewrite Nat.sub_diag.
    - intros j l Hj. lia. }
  specialize (IH (S i0)). destruct (scan lower keywords limit (S i0) rest) as [i|].
  - destruct IH as (Hle & Hlt & (l & Hl & Hhas) & Hbefore).
    split; [lia|]. split; [done|]. split.
    + exists l. replace (i - i0) with (S (i - S i0)) by lia. done.
    + intros j l' Hj Hl'. destruct j as [|j]; [by injection Hl' as <-|].
      apply (Hbefore j); [lia|done].
  - intros j l Hl Hlt. destruct j as [|j]; [by injection Hl as <-|].
    apply (IH j); [done|]. lia.
Qed.

(** X20. [find_header_row] returns the first line, among the first
    [max_lines] lines of the file, that contains every keyword (both
    lower-cased): the line returned qualifies and no earlier line does;
    [None] means that no line among the first [max_lines] qualifies.  A file
    that cannot be read raises [FileFormatError] with reason [read_error];
    the copy in quick_merge.py returns the same row, and [None] instead of
    raising. *)
Theorem find_header_row_spec (open_ : string → list string + string) (path : string)
    (keywords : list string) (max_lines : option Z) :
  let limit := default HEADER_SCAN_MAX_LINES max_lines in
  (∀ line, has_keywords lower keywords line = true
           ↔ ∀ k, k ∈ keywords → ∃ pre post, lower line = pre +:+ lower k +:+ post) ∧
  match open_ path with
  | inl lines =>
      ∃ row, find_header_row lower open_ path keywords max_lines = Returns row ∧
             quick_merge.find_header_row lower open_ path keywords (Some limit) = row ∧
             match row with
             | Some i =>
                 (Z.of_nat i < limit)%Z ∧
                 (∃ line, lines !! i = Some line ∧
                          has_keywords lower keywords line = true) ∧
                 ∀ j line, j < i → lines !! j = Some line →
                           has_keywords lower keywords line = false
             | None =>
                 ∀ j line, lines !! j = Some line → (Z.of_nat j < limit)%Z →
                           has_keywords lower keywords line = false
             end
  | inr e =>
      find_header_row lower open_ path keywords max_lines
      = Raises (Validation (FileFormatError "read_error" (Some path) (Some e))) ∧
      quick_merge.find_header_row lower open_ path keywords (Some limit) = None
  end.
Proof.
  intros limit. split.
  { intros line. unfold has_keywords. rewrite forallb_forall. split.
    - intros H k Hk. apply contains_substring, H. by apply list_elem_of_In.
    - intros H k Hk. apply contains_substring, H. by apply list_elem_of_In. }
  unfold find_header_row, quick_merge.find_header_row. fold limit. simpl.
  destruct (open_ path) as [lines|e]; [|done].
  eexists. split; [reflexivity|]. split; [reflexivity|].
  pose proof (scan_spec keywords limit lines 0) as Hscan.
  destruct (scan lower keywords limit 0 lines) as [i|].
  - destruct Hscan as (_ & Hlt & Hline & Hbefore).
    rewrite Nat.sub_0_r in Hline. split; [done|]. split; [done|].
    intros j line Hj. apply Hbefore. lia.
  - intros j line Hl Hlt. by apply (Hscan j).
Qed.

End header_theory.

(** ** The stand-alone merge (quick_merge.py) *)
Section quick_theory.
Context {V : Type}.
Implicit Types (df base d : DataFrame V) (st : batch (V:=V)) (seen : gset string).
Implicit Types (ui : UserInterface).
Implicit Types (fs : string → option (DataFrame V)) (files : list string).

Lemma dedup_new_columns seen df :
  (if bool_decide (filter (λ col, col ∈ seen) (columns df) ≠ [])
   then drop_columns (filter (λ col, col ∈ seen) (columns df)) df
   else df)
  = new_columns seen df.
Proof.
  rewrite <- (drop_duplicates_new _ _ (columns df)).
  2:{ intros p Hp. by apply list_elem_of_fmap_2. }
  destruct (bool_decide (filter (λ col, col ∈ seen) (columns df) ≠ [])) eqn:Hd; [done|].
  apply bool_decide_eq_false, dec_stable in Hd. by rewrite Hd, drop_no_columns.
Qed.

Lemma empty_new_columns seen df : empty df = true → empty (new_columns seen df) = true.
Proof.
  unfold empty. rewrite !orb_true_iff, !bool_decide_eq_true.
  intros [Hlen|Hrows].
  - left. destruct df; [done|discriminate Hlen].
  - right. pose proof (nrows_new_columns seen df). lia.
Qed.

Lemma quick_step_frames (q : list (DataFrame V) * gset string) df :
  quick_merge.merge_step q df
  = (q.1 ++ (let d := new_columns q.2 df in
             if empty d || bool_decide (length (columns d) = 0) then [] else [d]),
     q.2 ∪ list_to_set
             (columns (mjoin (let d := new_columns q.2 df in
                              if empty d || bool_decide (length (columns d) = 0)
                              then [] else [d])))).
Proof.
  unfold quick_merge.merge_step. cbv zeta. rewrite dedup_new_columns.
  destruct (empty df) eqn:Hempty.
  - rewrite (empty_new_columns _ _ Hempty). simpl.
    rewrite app_nil_r. destruct q as [dfs seen]. simpl. f_equal.
    change (list_to_set (columns [])) with (∅ : gset string).
    by rewrite (right_id_L ∅ (∪)).
  - destruct (empty _ || bool_decide _); simpl.
    + rewrite app_nil_r. destruct q as [dfs seen]. simpl. f_equal.
      change (list_to_set (columns [])) with (∅ : gset string).
      by rewrite (right_id_L ∅ (∪)).
    + by rewrite app_nil_r.
Qed.

Lemma quick_fold_batch fs files :
  ∀ st, foldl quick_merge.merge_step (all_dfs st, seen_columns st) (omap fs files)
        = (all_dfs (foldl (merge_step fs) st files),
           seen_columns (foldl (merge_step fs) st files)).
Proof.
  induction files as [|p files IH]; intros st; [done|].
  cbn [omap list_omap foldl].
  destruct (merge_step_frames fs st p) as [Hd Hs].
  rewrite <- IH, Hd, Hs. unfold contribution.
  destruct (fs p) as [df|] eqn:Hfs.
  - cbn [foldl]. by rewrite quick_step_frames.
  - rewrite app_nil_r.
    change (list_to_set (columns (mjoin []))) with (∅ : gset string).
    by rewrite (right_id_L ∅ (∪)).
Qed.

Lemma all_notna_complete df (i : nat) :
  no_blank df → quick_merge.all_notna df i = row_complete df i.
Proof.
  intros Hnb. unfold quick_merge.all_notna, row_complete.
  induction df as [|[c s] df IH]; [done|].
  cbn [forallb]. rewrite IH.
  2:{ intros c' s' x Hin. apply (Hnb c' s' x). by right. }
  f_equal. simpl. destruct (s !! i) as [cell|] eqn:Hcell; [|done].
  destruct cell as [| |x]; try done. simpl.
  rewrite (Hnb c s x); [done|by left|]. by eapply list_elem_of_lookup_2.
Qed.

Lemma no_blank_concat (dfs : list (DataFrame V)) :
  Forall no_blank dfs → no_blank (concat_axis1 dfs).
Proof.
  intros Hall c s x Hin Hx. unfold concat_axis1 in Hin.
  apply list_elem_of_fmap in Hin as ([c' s'] & [= -> ->] & Hin).
  apply list_elem_of_join in Hin as (d & Hin & Hd).
  rewrite Forall_forall in Hall. apply (Hall d Hd c' s' x Hin).
  unfold pad in Hx. apply elem_of_app in Hx as [Hx|Hx]; [done|].
  by apply elem_of_replicate in Hx as [? _].
Qed.

Lemma no_blank_batch fs base files :
  no_blank base →
  (∀ p d, p ∈ files → fs p = Some d → no_blank d) →
  Forall no_blank (all_dfs (merge_batch fs base files)).
Proof.
  intros Hbase Hsrc.
  destruct (merge_batch_frames fs base files) as (kept & -> & Hkept).
  constructor; [done|]. eapply Forall_impl; [exact Hkept|].
  intros d (_ & p & df_new & seen & Hp & Hfs & ->) c s x Hin Hx.
  apply list_elem_of_filter in Hin as [_ Hin].
  by apply (Hsrc p df_new Hp Hfs c s x).
Qed.

(** X21. The stand-alone script merges like the library.  For a base that
    is not empty, and tables without blank strings, [merge_dataframes] of
    the base and the tables read from the clean files is the table that
    [merge_files] returns with the tail validation on and the head
    validation off. *)
Theorem merge_dataframes_agrees ui fs base files :
  empty base = false →
  no_blank base →
  (∀ p d, p ∈ files → fs p = Some d → no_blank d) →
  (quick_merge.merge_dataframes base (omap fs files)).1
  = (merge_files ui fs base files false true).1.
Proof.
  intros Hne Hbase Hsrc.
  rewrite merge_files_trims. unfold trims. cbn [fst].
  unfold quick_merge.merge_dataframes. rewrite Hne.
  pose proof (quick_fold_batch fs files
                {| all_dfs := [base];
                   seen_columns := list_to_set (columns base);
                   printed := [print_message MergingAll; print_separator] |}) as Hfold.
  cbn [all_dfs seen_columns] in Hfold. fold (merge_batch fs base files) in Hfold.
  rewrite Hfold. cbn [fst]. cbv zeta.
  set (m := concat_axis1 (all_dfs (merge_batch fs base files))).
  assert (Hnb : no_blank m) by (by apply no_blank_concat, no_blank_batch).
  assert (filter (λ i, quick_merge.all_notna m i = true) (seq 0 (nrows m))
          = complete_indices m) as ->.
  { unfold complete_indices. apply list_filter_iff. intros i.
    by rewrite all_notna_complete. }
  destruct (last (complete_indices m)) as [l|] eqn:Hlast.
  - destruct (trim_tail_at m l Hlast) as (_ & _ & _ & ->). done.
  - by rewrite trim_tail_none.
Qed.

End quick_theory.

Lemma merge_dataframes_agrees_witness :
  (quick_merge.merge_dataframes base_ex (omap fs_ex ["short.csv"; "long.csv"])).1
  = (merge_files ui_yes fs_ex base_ex ["short.csv"; "long.csv"] false true).1.
Proof.
  apply (merge_dataframes_agrees ui_yes fs_ex base_ex ["short.csv"; "long.csv"]).
  - reflexivity.
  - intros c s x Hin Hx. exfalso.
    repeat (apply elem_of_cons in Hin as [[= -> ->]|Hin];
            [repeat (apply elem_of_cons in Hx as [Hx|Hx]; [discriminate Hx|]);
             by apply elem_of_nil in Hx|]).
    by apply elem_of_nil in Hin.
  - intros p d Hp Hd c s x Hin Hx. exfalso.
    apply elem_of_cons in Hp as [->|Hp].
    { injection Hd as <-.
      repeat (apply elem_of_cons in Hin as [[= -> ->]|Hin];
              [repeat (apply elem_of_cons in Hx as [Hx|Hx]; [discriminate Hx|]);
               by apply elem_of_nil in Hx|]).
      by apply elem_of_nil in Hin. }
    apply elem_of_cons in Hp as [->|Hp]; [|by apply elem_of_nil in Hp].
    injection Hd as <-.
    repeat (apply elem_of_cons in Hin as [[= -> ->]|Hin];
            [repeat (apply elem_of_cons in Hx as [Hx|Hx]; [discriminate Hx|]);
             by apply elem_of_nil in Hx|]).
    by apply elem_of_nil in Hin.
Defined.

(** ** The end of the merged table, parallel reads, and when interpolation returns (merger.py, utils.py, interpolation.py) *)
Section tail_end_theory.
Context {V : Type}.
Implicit Types (df base d : DataFrame V).
Implicit Types (ui : UserInterface).
Implicit Types (fs : string → option (DataFrame V)) (files : list string).

Lemma trim_tail_ends_complete df :
  let df' := (_validate_and_trim_tail df).1 in
  complete_indices df' = [] ∨
  (0 < nrows df' ∧ row_complete df' (nrows df' - 1) = true).
Proof.
  intros df'. subst df'.
  destruct (last (complete_indices df)) as [l|] eqn:Hlast.
  - right. destruct (trim_tail_shape df l Hlast) as (Hn & Hrow & _).
    rewrite Hn. split; [lia|]. by replace (l + 1 - 1) with l by lia.
  - left. rewrite trim_tail_none by done. by apply last_None.
Qed.

(** X22. With the tail validation on, the table [merge_files] returns
    ends with a complete row whenever it has a complete row at all: either
    no row of the result is complete (nothing could be trimmed), or its last
    row has no missing value. *)
Theorem merge_files_ends_complete ui fs base files (validate_head : bool) :
  let merged := (merge_files ui fs base files validate_head true).1 in
  complete_indices merged = [] ∨
  (0 < nrows merged ∧ row_complete merged (nrows merged - 1) = true).
Proof.
  intros merged. subst merged. rewrite merge_files_trims. unfold trims.
  apply trim_tail_ends_complete.
Qed.

End tail_end_theory.

Section parallel_theory.
Context {A : Type}.
Implicit Types (d : list (string * A)) (read : string → option A).

Lemma dict_set_keys d (k : string) (v : A) :
  NoDup d.*1 → NoDup (dict_set d k v).*1.
Proof.
  intros Hnd. unfold dict_set. case_bool_decide as Hk.
  - assert (((λ p : string * A, if decide (p.1 = k) then (k, v) else p) <$> d).*1
            = d.*1) as ->; [|done].
    rewrite <- list_fmap_compose. apply list_fmap_ext. intros i [k' x] _. simpl.
    by destruct (decide (k' = k)) as [->|].
  - rewrite fmap_app. apply NoDup_app. split; [done|]. split.
    + intros x Hx [->|[]%elem_of_nil]%elem_of_cons. done.
    + apply NoDup_singleton.
Qed.

Lemma read_all_keys read (schedule : list string) :
  ∀ d, NoDup d.*1 →
       NoDup (foldl (λ results path,
                       match read path with
                       | Some df => dict_set results path df
                       | None => results
                       end) d schedule).*1.
Proof.
  induction schedule as [|k schedule IH]; intros d Hnd; [done|].
  cbn [foldl]. apply IH. destruct (read k); [by apply dict_set_keys|done].
Qed.

Lemma dict_get_elem d (k : string) (x : A) :
  NoDup d.*1 → dict_get d k = Some x ↔ (k, x) ∈ d.
Proof.
  induction d as [|[k' x'] d IH]; intros Hnd.
  { split; [done|by intros ?%elem_of_nil]. }
  rewrite fmap_cons in Hnd. apply NoDup_cons in Hnd as [Hnin Hnd].
  unfold dict_get in *. cbn [list_find]. simpl.
  destruct (decide (k' = k)) as [->|Hne]; simpl.
  - split.
    + intros [= ->]. by left.
    + intros [[= ->]|Hin]%elem_of_cons; [done|].
      destruct Hnin. by apply (list_elem_of_fmap_2 fst) in Hin.
  - rewrite elem_of_cons. rewrite <- (IH Hnd).
    destruct (list_find (λ p, p.1 = k) d) as [[i p]|]; simpl.
    + split; [by right|]. by intros [[= ? ?]|?].
    + split; [done|]. by intros [[= ? ?]|?].
Qed.

(** X23. [read_csvs_parallel], whatever the order in which the reads
    finish: the result has each path at most once; it holds exactly the
    paths given whose read succeeded, each with the table read; and looking
    a path up gives what reading it gives (nothing for a path not
    submitted, or whose read failed). *)
Theorem read_csvs_parallel_spec (as_completed : list string → list string)
    (paths : list string) read :
  as_completed paths ≡ₚ paths →
  let results := read_csvs_parallel as_completed paths read in
  NoDup results.*1 ∧
  (∀ p x, (p, x) ∈ results ↔ p ∈ paths ∧ read p = Some x) ∧
  (∀ p, dict_get results p = if decide (p ∈ paths) then read p else None).
Proof.
  intros Hperm results.
  assert (Hkeys : NoDup results.*1).
  { subst results. unfold read_csvs_parallel. case_bool_decide; [constructor|].
    apply read_all_keys. constructor. }
  assert (Helem : ∀ p x, (p, x) ∈ results ↔ p ∈ paths ∧ read p = Some x).
  { intros p x. by apply read_csvs_parallel_elem. }
  split; [done|]. split; [done|].
  intros p. destruct (dict_get results p) as [x|] eqn:Hget.
  - apply dict_get_elem, Helem in Hget as [Hp Hr]; [|done].
    by rewrite decide_True.
  - destruct (decide (p ∈ paths)) as [Hp|Hp]; [|done].
    destruct (read p) as [x|] eqn:Hr; [|done].
    assert (dict_get results p = Some x) as Hsome.
    { apply dict_get_elem; [done|]. by apply Helem. }
    congruence.
Qed.

End parallel_theory.

Lemma read_csvs_parallel_witness :
  dict_get (read_csvs_parallel reverse ["short.csv"; "missing.csv"; "long.csv"] fs_ex)
    "long.csv"
  = Some [("THb", [Num 12; Num 13; Num 14; Num 15]%Z)].
Proof.
  destruct (read_csvs_parallel_spec reverse ["short.csv"; "missing.csv"; "long.csv"]
              fs_ex (reverse_Permutation _)) as (_ & _ & Hget).
  rewrite Hget. reflexivity.
Defined.

Section returns_theory.
Import interpolation.
#[local] Abbreviation Q := QArith_base.Q.
Implicit Types (series : Series Q) (df : DataFrame Q).
Implicit Types (method : InterpolationMethod).

Lemma interpolate_column_returns series method (max_gap : Z) :
  method ≠ linear →
  ∃ series', interpolate_column series method max_gap = Ok series'.
Proof.
  intros Hm. unfold interpolate_column. destruct (_ || _).
  - destruct method; simpl; eauto. done.
  - rewrite interpolate_small_gaps_same. eauto.
Qed.

Lemma interpolate_fold_returns method (max_gap : Z) (cols : list string) :
  method ≠ linear →
  ∀ df (total : Z),
    ∃ df' total',
      foldl (interpolate_step method max_gap) (Ok (df, total)) cols = Ok (df', total').
Proof.
  intros Hm. induction cols as [|col cols IH]; intros df total; [by eauto|].
  cbn [foldl]. unfold interpolate_step at 2.
  destruct (get_col df col) as [series|]; [|apply IH].
  case_bool_decide; [apply IH|].
  destruct (interpolate_column_returns series method max_gap Hm) as [series' ->].
  apply IH.
Qed.

(** X24. When [interpolate_time_gaps] returns: always with
    [columns=None] (the columns it then selects hold no strings) on a table
    with distinct labels, and always for a method other than [linear],
    whatever columns are listed.  (Only linear interpolation of a listed
    column that holds strings raises.) *)
Theorem interpolate_time_gaps_returns df (time_col : string) method (max_gap : Z)
    (columns : option (list string)) :
  (columns = None ∧ NoDup (Frame.columns df)) ∨ method ≠ linear →
  ∃ df' total_filled,
    interpolate_time_gaps df time_col method max_gap columns = Ok (df', total_filled).
Proof.
  intros Hcase.
  assert (method = none ∨ method ≠ none) as [->|Hnone]
    by (destruct method; auto).
  { by exists df, 0%Z. }
  rewrite interpolate_time_gaps_fold by done.
  destruct Hcase as [[-> Hnd]|Hm].
  - destruct (interpolate_fold method max_gap
                (filter (λ c, c ≠ time_col)
                   (filter (λ p : string * Series Q, is_numeric p.2 = true) df).*1))
      with (df := df) (total := 0%Z) as (df' & total' & Hfold & _).
    + apply NoDup_filter. by apply NoDup_columns_filter.
    + intros col s0 [_ Hin]%list_elem_of_filter Hs0.
      apply list_elem_of_fmap in Hin as ([col' s1] & -> & [Hs1 Hin]%list_elem_of_filter).
      simpl in *. apply (get_col_NoDup df col' s1 Hnd) in Hin. congruence.
    + by exists df', total'.
  - apply interpolate_fold_returns. done.
Qed.

End returns_theory.

Lemma interpolate_time_gaps_returns_witness :
  ∃ df' total_filled,
    interpolation.interpolate_time_gaps
      [("secs", [q 0; q 1; q 2]); ("note", [Str "start"; NaN; Str "end"])]
      "secs" interpolation.ffill 2 (Some ["note"])
    = Ok (df', total_filled).
Proof.
  apply interpolate_time_gaps_returns. right. discriminate.
Defined.

(** ** The checks of columns and types (integrity.py) *)
Section columns_theory.
Context (parse_number : string → option float).
Context (format_fixed : nat → float → string).
Implicit Types (self : IntegrityValidator) (df : DataFrame float).
Implicit Types (log : list ui_call).

Lemma for_each_app {B S : Type} (body : S → B → M S) (l1 l2 : list B) :
  ∀ (init : S) log,
    for_each (l1 ++ l2) body init log
    = match for_each l1 body init log with
      | (Returns s, log') => for_each l2 body s log'
      | (Raises e, log') => (Raises e, log')
      end.
Proof.
  induction l1 as [|x l1 IH]; intros init log; [done|].
  rewrite <- app_comm_cons, !for_each_cons.
  destruct (body init x log) as [[s|e] log']; [apply IH|done].
Qed.

Lemma numeric_loop_clean self df (file_path : option string) (cols : list string) :
  ∀ (warnings : list string) log,
    (∀ col series, col ∈ cols → get_col df col = Some series →
       mostly_invalid parse_number series (nrows df) = false) →
    let ws := mjoin (type_issue parse_number format_fixed df <$> cols) in
    for_each cols (numeric_step parse_number format_fixed self df file_path)
      warnings log
    = (Returns (warnings ++ ws), log ++ ((λ w, ui_warning (TypeWarning w)) <$> ws)).
Proof.
  induction cols as [|col cols IH]; intros warnings log Hclean.
  { simpl. by rewrite !app_nil_r. }
  rewrite for_each_cons. cbv zeta. rewrite fmap_cons. cbn [mjoin list_join].
  assert (Hrest : ∀ c s, c ∈ cols → get_col df c = Some s →
                    mostly_invalid parse_number s (nrows df) = false)
    by (intros c s Hc; apply Hclean; by right).
  unfold numeric_step at 1. unfold type_issue at 1 3.
  destruct (get_col df col) as [series|] eqn:Hcol.
  2:{ cbn [ret]. by rewrite IH. }
  cbv zeta. pose proof (Hclean col series ltac:(by left) Hcol) as Hok.
  unfold mostly_invalid in Hok.
  destruct (bool_decide (0 < count_true (invalid parse_number <$> series))) eqn:Hcount.
  2:{ cbn [ret]. by rewrite IH. }
  simpl in Hok. rewrite Hok. unfold bind, print, ret.
  rewrite IH by done. cbv zeta.
  by rewrite fmap_app, <- !app_assoc.
Qed.

Lemma numeric_loop_first self df (file_path : option string)
    (pre post : list string) (col : string) (series : Series float)
    (warnings : list string) log :
  (∀ c s, c ∈ pre → get_col df c = Some s →
     mostly_invalid parse_number s (nrows df) = false) →
  get_col df col = Some series →
  mostly_invalid parse_number series (nrows df) = true →
  for_each (pre ++ col :: post)
    (numeric_step parse_number format_fixed self df file_path) warnings log
  = (Raises (Validation (InvalidDataTypeError col "numeric"
               (invalid_samples parse_number series)
               (count_true (invalid parse_number <$> series)) file_path)),
     log ++ ((λ w, ui_warning (TypeWarning w))
               <$> mjoin (type_issue parse_number format_fixed df <$> pre))).
Proof.
  intros Hpre Hcol Hbad. rewrite for_each_app, numeric_loop_clean by done.
  rewrite for_each_cons. unfold numeric_step at 1. rewrite Hcol. cbv zeta.
  unfold mostly_invalid in Hbad. apply andb_true_iff in Hbad as [-> ->]. done.
Qed.

(** X25. [validate_numeric_columns] in full.  When no listed column is
    mostly invalid, it returns one warning for each listed column that has
    entries that are not numbers, in order, and has printed exactly these
    warnings.  Otherwise it raises [InvalidDataTypeError] for the first
    listed column that is mostly invalid, with up to five of its invalid
    entries and their count, having printed the warnings of the columns
    before it. *)
Theorem validate_numeric_columns_spec self df (numeric_columns : list string)
    (file_path : option string) log :
  ((∀ col series, col ∈ numeric_columns → get_col df col = Some series →
      mostly_invalid parse_number series (nrows df) = false) →
   let warnings :=
     mjoin (type_issue parse_number format_fixed df <$> numeric_columns) in
   validate_numeric_columns parse_number format_fixed self df numeric_columns
     file_path log
   = (Returns warnings, log ++ ((λ w, ui_warning (TypeWarning w)) <$> warnings))) ∧
  (∀ pre col post series,
     numeric_columns = pre ++ col :: post →
     (∀ c s, c ∈ pre → get_col df c = Some s →
        mostly_invalid parse_number s (nrows df) = false) →
     get_col df col = Some series →
     mostly_invalid parse_number series (nrows df) = true →
     validate_numeric_columns parse_number format_fixed self df numeric_columns
       file_path log
     = (Raises (Validation (InvalidDataTypeError col "numeric"
                  (invalid_samples parse_number series)
                  (count_true (invalid parse_number <$> series)) file_path)),
        log ++ ((λ w, ui_warning (TypeWarning w))
                  <$> mjoin (type_issue parse_number format_fixed df <$> pre)))).
Proof.
  unfold validate_numeric_columns. split.
  - intros Hclean. by rewrite numeric_loop_clean.
  - intros pre col post series -> Hpre Hcol Hbad. by apply numeric_loop_first.
Qed.

End columns_theory.

Section required_theory.
Context {V : Type}.

(** X26. [validate_columns] returns exactly when every required column
    is a column of the table; otherwise it raises [MissingColumnError],
    whose list of columns is not empty and holds, in the order required,
    exactly the required columns the table lacks (no column that is present
    is ever listed), along with the table's columns. *)
Theorem validate_columns_spec (self : IntegrityValidator) (df : DataFrame V)
    (required_columns : list string) (file_path : option string) :
  (validate_columns self df required_columns file_path = Returns tt
   ↔ ∀ c, c ∈ required_columns → c ∈ columns df) ∧
  (∀ e, validate_columns self df required_columns file_path = Raises e →
     ∃ missing,
       e = Validation (MissingColumnError missing file_path (columns df)) ∧
       missing ≠ [] ∧
       missing `sublist_of` required_columns ∧
       ∀ c, c ∈ missing ↔ c ∈ required_columns ∧ c ∉ columns df).
Proof.
  unfold validate_columns.
  set (missing := filter (λ col, col ∉ columns df) required_columns).
  assert (Hmem : ∀ c, c ∈ missing ↔ c ∈ required_columns ∧ c ∉ columns df).
  { intros c. subst missing. rewrite list_elem_of_filter. tauto. }
  case_bool_decide as Hmiss.
  - split.
    + split; [done|]. intros Hall.
      destruct missing as [|c rest] eqn:Hm; [done|].
      destruct (Hmem c) as [[Hc Hn] _]; [by left|]. destruct Hn. by apply Hall.
    + intros e [= <-]. exists missing. split; [done|]. split; [done|].
      split; [apply sublist_filter|done].
  - split.
    + split; [|done]. intros _ c Hc. destruct (decide (c ∈ columns df)); [done|].
      assert (c ∈ missing) as Hin by (by apply Hmem). rewrite Hmiss in Hin.
      by apply elem_of_nil in Hin.
    + by intros e.
Qed.

End required_theory.

Lemma validate_numeric_columns_witness :
  validate_numeric_columns (λ _, None) (λ _ _, "16.7") (new_validator None false false)
    smo2_ex ["secs"; "SmO2"; "THb"] None []
  = (Returns ["Kolumna 'SmO2': 1 wartości nienumerycznych (16.7%) - zostaną zamienione na NaN"],
     [ui_warning (TypeWarning
        "Kolumna 'SmO2': 1 wartości nienumerycznych (16.7%) - zostaną zamienione na NaN")]).
Proof.
  apply (proj1 (validate_numeric_columns_spec (λ _, None) (λ _ _, "16.7")
                  (new_validator None false false) smo2_ex ["secs"; "SmO2"; "THb"]
                  None [])).
  intros col series Hin Hcol.
  apply elem_of_cons in Hin as [->|Hin]; [by injection Hcol as <-|].
  apply elem_of_cons in Hin as [->|Hin]; [by injection Hcol as <-|].
  apply elem_of_cons in Hin as [->|Hin]; [discriminate Hcol|].
  by apply elem_of_nil in Hin.
Defined.

Lemma validate_columns_witness :
  ∃ missing,
    validate_columns (new_validator None false false) smo2_ex ["SmO2"; "THb"; "secs"]
      (Some "trainred.csv")
    = Raises (Validation (MissingColumnError missing (Some "trainred.csv")
                (columns smo2_ex))) ∧
    ("THb" ∈ missing ↔ "THb" ∈ ["SmO2"; "THb"; "secs"] ∧ "THb" ∉ columns smo2_ex).
Proof.
  destruct (proj2 (validate_columns_spec (new_validator None false false) smo2_ex
                     ["SmO2"; "THb"; "secs"] (Some "trainred.csv"))
              (Validation (MissingColumnError ["THb"] (Some "trainred.csv")
                             (columns smo2_ex))) eq_refl)
    as (missing & Heq & _ & _ & Hmem).
  exists missing. split; [by rewrite <- Heq|apply Hmem].
Defined.
